(** * Bounded asset history of the test-asset generator

    A shallow embedding of the asset bookkeeping found in
    [src/components/VideoGenerator.vue], [src/components/ImageGenerator.vue],
    [src/components/DerivativeGenerator.vue] and of the encoder singleton of
    [src/lib/ffmpeg.ts].

    JavaScript objects are shared by reference: the [placeholder] object that
    [generateVideo] prepends to [videoResults] is the very object its
    continuation writes to later.  The embedding therefore keeps an object
    store (a list of records, an object reference being an index into it) and
    the result arrays hold references, not copies. *)

From Stdlib Require Import ZArith QArith Qround.
From stdpp Require Import base list strings gmap.

Open Scope Z_scope.
Open Scope string_scope.
Open Scope list_scope.

(** ** Data model ([src/types.ts]) *)

Inductive AssetStatus := pending | ready | error.
Inductive AssetKind := image | video.
Inductive ToastType := toast_success | toast_error.

Global Instance AssetStatus_eq_dec : EqDecision AssetStatus.
Proof. solve_decision. Defined.

Module Asset.

(** [GeneratedAsset]; the optional fields [status?], [progress?] and [hash?]
    are options. *)
Record GeneratedAsset := mk {
  id : string;
  kind : AssetKind;
  url : string;
  mime : string;
  name : string;
  detail : string;
  size : Z;
  sizeLabel : string;
  createdAt : Z;
  status : option AssetStatus;
  progress : option Z;
  hash : option string
}.

(** Field writes [asset.f = v]. *)
Definition set_url (v : string) (a : GeneratedAsset) : GeneratedAsset :=
  mk (id a) (kind a) v (mime a) (name a) (detail a) (size a) (sizeLabel a)
     (createdAt a) (status a) (progress a) (hash a).
Definition set_detail (v : string) (a : GeneratedAsset) : GeneratedAsset :=
  mk (id a) (kind a) (url a) (mime a) (name a) v (size a) (sizeLabel a)
     (createdAt a) (status a) (progress a) (hash a).
Definition set_size (v : Z) (a : GeneratedAsset) : GeneratedAsset :=
  mk (id a) (kind a) (url a) (mime a) (name a) (detail a) v (sizeLabel a)
     (createdAt a) (status a) (progress a) (hash a).
Definition set_sizeLabel (v : string) (a : GeneratedAsset) : GeneratedAsset :=
  mk (id a) (kind a) (url a) (mime a) (name a) (detail a) (size a) v
     (createdAt a) (status a) (progress a) (hash a).
Definition set_createdAt (v : Z) (a : GeneratedAsset) : GeneratedAsset :=
  mk (id a) (kind a) (url a) (mime a) (name a) (detail a) (size a) (sizeLabel a)
     v (status a) (progress a) (hash a).
Definition set_status (v : AssetStatus) (a : GeneratedAsset) : GeneratedAsset :=
  mk (id a) (kind a) (url a) (mime a) (name a) (detail a) (size a) (sizeLabel a)
     (createdAt a) (Some v) (progress a) (hash a).
Definition set_progress (v : Z) (a : GeneratedAsset) : GeneratedAsset :=
  mk (id a) (kind a) (url a) (mime a) (name a) (detail a) (size a) (sizeLabel a)
     (createdAt a) (status a) (Some v) (hash a).
Definition set_hash (v : string) (a : GeneratedAsset) : GeneratedAsset :=
  mk (id a) (kind a) (url a) (mime a) (name a) (detail a) (size a) (sizeLabel a)
     (createdAt a) (status a) (progress a) (Some v).

End Asset.

Abbreviation GeneratedAsset := Asset.GeneratedAsset.

(** An object reference, and the store of all asset objects ever created.
    Objects are never freed, so allocation appends. *)
Abbreviation loc := nat.
Abbreviation Heap := (list GeneratedAsset).

Definition alloc (o : GeneratedAsset) (h : Heap) : loc * Heap :=
  (length h, h ++ [o]).

(** [obj.f = v] on the object behind reference [p]. *)
Definition write (p : loc) (f : GeneratedAsset -> GeneratedAsset) (h : Heap) : Heap :=
  alter f p h.

(** [URL.createObjectURL(blob)]: the browser mints a fresh URL of the form
    [blob:<origin>/<uuid>]; the part after the scheme is chosen by the
    environment. *)
Definition createObjectURL (uuid : string) : string := "blob:" ++ uuid.

(** ** The bounded history shared by the three generators

    [cleanupAsset] and [pushResult] are repeated verbatim in the three
    components (only the name of the array differs: [videoResults],
    [imageResults], [results]). *)

Module Registry.

Record t := mk {
  heap : Heap;
  results : list loc;          (* the array, newest first *)
  revoked : list string        (* calls of URL.revokeObjectURL, latest first *)
}.

Definition init : t := mk [] [] [].

(** What the template iterates over: the records behind the array. *)
Definition records (r : t) : list GeneratedAsset :=
  omap (fun p => heap r !! p) (results r).

(** [Array.prototype.pop]: the last element ([undefined] on an empty array)
    and the array without it. *)
Definition pop (l : list loc) : option loc * list loc :=
  (last l, removelast l).

(** [if (asset?.url) URL.revokeObjectURL(asset.url)]; the empty string is
    falsy, and so is a missing asset. *)
Definition cleanupAsset (asset : option loc) (r : t) : t :=
  match asset ≫= (fun p => heap r !! p) with
  | Some o =>
      if String.eqb (Asset.url o) "" then r
      else mk (heap r) (results r) (Asset.url o :: revoked r)
  | None => r
  end.

Definition pushResult (maxHistory : Z) (asset : loc) (r : t) : t :=
  let r1 := mk (heap r) (asset :: results r) (revoked r) in
  if Z.of_nat (length (results r1)) >? maxHistory then
    let '(removed, rest) := pop (results r1) in
    cleanupAsset removed (mk (heap r1) rest (revoked r1))
  else r1.

(** A sequence of [pushResult] calls, first element first. *)
Definition pushAll (maxHistory : Z) (assets : list loc) (r : t) : t :=
  fold_left (fun acc asset => pushResult maxHistory asset acc) assets r.

(** [item.id === assetId] on the object behind a reference. *)
Definition hasId (h : Heap) (assetId : string) (p : loc) : bool :=
  match h !! p with
  | Some o => String.eqb (Asset.id o) assetId
  | None => false
  end.

(** [results.find((item) => item.id === assetId)] *)
Definition find (assetId : string) (r : t) : option loc :=
  List.find (hasId (heap r) assetId) (results r).

(** [results.filter((item) => item.id !== assetId)] *)
Definition filter_out (assetId : string) (r : t) : list loc :=
  List.filter (fun p => negb (hasId (heap r) assetId p)) (results r).

(** Every object ever created is [ready] and carries a handle. *)
Definition allReady (r : t) : Prop :=
  forall p o, heap r !! p = Some o ->
              Asset.status o = Some ready /\ Asset.url o <> "".

End Registry.

(** What a component reports to its parent: [emit('toast', {type, message})]
    and [emit('status', message)]. *)
Inductive Emit :=
| Toast (type : ToastType) (message : string)
| Status (message : string).

(** ** [src/components/VideoGenerator.vue] *)

Module VideoGenerator.

Record VideoConfig := mkConfig {
  width : Q;
  height : Q;
  duration : Q;
  fps : Q;
  startColor : string;
  text : string;
  randomizeHash : bool;
  withAudio : bool
}.

(** The initial value of the reactive [videoConfig]. *)
Definition videoConfig : VideoConfig :=
  mkConfig 640 360 4 24 "#0ea5e9" "测试视频" false false.

(** Where a suspended invocation of [generateVideo] is waiting:
    [await getFFmpeg()], the awaits from [exec] to [computeFFmpegMD5], or
    [await ffmpegInstance.deleteFile(outputName)]. *)
Inductive Phase := Loading | Encoding | Cleaning.

Global Instance Phase_eq_dec : EqDecision Phase.
Proof. solve_decision. Defined.

(** Component state.  [running] holds the suspended invocations of
    [generateVideo], each with the [placeholder] its closure captured. *)
Record State := mk {
  reg : Registry.t;                 (* videoResults and the objects behind it *)
  isVideoGenerating : bool;
  running : list (loc * Phase);
  emitted : list Emit               (* latest first *)
}.

Definition init : State := mk Registry.init false [] [].

Definition phaseOf (p : loc) (st : State) : option Phase :=
  snd <$> List.find (fun '(q, _) => Nat.eqb q p) (running st).

Definition setPhase (p : loc) (ph : Phase) (l : list (loc * Phase)) : list (loc * Phase) :=
  List.map (fun '(q, old) => if Nat.eqb q p then (q, ph) else (q, old)) l.

Definition finish (p : loc) (l : list (loc * Phase)) : list (loc * Phase) :=
  List.filter (fun '(q, _) => negb (Nat.eqb q p)) l.

Definition emit (e : Emit) (st : State) : State :=
  mk (reg st) (isVideoGenerating st) (running st) (e :: emitted st).

Definition writeObj (p : loc) (f : GeneratedAsset -> GeneratedAsset) (st : State) : State :=
  mk (Registry.mk (write p f (Registry.heap (reg st)))
                  (Registry.results (reg st)) (Registry.revoked (reg st)))
     (isVideoGenerating st) (running st) (emitted st).

(** The user, the encoder and the clock, as seen by the component. *)
Inductive Event :=
| GenerateVideo (cfg : VideoConfig) (newId : string) (now : Z)
| FFmpegLoaded (p : loc)
| Progress (p : loc) (time : string)
| Encoded (p : loc) (uuid : string) (blobSize : Z) (md5 : string) (elapsed : string)
| Failed (p : loc) (err : option string)
| Deleted (p : loc)
| RemoveAsset (assetId : string).

Section Component.

(** [props.maxHistory]. *)
Variable maxHistory : Z.
(** [formatBytes] of [src/utils/format.ts] and the template strings for
    [name] and [detail] print floating-point numbers ([Math.log],
    [toFixed]); their text is left abstract. *)
Variable formatBytes : Z -> string.
Variable placeholderName : VideoConfig -> string.
Variable placeholderDetail : VideoConfig -> string.

Definition invalidConfig (cfg : VideoConfig) : bool :=
  Qle_bool (width cfg) 0 || Qle_bool (height cfg) 0
  || Qle_bool (duration cfg) 0 || Qle_bool (fps cfg) 0.

(** [generateVideo], up to its first [await]. *)
Definition generateVideo (cfg : VideoConfig) (newId : string) (now : Z)
    (st : State) : State :=
  if invalidConfig cfg then
    emit (Toast toast_error "请确保宽度/高度/时长/FPS 都大于 0") st
  else if isVideoGenerating st then st
  else
    let placeholder :=
      Asset.mk newId video "" "video/mp4" (placeholderName cfg)
               (placeholderDetail cfg) 0 "生成中" now (Some pending) (Some 0) None in
    let '(p, h) := alloc placeholder (Registry.heap (reg st)) in
    let r := Registry.pushResult maxHistory p
               (Registry.mk h (Registry.results (reg st)) (Registry.revoked (reg st))) in
    mk r true (running st ++ [(p, Loading)])
       (Status "正在加载 FFmpeg…" :: emitted st).

(** [await getFFmpeg()] resolved: the progress handler is registered and
    the encoder is started. *)
Definition ffmpegLoaded (p : loc) (st : State) : State :=
  match phaseOf p st with
  | Some Loading =>
      mk (reg st) (isVideoGenerating st) (setPhase p Encoding (running st))
         (Status "FFmpeg 正在生成视频…" :: emitted st)
  | _ => st
  end.

(** [handleProgress], registered from [on] to [off]. *)
Definition handleProgress (p : loc) (time : string) (st : State) : State :=
  match phaseOf p st with
  | Some Encoding | Some Cleaning =>
      emit (Status ("编码中，已处理 " ++ time ++ " 秒")) st
  | _ => st
  end.

(** The encoder delivered the bytes and their MD5: the writes to
    [placeholder] and the two emits that follow them, up to
    [await ffmpegInstance.deleteFile(outputName)]. *)
Definition encoded (p : loc) (uuid : string) (blobSize : Z) (md5 elapsed : string)
    (st : State) : State :=
  match phaseOf p st with
  | Some Encoding =>
      let st1 := writeObj p (Asset.set_url (createObjectURL uuid)) st in
      let st2 := writeObj p (Asset.set_size blobSize) st1 in
      let st3 := writeObj p (Asset.set_sizeLabel (formatBytes blobSize)) st2 in
      let st4 := writeObj p (Asset.set_status ready) st3 in
      let st5 := writeObj p (Asset.set_progress 1) st4 in
      let st6 := writeObj p (Asset.set_hash md5) st5 in
      let st7 := emit (Status ("视频生成完成 (" ++ formatBytes blobSize ++ ") · 用时 "
                               ++ elapsed ++ " 秒")) st6 in
      let st8 := emit (Toast toast_success "视频生成完成") st7 in
      mk (reg st8) (isVideoGenerating st8) (setPhase p Cleaning (running st8))
         (emitted st8)
  | _ => st
  end.

(** The [finally] block. *)
Definition finally (p : loc) (st : State) : State :=
  mk (reg st) false (finish p (running st)) (emitted st).

(** One of the awaits before the first write rejected: the [catch] block,
    then [finally].  [err] is [error.message] when the error is an
    [Error]. *)
Definition failed (p : loc) (err : option string) (st : State) : State :=
  match phaseOf p st with
  | Some Loading | Some Encoding =>
      let message := default "视频生成失败" err in
      let st1 := emit (Status message) st in
      let st2 := writeObj p (Asset.set_status error) st1 in
      let st3 := writeObj p (Asset.set_sizeLabel "生成失败") st2 in
      let st4 := writeObj p (Asset.set_detail message) st3 in
      let st5 := emit (Toast toast_error message) st4 in
      finally p st5
  | _ => st
  end.

(** The object behind [p] after the writes of the success path. *)
Definition encodedObject (uuid : string) (blobSize : Z) (md5 : string)
    (o : GeneratedAsset) : GeneratedAsset :=
  Asset.set_hash md5
    (Asset.set_progress 1
       (Asset.set_status ready
          (Asset.set_sizeLabel (formatBytes blobSize)
             (Asset.set_size blobSize
                (Asset.set_url (createObjectURL uuid) o))))).

(** The object behind [p] after the writes of the [catch] block. *)
Definition failedObject (err : option string) (o : GeneratedAsset) : GeneratedAsset :=
  Asset.set_detail (default "视频生成失败" err)
    (Asset.set_sizeLabel "生成失败" (Asset.set_status error o)).

(** [deleteFile] settled (a failure is caught and only logged). *)
Definition deleted (p : loc) (st : State) : State :=
  match phaseOf p st with
  | Some Cleaning => finally p st
  | _ => st
  end.

Definition removeAsset (assetId : string) (st : State) : State :=
  match Registry.find assetId (reg st) with
  | None => st
  | Some p =>
      match Registry.heap (reg st) !! p with
      | None => st
      | Some asset =>
          if bool_decide (Asset.status asset = Some pending) then st
          else
            let r := Registry.cleanupAsset (Some p) (reg st) in
            mk (Registry.mk (Registry.heap r) (Registry.filter_out assetId r)
                            (Registry.revoked r))
               (isVideoGenerating st) (running st)
               (Toast toast_success "已删除视频资源" :: emitted st)
      end
  end.

Definition step (st : State) (e : Event) : State :=
  match e with
  | GenerateVideo cfg newId now => generateVideo cfg newId now st
  | FFmpegLoaded p => ffmpegLoaded p st
  | Progress p time => handleProgress p time st
  | Encoded p uuid blobSize md5 elapsed => encoded p uuid blobSize md5 elapsed st
  | Failed p err => failed p err st
  | Deleted p => deleted p st
  | RemoveAsset assetId => removeAsset assetId st
  end.

Definition run (evs : list Event) (st : State) : State :=
  fold_left step evs st.

Definition reachable (st : State) : Prop :=
  exists evs, st = run evs init.

End Component.

(** The invocation whose continuation an event resumes with a write to
    its [placeholder]. *)
Definition producer (e : Event) : option loc :=
  match e with
  | Encoded p _ _ _ _ | Failed p _ => Some p
  | _ => None
  end.

(** [p] is the placeholder of the one suspended invocation, which has not
    written to it yet. *)
Definition awaiting (st : State) (p : loc) : Prop :=
  exists ph, running st = [(p, ph)] /\ ph <> Cleaning.

(** What holds of every state the component can be in. *)
Record consistent (st : State) : Prop := mkConsistent {
  c_running :
    (running st = [] /\ isVideoGenerating st = false)
    \/ exists p ph o,
         running st = [(p, ph)] /\ isVideoGenerating st = true
         /\ Registry.heap (reg st) !! p = Some o
         /\ Asset.status o = Some (if decide (ph = Cleaning) then ready else pending);
  c_pending :
    forall q o, Registry.heap (reg st) !! q = Some o ->
                Asset.status o = Some pending -> awaiting st q;
  c_status :
    forall q o, Registry.heap (reg st) !! q = Some o ->
      (Asset.status o = Some pending \/ Asset.status o = Some ready
       \/ Asset.status o = Some error)
      /\ (Asset.status o <> Some ready -> Asset.url o = "");
  c_nodup : NoDup (Registry.results (reg st));
  c_valid :
    forall q, In q (Registry.results (reg st)) ->
              (q < length (Registry.heap (reg st)))%nat
}.

End VideoGenerator.

(** ** The image generator ([./components/ImageGenerator.vue] in [App.vue]) *)

Module ImageGenerator.

(** A suspended invocation of [generateImage]: the loop counter [i] and the
    bound [tasks]. *)
Record Loop := mkLoop { i : nat; tasks : nat }.

Record State := mk {
  reg : Registry.t;                 (* imageResults and the objects behind it *)
  isImageGenerating : bool;
  batchMode : bool;                 (* generationMode === 'batch' *)
  batchCount : Q;
  running : list Loop;
  emitted : list Emit
}.

Definition init : State := mk Registry.init false false 3 [] [].

Inductive Event :=
| SetGenerationMode (batch : bool)
| SetBatchCount (n : Q)
| GenerateImage
| Produced (k : nat) (uuid : string) (blobSize : Z) (digest : string)
           (newId : string) (now : Z) (mime name detail : string)
| Failed (k : nat) (err : option string)
| RemoveAsset (assetId : string).

Section Component.

Variable maxHistory : Z.
Variable formatBytes : Z -> string.
(** The text of [tasks] in the closing status message. *)
Variable showNat : nat -> string.

Definition emit (e : Emit) (st : State) : State :=
  mk (reg st) (isImageGenerating st) (batchMode st) (batchCount st)
     (running st) (e :: emitted st).

(** The [finally] block of invocation [k]. *)
Definition finally (k : nat) (st : State) : State :=
  mk (reg st) false (batchMode st) (batchCount st)
     (delete k (running st)) (emitted st).

(** [generateImage], up to the first [await] of its loop. *)
Definition generateImage (st : State) : State :=
  if isImageGenerating st then st
  else
    let n := if batchMode st
             then Z.to_nat (Z.max 1 (Qfloor (batchCount st)))
             else 1%nat in
    mk (reg st) true (batchMode st) (batchCount st)
       (running st ++ [mkLoop 0 n])
       (Status (if batchMode st then "批量生成图片…" else "正在生成图片…")
          :: emitted st).

(** One iteration of the loop finished its awaits: the asset is built
    and pushed, then the loop goes on or the function completes. *)
Definition produced (k : nat) (uuid : string) (blobSize : Z) (digest : string)
    (newId : string) (now : Z) (mime name detail : string) (st : State) : State :=
  match running st !! k with
  | None => st
  | Some lp =>
      let asset :=
        Asset.mk newId image (createObjectURL uuid) mime name detail blobSize
                 (formatBytes blobSize) now (Some ready) None (Some digest) in
      let '(p, h) := alloc asset (Registry.heap (reg st)) in
      let r := Registry.pushResult maxHistory p
                 (Registry.mk h (Registry.results (reg st))
                              (Registry.revoked (reg st))) in
      if (S (i lp) <? tasks lp)%nat then
        mk r (isImageGenerating st) (batchMode st) (batchCount st)
           (<[k := mkLoop (S (i lp)) (tasks lp)]> (running st)) (emitted st)
      else
        let st1 := mk r (isImageGenerating st) (batchMode st) (batchCount st)
                      (running st) (emitted st) in
        let st2 := emit (Status (if batchMode st
                                 then "批量生成完成 (" ++ showNat (tasks lp) ++ " 张)"
                                 else "图片生成完成")) st1 in
        let st3 := emit (Toast toast_success
                           (if batchMode st then "批量图片生成完成"
                            else "图片生成完成")) st2 in
        finally k st3
  end.

(** An iteration threw or rejected: [catch], then [finally]. *)
Definition failed (k : nat) (err : option string) (st : State) : State :=
  match running st !! k with
  | None => st
  | Some _ =>
      let message := default "图片生成失败" err in
      finally k (emit (Toast toast_error message) (emit (Status message) st))
  end.

Definition removeAsset (assetId : string) (st : State) : State :=
  match Registry.find assetId (reg st) with
  | None => st
  | Some p =>
      let r := Registry.cleanupAsset (Some p) (reg st) in
      mk (Registry.mk (Registry.heap r) (Registry.filter_out assetId r)
                      (Registry.revoked r))
         (isImageGenerating st) (batchMode st) (batchCount st) (running st)
         (Toast toast_success "已删除图片资源" :: emitted st)
  end.

Definition step (st : State) (e : Event) : State :=
  match e with
  | SetGenerationMode b =>
      mk (reg st) (isImageGenerating st) b (batchCount st) (running st) (emitted st)
  | SetBatchCount n =>
      mk (reg st) (isImageGenerating st) (batchMode st) n (running st) (emitted st)
  | GenerateImage => generateImage st
  | Produced k uuid blobSize digest newId now mime name detail =>
      produced k uuid blobSize digest newId now mime name detail st
  | Failed k err => failed k err st
  | RemoveAsset assetId => removeAsset assetId st
  end.

Definition run (evs : list Event) (st : State) : State :=
  fold_left step evs st.

End Component.

End ImageGenerator.

(** ** [src/components/DerivativeGenerator.vue] *)

Module DerivativeGenerator.

(** The fields of a [File] the component reads. *)
Record File := mkFile { fileName : string; fileType : string; fileSize : Z }.

(** [selectedHash] and [randomizeHash] only feed the displayed text and the
    encoder arguments; they are left out. *)
Record State := mk {
  reg : Registry.t;                 (* results and the objects behind it *)
  selectedFile : option File;
  isProcessing : bool;
  running : list File;              (* the [file] of each suspended invocation *)
  emitted : list Emit
}.

Definition init : State := mk Registry.init None false [] [].

Inductive Event :=
| FileChange (file : option File)
| ClearFile
| DeriveMaterial
| Derived (k : nat) (uuid : string) (blobSize : Z) (md5 : string)
          (dims : string) (newId : string) (now : Z)
| Failed (k : nat) (err : option string)
| RemoveAsset (id : string).

Section Component.

Variable maxHistory : Z.
Variable formatBytes : Z -> string.
(** The template [`${file.name.replace(ext, '')}-derived${ext}`]. *)
Variable derivedName : string -> string.

Definition emit (e : Emit) (st : State) : State :=
  mk (reg st) (selectedFile st) (isProcessing st) (running st) (e :: emitted st).

Definition finally (k : nat) (st : State) : State :=
  mk (reg st) (selectedFile st) false (delete k (running st)) (emitted st).

Definition isImage (file : File) : bool := String.prefix "image/" (fileType file).
Definition isVideo (file : File) : bool := String.prefix "video/" (fileType file).

(** [deriveMaterial], up to its first [await]. *)
Definition deriveMaterial (st : State) : State :=
  match selectedFile st with
  | None => emit (Toast toast_error "请先选择素材文件") st
  | Some file =>
      if negb (isImage file) && negb (isVideo file) then
        emit (Toast toast_error "暂不支持该文件类型") st
      else if isProcessing st then st
      else
        mk (reg st) (selectedFile st) true (running st ++ [file])
           (Status "正在生成衍生素材…" :: emitted st)
  end.

(** [deriveFromImage] or [deriveFromVideo] resolved: the asset is built
    and pushed.  [dims] is the text of the image dimensions. *)
Definition derived (k : nat) (uuid : string) (blobSize : Z) (md5 dims : string)
    (newId : string) (now : Z) (st : State) : State :=
  match running st !! k with
  | None => st
  | Some file =>
      let dkind := if isImage file then image else video in
      let dmime := if isImage file
                   then (if String.eqb (fileType file) "image/png"
                         then "image/png" else "image/jpeg")
                   else "video/mp4" in
      let ddetail := if isImage file then dims else fileName file in
      let asset :=
        Asset.mk newId dkind (createObjectURL uuid) dmime
                 (derivedName (fileName file)) ddetail blobSize
                 (formatBytes blobSize) now (Some ready) None (Some md5) in
      let '(p, h) := alloc asset (Registry.heap (reg st)) in
      let r := Registry.pushResult maxHistory p
                 (Registry.mk h (Registry.results (reg st))
                              (Registry.revoked (reg st))) in
      let st1 := mk r (selectedFile st) (isProcessing st) (running st) (emitted st) in
      let st2 := emit (Toast toast_success "素材衍生完成") st1 in
      let st3 := emit (Status "素材衍生完成") st2 in
      finally k st3
  end.

Definition failed (k : nat) (err : option string) (st : State) : State :=
  match running st !! k with
  | None => st
  | Some _ =>
      let message := default "衍生失败" err in
      finally k (emit (Toast toast_error message) (emit (Status message) st))
  end.

Definition removeAsset (id : string) (st : State) : State :=
  match Registry.find id (reg st) with
  | None => st
  | Some p =>
      let r := Registry.cleanupAsset (Some p) (reg st) in
      mk (Registry.mk (Registry.heap r) (Registry.filter_out id r)
                      (Registry.revoked r))
         (selectedFile st) (isProcessing st) (running st)
         (Toast toast_success "已删除衍生素材" :: emitted st)
  end.

Definition step (st : State) (e : Event) : State :=
  match e with
  | FileChange file =>
      mk (reg st) file (isProcessing st) (running st) (emitted st)
  | ClearFile =>
      mk (reg st) None (isProcessing st) (running st) (emitted st)
  | DeriveMaterial => deriveMaterial st
  | Derived k uuid blobSize md5 dims newId now =>
      derived k uuid blobSize md5 dims newId now st
  | Failed k err => failed k err st
  | RemoveAsset id => removeAsset id st
  end.

Definition run (evs : list Event) (st : State) : State :=
  fold_left step evs st.

End Component.

End DerivativeGenerator.

(** ** [src/lib/ffmpeg.ts]: the shared encoder instance *)

Module FFmpeg.

(** The state of the promise built by
    [createInstance().then(...).catch(...)]. *)
Inductive PromiseState := InFlight | Fulfilled | Rejected.

Global Instance PromiseState_eq_dec : EqDecision PromiseState.
Proof. solve_decision. Defined.

(** What a call of [getFFmpeg] resolves to: the cached instance, or
    whatever the shared promise settles to. *)
Inductive Ret := RetInstance (ffmpeg : nat) | RetPromise (promise : nat).

(** The module-level variables.  The [k]-th call of [createInstance]
    builds encoder object [k] and promise [k]; [loads] records the state
    of each of these promises, so its length counts the loads started. *)
Record State := mk {
  instance : option nat;
  loadingPromise : option nat;
  loads : list PromiseState;
  returned : list Ret               (* results of the calls, latest first *)
}.

Definition init : State := mk None None [] [].

Inductive Event :=
| GetFFmpeg
| LoadSucceeded (k : nat)
| LoadFailed (k : nat).

Definition getFFmpeg (st : State) : Ret * State :=
  match instance st with
  | Some ffmpeg => (RetInstance ffmpeg, st)
  | None =>
      match loadingPromise st with
      | Some p => (RetPromise p, st)
      | None =>
          let p := length (loads st) in
          (RetPromise p, mk (instance st) (Some p) (loads st ++ [InFlight]) (returned st))
      end
  end.

(** The [then] handler: [instance = ffmpeg]. *)
Definition loadSucceeded (k : nat) (st : State) : State :=
  match loads st !! k with
  | Some InFlight =>
      mk (Some k) (loadingPromise st) (<[k := Fulfilled]> (loads st)) (returned st)
  | _ => st
  end.

(** The [catch] handler: [loadingPromise = null], and the error is
    rethrown to whoever awaits the promise. *)
Definition loadFailed (k : nat) (st : State) : State :=
  match loads st !! k with
  | Some InFlight =>
      mk (instance st) None (<[k := Rejected]> (loads st)) (returned st)
  | _ => st
  end.

Definition step (st : State) (e : Event) : State :=
  match e with
  | GetFFmpeg =>
      let '(r, st1) := getFFmpeg st in
      mk (instance st1) (loadingPromise st1) (loads st1) (r :: returned st1)
  | LoadSucceeded k => loadSucceeded k st
  | LoadFailed k => loadFailed k st
  end.

Definition run (evs : list Event) (st : State) : State :=
  fold_left step evs st.

(** What holds of the module variables in every state: the instance is
    the encoder of a fulfilled load, a load in flight is the one
    [loadingPromise] points to, and [loadingPromise] never points to a
    rejected load. *)
Record consistent (st : State) : Prop := mkConsistent {
  c_instance : forall k, instance st = Some k ->
                 loads st !! k = Some Fulfilled /\ loadingPromise st = Some k;
  c_inflight : forall k, loads st !! k = Some InFlight ->
                 loadingPromise st = Some k /\ instance st = None;
  c_fulfilled : forall k, loads st !! k = Some Fulfilled -> instance st = Some k;
  c_promise : forall p, loadingPromise st = Some p ->
                loads st !! p = Some InFlight \/ loads st !! p = Some Fulfilled
}.

End FFmpeg.

(** ** Concrete instances, for running the model *)

Module Sample.

(** Stand-ins for the number-formatting functions. *)
Definition label (bytes : Z) : string := if Z.eqb bytes 0 then "0 B" else "1.0 KB".
Definition videoName (cfg : VideoGenerator.VideoConfig) : string :=
  VideoGenerator.text cfg ++ "-640x360.mp4".
Definition videoDetail (cfg : VideoGenerator.VideoConfig) : string :=
  "640 × 360px · 4.00s".

Definition placeholder (newId : string) (now : Z) : GeneratedAsset :=
  Asset.mk newId video "" "video/mp4" (videoName VideoGenerator.videoConfig)
           (videoDetail VideoGenerator.videoConfig) 0 "生成中" now
           (Some pending) (Some 0) None.

(** The video component with a given capacity. *)
Definition videoRun (maxHistory : Z) :
    list VideoGenerator.Event -> VideoGenerator.State -> VideoGenerator.State :=
  VideoGenerator.run maxHistory label videoName videoDetail.
Definition videoStep (maxHistory : Z) :
    VideoGenerator.State -> VideoGenerator.Event -> VideoGenerator.State :=
  VideoGenerator.step maxHistory label videoName videoDetail.

End Sample.

(** ** What the template of [src/components/VideoGenerator.vue] asks of a record *)

Module VideoView.

Definition canPreview (asset : GeneratedAsset) : bool :=
  bool_decide (Asset.status asset = Some ready).

(** [asset.status === 'ready' && Boolean(asset.url)] *)
Definition canDownload (asset : GeneratedAsset) : bool :=
  bool_decide (Asset.status asset = Some ready)
  && negb (String.eqb (Asset.url asset) "").

Definition assetStatusText (asset : GeneratedAsset) : string :=
  if bool_decide (Asset.status asset = Some pending) then "生成中"
  else if bool_decide (Asset.status asset = Some error) then "生成失败"
  else "可用".

Definition assetStatusClass (asset : GeneratedAsset) : string :=
  if bool_decide (Asset.status asset = Some pending) then "badge badge-pending"
  else if bool_decide (Asset.status asset = Some error) then "badge badge-error"
  else "badge badge-ready".

(** [downloadAsset]: the link that is created and clicked ([href],
    [download]), or nothing when the [url] is empty. *)
Definition downloadAsset (asset : GeneratedAsset) : option (string * string) :=
  if String.eqb (Asset.url asset) "" then None
  else Some (Asset.url asset, Asset.name asset).

(** Every [ready] object carries a handle. *)
Definition readyHasUrl (st : VideoGenerator.State) : Prop :=
  forall q o, Registry.heap (VideoGenerator.reg st) !! q = Some o ->
              Asset.status o = Some ready -> Asset.url o <> "".

(** The placeholder of the suspended invocation that has not written yet
    is the first element of the array. *)
Definition placeholderFirst (st : VideoGenerator.State) : Prop :=
  forall p ph, VideoGenerator.running st = [(p, ph)] ->
               ph <> VideoGenerator.Cleaning ->
               exists rest, Registry.results (VideoGenerator.reg st) = p :: rest.

End VideoView.

(** ** Further facts about the loads of [src/lib/ffmpeg.ts] *)

Module FFmpegView.

(** Every load but the one started last has been rejected. *)
Definition settledBefore (st : FFmpeg.State) : Prop :=
  forall k, (S k < length (FFmpeg.loads st))%nat ->
            FFmpeg.loads st !! k = Some FFmpeg.Rejected.

(** A returned instance is the encoder of a fulfilled load, a returned
    promise is the promise of a load that was started. *)
Definition validRet (st : FFmpeg.State) (r : FFmpeg.Ret) : Prop :=
  match r with
  | FFmpeg.RetInstance k => FFmpeg.loads st !! k = Some FFmpeg.Fulfilled
  | FFmpeg.RetPromise p => (p < length (FFmpeg.loads st))%nat
  end.

Definition isRejected (s : FFmpeg.PromiseState) : bool :=
  bool_decide (s = FFmpeg.Rejected).

End FFmpegView.

(** ** The toasts of [src/App.vue] *)

Module App.

(** [ToastEntry = ToastPayload & { id: string }] *)
Record ToastEntry := mkToast {
  toastId : string;
  toastMessage : string;
  toastType : ToastType
}.

Record State := mk {
  toasts : list ToastEntry;
  toastTimers : gmap string Z;      (* Map<string, number> *)
  cleared : list Z                  (* calls of window.clearTimeout, latest first *)
}.

Definition init : State := mk [] ∅ [].

(** A toast is raised by a component ([generateId] and the handle that
    [window.setTimeout] returns come from the environment); a toast is
    dismissed by its button or by its timer, both calling [removeToast]. *)
Inductive Event :=
| PushToast (message : string) (type : ToastType) (newId : string) (timer : Z)
| RemoveToast (id : string).

Section Component.

(** [typeof window !== 'undefined'] *)
Variable hasWindow : bool.

Definition removeToast (id : string) (st : State) : State :=
  let kept := List.filter (fun t => negb (String.eqb (toastId t) id)) (toasts st) in
  let cleared1 :=
    match toastTimers st !! id with
    | Some timer => if hasWindow then timer :: cleared st else cleared st
    | None => cleared st
    end in
  mk kept (delete id (toastTimers st)) cleared1.

Definition pushToast (message : string) (type : ToastType) (newId : string)
    (timer : Z) (st : State) : State :=
  let toast := mkToast newId message type in
  mk (toasts st ++ [toast])
     (if hasWindow then <[newId := timer]> (toastTimers st) else toastTimers st)
     (cleared st).

Definition step (st : State) (e : Event) : State :=
  match e with
  | PushToast message type newId timer => pushToast message type newId timer st
  | RemoveToast id => removeToast id st
  end.

Definition run (evs : list Event) (st : State) : State :=
  fold_left step evs st.

(** The timers are those of the toasts on display. *)
Definition inSync (st : State) : Prop :=
  forall id, is_Some (toastTimers st !! id) <-> In id (map toastId (toasts st)).

End Component.

End App.

(** ** A whole invocation of [generateImage] *)

Module ImageBatch.

(** The number of iterations [generateImage] plans when it is called:
    [generationMode.value === 'batch' ? Math.max(1, Math.floor(batchCount.value)) : 1]. *)
Definition plannedTasks (st : ImageGenerator.State) : nat :=
  if ImageGenerator.batchMode st
  then Z.to_nat (Z.max 1 (Qfloor (ImageGenerator.batchCount st)))
  else 1%nat.

(** What one iteration obtains from the canvas, the digest, [generateId]
    and the clock. *)
Record Picture := mkPicture {
  uuid : string;
  blobSize : Z;
  digest : string;
  newId : string;
  now : Z;
  mime : string;
  name : string;
  detail : string
}.

(** The iteration of the invocation at position [k] completes with [pic]. *)
Definition completes (k : nat) (pic : Picture) : ImageGenerator.Event :=
  ImageGenerator.Produced k (uuid pic) (blobSize pic) (digest pic) (newId pic)
                          (now pic) (mime pic) (name pic) (detail pic).

End ImageBatch.

(** ** JavaScript strings and numbers, as far as the colour and digest
    helpers need them

    A string is its sequence of UTF-16 code units. *)

Module Js.

Abbreviation jsstring := (list N).

(** A literal made of ASCII characters. *)
Definition lit (s : string) : jsstring :=
  List.map Ascii.N_of_ascii (String.list_ascii_of_string s).

(** The code units [String.prototype.trim] strips ([WhiteSpace] and
    [LineTerminator] of ECMAScript). *)
Definition isWhiteSpace (c : N) : bool :=
  ((9 <=? c) && (c <=? 13) || (c =? 32) || (c =? 160) || (c =? 5760)
   || ((8192 <=? c) && (c <=? 8202)) || (c =? 8232) || (c =? 8233)
   || (c =? 8239) || (c =? 8287) || (c =? 12288) || (c =? 65279))%N.

Fixpoint dropWhile (f : N -> bool) (s : jsstring) : jsstring :=
  match s with
  | c :: rest => if f c then dropWhile f rest else s
  | [] => []
  end.

Definition trim (s : jsstring) : jsstring :=
  rev (dropWhile isWhiteSpace (rev (dropWhile isWhiteSpace s))).

(** [/[0-9a-fA-F]/] *)
Definition isHexDigit (c : N) : bool :=
  ((48 <=? c) && (c <=? 57) || (97 <=? c) && (c <=? 102)
   || (65 <=? c) && (c <=? 70))%N.

(** [/[0-9a-f]/] *)
Definition isLowerHexDigit (c : N) : bool :=
  ((48 <=? c) && (c <=? 57) || (97 <=? c) && (c <=? 102))%N.

(** [toLowerCase] on the ASCII range; the source applies it only to
    strings of hexadecimal digits. *)
Definition toLowerCase (s : jsstring) : jsstring :=
  List.map (fun c => if ((65 <=? c) && (c <=? 90))%N then (c + 32)%N else c) s.

(** [padStart(width, pad)] with a pad of one code unit. *)
Definition padStart (width : nat) (pad : N) (s : jsstring) : jsstring :=
  replicate (width - length s) pad ++ s.

(** The value of a hexadecimal digit. *)
Definition hexValue (c : N) : option Z :=
  if ((48 <=? c) && (c <=? 57))%N then Some (Z.of_N c - 48)
  else if ((97 <=? c) && (c <=? 102))%N then Some (Z.of_N c - 87)
  else if ((65 <=? c) && (c <=? 70))%N then Some (Z.of_N c - 55)
  else None.

Fixpoint digitsPrefix (s : jsstring) : list Z :=
  match s with
  | c :: rest =>
      match hexValue c with
      | Some d => d :: digitsPrefix rest
      | None => []
      end
  | [] => []
  end.

Definition valueOfDigits (ds : list Z) : Z :=
  fold_left (fun acc d => acc * 16 + d) ds 0.

(** [parseInt(s, 16)]: leading white space, a sign and a [0x] prefix are
    skipped, the longest run of digits is read; [None] is [NaN].  The
    result is the exact integer, which is what JavaScript returns for up to
    thirteen digits. *)
Definition parseInt16 (s : jsstring) : option Z :=
  let s1 := dropWhile isWhiteSpace s in
  let '(sign, s2) :=
    match s1 with
    | c :: rest =>
        if (c =? 45)%N then (-1, rest)          (* '-' *)
        else if (c =? 43)%N then (1, rest)      (* '+' *)
        else (1, s1)
    | [] => (1, s1)
    end in
  let s3 :=
    match s2 with
    | c1 :: c2 :: rest =>
        if ((c1 =? 48) && ((c2 =? 120) || (c2 =? 88)))%N then rest   (* 0x, 0X *)
        else s2
    | _ => s2
    end in
  match digitsPrefix s3 with
  | [] => None
  | ds => Some (sign * valueOfDigits ds)
  end.

(** The digit character of a value below sixteen. *)
Definition hexChar (d : Z) : N :=
  if (d <? 10)%Z then Z.to_N (48 + d) else Z.to_N (87 + d).

Fixpoint hexDigitsAux (fuel : nat) (n : Z) (acc : jsstring) : jsstring :=
  match fuel with
  | O => acc
  | S fuel' =>
      let acc' := hexChar (n mod 16) :: acc in
      if (n / 16 =? 0)%Z then acc' else hexDigitsAux fuel' (n / 16) acc'
  end.

(** [n.toString(16)] for an integer [n]. *)
Definition toString16 (n : Z) : jsstring :=
  if (n <? 0)%Z
  then 45%N :: hexDigitsAux (S (Z.to_nat (Z.log2 (- n)))) (- n) []
  else hexDigitsAux (S (Z.to_nat (Z.log2 n))) n [].

(** [ToInt32], and the operators [>>], [<<], [&], [|] on it. *)
Definition toInt32 (x : Z) : Z := (x + 2 ^ 31) mod 2 ^ 32 - 2 ^ 31.
Definition sar (x n : Z) : Z := Z.shiftr (toInt32 x) (n mod 32).
Definition shl (x n : Z) : Z := toInt32 (Z.shiftl (toInt32 x) (n mod 32)).
Definition band (x y : Z) : Z := Z.land (toInt32 x) (toInt32 y).
Definition bor (x y : Z) : Z := Z.lor (toInt32 x) (toInt32 y).

(** The digits of [n] on exactly [width] places. *)
Fixpoint hexFixed (width : nat) (n : Z) : jsstring :=
  match width with
  | O => []
  | S w => hexFixed w (n / 16) ++ [hexChar (n mod 16)]
  end.

Definition inDigitRange (d : Z) : Prop := 0 <= d < 16.

(** The digit values of [n] on exactly [width] places. *)
Fixpoint fixedDigits (width : nat) (n : Z) : list Z :=
  match width with
  | O => []
  | S w => fixedDigits w (n / 16) ++ [n mod 16]
  end.

End Js.

(** ** The colour helpers of [src/components/VideoGenerator.vue] *)

Module Color.

Definition normalizeHex (value : Js.jsstring) : Js.jsstring :=
  let hex := Js.trim value in
  let hex := match hex with             (* startsWith('#'), slice(1) *)
             | c :: rest => if (c =? 35)%N then rest else hex
             | [] => hex
             end in
  let hex := if Nat.eqb (length hex) 3
             then flat_map (fun c => [c; c]) hex
             else hex in
  if negb (Nat.eqb (length hex) 6 && forallb Js.isHexDigit hex)
  then Js.lit "222222"
  else Js.toLowerCase hex.

Definition toFFmpegColor (value : Js.jsstring) : Js.jsstring :=
  Js.lit "0x" ++ normalizeHex value.

(** [Math.max(0, Math.min(255, x))] *)
Definition clampChannel (x : Z) : Z := Z.max 0 (Z.min 255 x).

(** [nudgedColor]; [rnd] is [Math.floor(Math.random() * 50)].  A [NaN]
    from [parseInt] would enter the bit operators as 0. *)
Definition nudgedColor (rnd : Z) (value : Js.jsstring) : Js.jsstring :=
  let hex := normalizeHex value in
  let num := default 0 (Js.parseInt16 hex) in
  let delta := rnd - 25 in
  let r := clampChannel (Js.band (Js.sar num 16) 255 + delta) in
  let g := clampChannel (Js.band (Js.sar num 8) 255 + delta) in
  let b := clampChannel (Js.band num 255 + delta) in
  Js.lit "0x"
  ++ Js.padStart 6 48 (Js.toString16 (Js.bor (Js.bor (Js.shl r 16) (Js.shl g 8)) b)).

End Color.

(** ** The digests: [src/utils/hash.ts] and [computeHash] of
    [src/utils/format.ts] *)

Module Hash.

(** [s.split(sep)] for a separator of one code unit: the pieces between
    the separators, at least one piece. *)
Fixpoint split (sep : N) (s : Js.jsstring) : list Js.jsstring :=
  match s with
  | [] => [[]]
  | c :: rest =>
      if (c =? sep)%N then [] :: split sep rest
      else match split sep rest with
           | piece :: pieces => (c :: piece) :: pieces
           | [] => [[c]]
           end
  end.


(** [b.toString(16).padStart(2, '0')] *)
Definition hexOfByte (b : Z) : Js.jsstring :=
  Js.padStart 2 48 (Js.toString16 b).

(** [Array.from(new Uint8Array(digest)).map(...).join('')] *)
Definition hexOfBytes (bytes : list Z) : Js.jsstring :=
  concat (List.map hexOfByte bytes).

(** [computeHash]: [hasSubtle] is the test on [window.crypto.subtle],
    [digest] what [digest('MD5', buffer).catch(() => null)] resolved to. *)
Definition computeHash (hasSubtle : bool) (digest : option (list Z)) : Js.jsstring :=
  if negb hasSubtle then []
  else match digest with
       | None => []
       | Some bytes => hexOfBytes bytes
       end.

Definition isByte (b : Z) : Prop := 0 <= b <= 255.

End Hash.

(** ** Object URLs of the video generator, from creation to release *)

Module Handles.

(** The identifier the browser draws for [URL.createObjectURL] when the
    event makes the component create a URL. *)
Definition uuidOf (e : VideoGenerator.Event) : list string :=
  match e with
  | VideoGenerator.Encoded _ uuid _ _ _ => [uuid]
  | _ => []
  end.

Definition uuidsOf (evs : list VideoGenerator.Event) : list string :=
  flat_map uuidOf evs.

(** With [used] the identifiers drawn so far: every URL held by an object
    was created from one of them, two objects never hold the same URL, no
    URL was revoked twice, and a revoked URL belongs to an object that has
    left the array. *)
Record disciplined (used : list string) (st : VideoGenerator.State) : Prop :=
  mkDisciplined {
    d_minted :
      forall q o, Registry.heap (VideoGenerator.reg st) !! q = Some o ->
        Asset.url o <> "" ->
        exists u, In u used /\ Asset.url o = createObjectURL u;
    d_distinct :
      forall q1 q2 o1 o2,
        Registry.heap (VideoGenerator.reg st) !! q1 = Some o1 ->
        Registry.heap (VideoGenerator.reg st) !! q2 = Some o2 ->
        Asset.url o1 = Asset.url o2 -> Asset.url o1 <> "" -> q1 = q2;
    d_once : NoDup (Registry.revoked (VideoGenerator.reg st));
    d_gone :
      forall u, In u (Registry.revoked (VideoGenerator.reg st)) ->
        u <> ""
        /\ exists q o, Registry.heap (VideoGenerator.reg st) !! q = Some o
             /\ Asset.url o = u
             /\ ~ In q (Registry.results (VideoGenerator.reg st))
  }.

End Handles.

(** ** One generation at a time *)

Module Busy.

(** The image generator is idle, or one invocation of [generateImage] is
    suspended inside its loop and the flag is set. *)
Definition imageBusy (st : ImageGenerator.State) : Prop :=
  (ImageGenerator.running st = [] /\ ImageGenerator.isImageGenerating st = false)
  \/ exists i n,
       ImageGenerator.running st = [ImageGenerator.mkLoop i n]
       /\ ImageGenerator.isImageGenerating st = true /\ (i < n)%nat.

(** The derivative generator is idle, or one invocation of
    [deriveMaterial] is suspended on a file that is an image or a video
    and the flag is set. *)
Definition derivativeBusy (st : DerivativeGenerator.State) : Prop :=
  (DerivativeGenerator.running st = [] /\ DerivativeGenerator.isProcessing st = false)
  \/ exists file,
       DerivativeGenerator.running st = [file]
       /\ DerivativeGenerator.isProcessing st = true
       /\ (DerivativeGenerator.isImage file || DerivativeGenerator.isVideo file) = true.

(** The [kind] and the [mime] of a derived asset go together. *)
Definition kindMatchesMime (o : GeneratedAsset) : Prop :=
  (Asset.kind o = video /\ Asset.mime o = "video/mp4")
  \/ (Asset.kind o = image
      /\ (Asset.mime o = "image/png" \/ Asset.mime o = "image/jpeg")).

End Busy.

(** * Properties *)

(** ** The bounded history *)

Section RegistryFacts.

Import Registry.

Lemma cleanupAsset_results asset r :
  results (cleanupAsset asset r) = results r.
Proof.
  unfold cleanupAsset.
  destruct (asset ≫= _) as [o|]; [|done].
  by destruct (String.eqb _ _).
Qed.

Lemma cleanupAsset_heap asset r :
  heap (cleanupAsset asset r) = heap r.
Proof.
  unfold cleanupAsset.
  destruct (asset ≫= _) as [o|]; [|done].
  by destruct (String.eqb _ _).
Qed.

Lemma cleanupAsset_revoked p o r :
  heap r !! p = Some o ->
  revoked (cleanupAsset (Some p) r) =
    if String.eqb (Asset.url o) "" then revoked r else Asset.url o :: revoked r.
Proof.
  intros Hp. unfold cleanupAsset. simpl. rewrite Hp.
  by destruct (String.eqb _ _).
Qed.

Lemma pushResult_results m asset r :
  results (pushResult m asset r) =
    if Z.of_nat (S (length (results r))) >? m
    then removelast (asset :: results r) else asset :: results r.
Proof.
  unfold pushResult, pop. cbn [results length].
  destruct (Z.of_nat _ >? m); [|done].
  by rewrite cleanupAsset_results.
Qed.

Lemma pushResult_heap m asset r : heap (pushResult m asset r) = heap r.
Proof.
  unfold pushResult, pop. cbn [results length].
  destruct (Z.of_nat _ >? m); [|done].
  by rewrite cleanupAsset_heap.
Qed.

Lemma length_removelast_cons {A} (x : A) (l : list A) :
  length (removelast (x :: l)) = length l.
Proof.
  rewrite removelast_firstn_len, length_take. simpl. lia.
Qed.

(** One call keeps the bound. *)
Lemma pushResult_bound m asset r :
  0 <= m ->
  Z.of_nat (length (results r)) <= m ->
  Z.of_nat (length (results (pushResult m asset r))) <= m.
Proof.
  intros Hm Hr. rewrite pushResult_results.
  destruct (Z.gtb_spec (Z.of_nat (S (length (results r)))) m) as [Hgt|Hle].
  - by rewrite length_removelast_cons.
  - simpl length. lia.
Qed.

Lemma pushAll_bound m assets r :
  0 <= m ->
  Z.of_nat (length (results r)) <= m ->
  Z.of_nat (length (results (pushAll m assets r))) <= m.
Proof.
  intros Hm. revert r.
  induction assets as [|a assets IH]; intros r Hr; [done|].
  apply IH. by apply pushResult_bound.
Qed.

Lemma pushAll_app m l1 l2 r :
  pushAll m (l1 ++ l2) r = pushAll m l2 (pushAll m l1 r).
Proof. unfold pushAll. apply fold_left_app. Qed.

(** Below the capacity nothing is evicted. *)
Lemma pushAll_no_overflow m assets r :
  Z.of_nat (length (results r) + length assets) <= m ->
  pushAll m assets r = mk (heap r) (rev assets ++ results r) (revoked r).
Proof.
  revert r. induction assets as [|a assets IH]; intros r Hlen.
  - by destruct r.
  - simpl in Hlen. change (pushAll m (a :: assets) r)
      with (pushAll m assets (pushResult m a r)).
    assert (Hstep : pushResult m a r = mk (heap r) (a :: results r) (revoked r)).
    { unfold pushResult. cbn [results length].
      destruct (Z.gtb_spec (Z.of_nat (S (length (results r)))) m); [lia|done]. }
    rewrite Hstep, IH; cbn [heap results revoked length]; [|lia].
    simpl rev. by rewrite <- app_assoc.
Qed.

End RegistryFacts.

(** C1.  For every positive [maxHistory] and every sequence of [pushResult]
    calls on a history that starts within the bound (the empty one in
    particular), the array holds at most [maxHistory] references after each
    call, that is, after every prefix of the sequence. *)
Theorem pushResult_history_bounded (maxHistory : Z) (assets : list loc)
    (r : Registry.t) (n : nat) :
  0 < maxHistory ->
  Z.of_nat (length (Registry.results r)) <= maxHistory ->
  Z.of_nat (length (Registry.results
                      (Registry.pushAll maxHistory (take n assets) r))) <= maxHistory.
Proof.
  intros Hpos Hr. apply pushAll_bound; [lia|done].
Qed.

Lemma pushResult_history_bounded_witness :
  Z.of_nat (length (Registry.results
     (Registry.pushAll 2 (take 3 [0; 1; 2; 3]%nat) Registry.init))) <= 2.
Proof.
  apply (pushResult_history_bounded 2 [0; 1; 2; 3]%nat Registry.init 3);
    [lia | simpl; lia].
Defined.

(** C2.  Starting from an empty history, [maxHistory + 1] calls of
    [pushResult] leave exactly the [maxHistory] references pushed last,
    newest first; the one handed to [cleanupAsset] is the first pushed.  The
    outcome is the same whatever the store holds, so no field of a record
    ([createdAt] included) takes part in the choice. *)
Theorem pushResult_evicts_first_inserted (maxHistory : Z) (h : Heap)
    (first : loc) (later : list loc) :
  0 < maxHistory ->
  Z.of_nat (length later) = maxHistory ->
  Registry.pushAll maxHistory (first :: later) (Registry.mk h [] []) =
    Registry.cleanupAsset (Some first) (Registry.mk h (rev later) [])
  /\ Registry.results
       (Registry.pushAll maxHistory (first :: later) (Registry.mk h [] [])) = rev later
  /\ forall h' : Heap,
       Registry.results
         (Registry.pushAll maxHistory (first :: later) (Registry.mk h' [] [])) =
       Registry.results
         (Registry.pushAll maxHistory (first :: later) (Registry.mk h [] [])).
Proof.
  intros Hpos Hlen.
  assert (Hmain : forall h0 : Heap,
    Registry.pushAll maxHistory (first :: later) (Registry.mk h0 [] []) =
    Registry.cleanupAsset (Some first) (Registry.mk h0 (rev later) [])).
  { intros h0.
    destruct later as [|y later0 _] using rev_ind; [simpl in Hlen; lia|].
    rewrite length_app in Hlen. simpl in Hlen.
    rewrite app_comm_cons, pushAll_app.
    rewrite (pushAll_no_overflow maxHistory (first :: later0))
      by (cbn [Registry.results length]; lia).
    cbn [Registry.heap Registry.results Registry.revoked].
    rewrite app_nil_r. simpl rev.
    unfold Registry.pushAll. simpl fold_left.
    unfold Registry.pushResult, Registry.pop.
    cbn [Registry.heap Registry.results Registry.revoked].
    destruct (Z.gtb_spec (Z.of_nat (length (y :: rev later0 ++ [first]))) maxHistory)
      as [_|Hle].
    2:{ cbn [length] in Hle. rewrite length_app, length_rev in Hle.
        cbn [length] in Hle. lia. }
    rewrite app_comm_cons, removelast_last, last_snoc.
    by rewrite rev_unit. }
  split; [apply Hmain|]. split.
  - by rewrite Hmain, cleanupAsset_results.
  - intros h'. by rewrite !Hmain, !cleanupAsset_results.
Qed.

Lemma pushResult_evicts_first_inserted_witness :
  Registry.results
    (Registry.pushAll 2 [0; 1; 2]%nat (Registry.mk [] [] [])) = [2; 1]%nat.
Proof.
  apply (pushResult_evicts_first_inserted 2 [] 0%nat [1; 2]%nat); [lia | reflexivity].
Defined.

(** C3.  When a call of [pushResult] overflows the capacity, the last
    element of the array is dropped and [URL.revokeObjectURL] is called
    exactly once, with the [url] of the dropped record; when that [url] is
    empty (a placeholder that is still pending) nothing is revoked. *)
Theorem pushResult_overflow_releases_once (maxHistory : Z) (asset evicted : loc)
    (r : Registry.t) (o : GeneratedAsset) :
  Z.of_nat (length (asset :: Registry.results r)) > maxHistory ->
  last (asset :: Registry.results r) = Some evicted ->
  Registry.heap r !! evicted = Some o ->
  Registry.results (Registry.pushResult maxHistory asset r) =
    removelast (asset :: Registry.results r)
  /\ Registry.heap (Registry.pushResult maxHistory asset r) = Registry.heap r
  /\ (Asset.url o <> "" ->
      Registry.revoked (Registry.pushResult maxHistory asset r) =
        Asset.url o :: Registry.revoked r)
  /\ (Asset.url o = "" ->
      Registry.revoked (Registry.pushResult maxHistory asset r) = Registry.revoked r).
Proof.
  intros Hover Hlast Ho.
  unfold Registry.pushResult, Registry.pop.
  cbn [Registry.heap Registry.results Registry.revoked].
  destruct (Z.gtb_spec (Z.of_nat (length (asset :: Registry.results r))) maxHistory)
    as [_|Hle]; [|lia].
  rewrite Hlast, cleanupAsset_results, cleanupAsset_heap.
  rewrite (cleanupAsset_revoked evicted o) by done.
  cbn [Registry.heap Registry.results Registry.revoked].
  repeat split.
  - intros Hurl. destruct (String.eqb_spec (Asset.url o) ""); [done|done].
  - intros Hurl. by rewrite Hurl.
Qed.

Lemma pushResult_overflow_releases_once_witness :
  Registry.revoked
    (Registry.pushResult 1 1%nat
       (Registry.mk [Asset.mk "a" video "blob:a" "video/mp4" "n" "d" 10 "10 B" 0
                              (Some ready) (Some 1) (Some "h");
                     Asset.mk "b" video "" "video/mp4" "n" "d" 0 "" 1
                              (Some pending) (Some 0) None]
                    [0%nat] [])) = ["blob:a"].
Proof.
  pose proof (pushResult_overflow_releases_once 1 1%nat 0%nat
    (Registry.mk [Asset.mk "a" video "blob:a" "video/mp4" "n" "d" 10 "10 B" 0
                           (Some ready) (Some 1) (Some "h");
                  Asset.mk "b" video "" "video/mp4" "n" "d" 0 "" 1
                           (Some pending) (Some 0) None]
                 [0%nat] [])
    (Asset.mk "a" video "blob:a" "video/mp4" "n" "d" 10 "10 B" 0
              (Some ready) (Some 1) (Some "h"))
    ltac:(simpl; lia) eq_refl eq_refl) as (_ & _ & Hrev & _).
  apply Hrev. discriminate.
Defined.

(** ** Explicit deletion in the video generator *)

Section RemoveFacts.

Import Registry.

Lemma find_first {A} (f : A -> bool) (before after : list A) (x : A) :
  (forall y, In y before -> f y = false) -> f x = true ->
  List.find f (before ++ x :: after) = Some x.
Proof.
  intros Hb Hx. induction before as [|b before IH]; simpl.
  - by rewrite Hx.
  - rewrite (Hb b) by (by left). apply IH. intros y Hy. apply Hb. by right.
Qed.

Lemma filter_all {A} (f : A -> bool) (l : list A) :
  (forall y, In y l -> f y = true) -> List.filter f l = l.
Proof.
  intros Hl. induction l as [|a l IH]; [done|]. simpl.
  rewrite (Hl a) by (by left). f_equal. apply IH. intros y Hy. apply Hl. by right.
Qed.

Lemma records_app h l1 l2 rv :
  records (mk h (l1 ++ l2) rv) = records (mk h l1 rv) ++ records (mk h l2 rv).
Proof. unfold records. cbn [heap results]. apply omap_app. Qed.

Lemma elem_of_records h l rv p o :
  In p l -> h !! p = Some o -> In o (records (mk h l rv)).
Proof.
  intros Hin Hp. unfold records. cbn [heap results].
  apply list_elem_of_In, list_elem_of_omap. exists p.
  split; [by apply list_elem_of_In|done].
Qed.

(** With unique ids, the records around [p] carry other ids than [p]'s. *)
Lemma unique_ids_split h before after p o rv :
  NoDup (map Asset.id (records (mk h (before ++ p :: after) rv))) ->
  h !! p = Some o ->
  (forall q, In q before -> hasId h (Asset.id o) q = false)
  /\ (forall q, In q after -> hasId h (Asset.id o) q = false).
Proof.
  intros Hnd Hp.
  rewrite records_app, map_app in Hnd.
  change (p :: after) with ([p] ++ after) in Hnd.
  rewrite records_app, map_app in Hnd.
  assert (Hsingle : records (mk h [p] rv) = [o]).
  { unfold records. cbn [heap results]. simpl. by rewrite Hp. }
  rewrite Hsingle in Hnd. simpl in Hnd.
  apply NoDup_app in Hnd as (_ & Hdisj & Hnd).
  apply NoDup_cons in Hnd as (Hnotin & _).
  split; intros q Hq; unfold hasId; destruct (h !! q) as [o'|] eqn:Hq'; try done;
    destruct (String.eqb_spec (Asset.id o') (Asset.id o)) as [Heq|]; try done;
    exfalso.
  - apply (Hdisj (Asset.id o)); [|by left].
    rewrite <- Heq. apply list_elem_of_In, in_map, (elem_of_records h before rv q); done.
  - apply Hnotin. rewrite <- Heq.
    apply list_elem_of_In, in_map, (elem_of_records h after rv q); done.
Qed.

End RemoveFacts.

(** C4.  In a history whose ids are unique, [removeAsset] called with the id
    of a record that is present and pending returns early: the component
    state is left exactly as it was (no record removed, nothing revoked, no
    toast emitted). *)
Theorem removeAsset_pending_refused (before after : list loc) (p : loc)
    (o : GeneratedAsset) (st : VideoGenerator.State) :
  NoDup (map Asset.id (Registry.records (VideoGenerator.reg st))) ->
  Registry.results (VideoGenerator.reg st) = before ++ p :: after ->
  Registry.heap (VideoGenerator.reg st) !! p = Some o ->
  Asset.status o = Some pending ->
  VideoGenerator.removeAsset (Asset.id o) st = st.
Proof.
  intros Hnd Hres Hp Hst.
  destruct st as [[h l rv] gen runs em].
  cbn [VideoGenerator.reg Registry.results Registry.heap] in *. subst l.
  destruct (unique_ids_split h before after p o rv Hnd Hp) as [Hb _].
  unfold VideoGenerator.removeAsset, Registry.find.
  cbn [VideoGenerator.reg Registry.results Registry.heap].
  rewrite (find_first _ before after p Hb).
  2:{ unfold Registry.hasId. rewrite Hp. apply String.eqb_refl. }
  rewrite Hp. by rewrite bool_decide_eq_true_2.
Qed.

Lemma removeAsset_pending_refused_witness :
  VideoGenerator.removeAsset "b"
    (VideoGenerator.mk
       (Registry.mk [Asset.mk "a" video "blob:a" "video/mp4" "n" "d" 10 "10 B" 0
                              (Some ready) (Some 1) (Some "h");
                     Asset.mk "b" video "" "video/mp4" "n" "d" 0 "" 1
                              (Some pending) (Some 0) None]
                    [1; 0]%nat [])
       true [(1%nat, VideoGenerator.Loading)] []) =
  VideoGenerator.mk
       (Registry.mk [Asset.mk "a" video "blob:a" "video/mp4" "n" "d" 10 "10 B" 0
                              (Some ready) (Some 1) (Some "h");
                     Asset.mk "b" video "" "video/mp4" "n" "d" 0 "" 1
                              (Some pending) (Some 0) None]
                    [1; 0]%nat [])
       true [(1%nat, VideoGenerator.Loading)] [].
Proof.
  apply (removeAsset_pending_refused [] [0%nat] 1%nat
           (Asset.mk "b" video "" "video/mp4" "n" "d" 0 "" 1
                     (Some pending) (Some 0) None)).
  - apply (bool_decide_unpack _). reflexivity.
  - reflexivity.
  - reflexivity.
  - reflexivity.
Defined.

(** C5.  In a history whose ids are unique, [removeAsset] called with the id
    of a record that is present and [ready] or [error] removes exactly that
    reference (the others keep their order), revokes its [url] unless it is
    empty (as it is for an [error] record), leaves every object untouched and
    reports the deletion. *)
Theorem removeAsset_settled_removed (before after : list loc) (p : loc)
    (o : GeneratedAsset) (st : VideoGenerator.State) :
  NoDup (map Asset.id (Registry.records (VideoGenerator.reg st))) ->
  Registry.results (VideoGenerator.reg st) = before ++ p :: after ->
  Registry.heap (VideoGenerator.reg st) !! p = Some o ->
  Asset.status o = Some ready \/ Asset.status o = Some error ->
  VideoGenerator.removeAsset (Asset.id o) st =
    VideoGenerator.mk
      (Registry.mk (Registry.heap (VideoGenerator.reg st))
                   (before ++ after)
                   (if String.eqb (Asset.url o) ""
                    then Registry.revoked (VideoGenerator.reg st)
                    else Asset.url o :: Registry.revoked (VideoGenerator.reg st)))
      (VideoGenerator.isVideoGenerating st) (VideoGenerator.running st)
      (Toast toast_success "已删除视频资源" :: VideoGenerator.emitted st).
Proof.
  intros Hnd Hres Hp Hst.
  destruct st as [[h l rv] gen runs em].
  cbn [VideoGenerator.reg VideoGenerator.isVideoGenerating VideoGenerator.running
       VideoGenerator.emitted Registry.results Registry.heap Registry.revoked] in *.
  subst l.
  destruct (unique_ids_split h before after p o rv Hnd Hp) as [Hb Ha].
  assert (Hself : Registry.hasId h (Asset.id o) p = true).
  { unfold Registry.hasId. rewrite Hp. apply String.eqb_refl. }
  unfold VideoGenerator.removeAsset, Registry.find.
  cbn [VideoGenerator.reg Registry.results Registry.heap].
  rewrite (find_first _ before after p Hb Hself), Hp.
  rewrite bool_decide_eq_false_2 by (destruct Hst as [-> | ->]; discriminate).
  unfold Registry.filter_out.
  rewrite cleanupAsset_heap, cleanupAsset_results.
  rewrite (cleanupAsset_revoked p o) by done.
  cbn [Registry.results Registry.heap Registry.revoked].
  rewrite List.filter_app. simpl List.filter. rewrite Hself. simpl negb. cbv iota.
  rewrite !filter_all; [done| |].
  - intros q Hq. by rewrite (Ha q Hq).
  - intros q Hq. by rewrite (Hb q Hq).
Qed.

Lemma removeAsset_settled_removed_witness :
  VideoGenerator.removeAsset "a"
    (VideoGenerator.mk
       (Registry.mk [Asset.mk "a" video "blob:a" "video/mp4" "n" "d" 10 "10 B" 0
                              (Some ready) (Some 1) (Some "h");
                     Asset.mk "b" video "" "video/mp4" "n" "d" 0 "" 1
                              (Some pending) (Some 0) None]
                    [1; 0]%nat [])
       true [(1%nat, VideoGenerator.Loading)] []) =
  VideoGenerator.mk
       (Registry.mk [Asset.mk "a" video "blob:a" "video/mp4" "n" "d" 10 "10 B" 0
                              (Some ready) (Some 1) (Some "h");
                     Asset.mk "b" video "" "video/mp4" "n" "d" 0 "" 1
                              (Some pending) (Some 0) None]
                    [1%nat] ["blob:a"])
       true [(1%nat, VideoGenerator.Loading)]
       [Toast toast_success "已删除视频资源"].
Proof.
  apply (removeAsset_settled_removed [1%nat] [] 0%nat
           (Asset.mk "a" video "blob:a" "video/mp4" "n" "d" 10 "10 B" 0
                     (Some ready) (Some 1) (Some "h"))).
  - apply (bool_decide_unpack _). reflexivity.
  - reflexivity.
  - reflexivity.
  - left. reflexivity.
Defined.

(** ** The video generator as a state machine *)

Section VideoFacts.

Import VideoGenerator.

Variable maxHistory : Z.
Variable formatBytes : Z -> string.
Variable placeholderName placeholderDetail : VideoConfig -> string.

Local Abbreviation step :=
  (VideoGenerator.step maxHistory formatBytes placeholderName placeholderDetail).
Local Abbreviation run :=
  (VideoGenerator.run maxHistory formatBytes placeholderName placeholderDetail).

Lemma phaseOf_single p0 ph0 p (st : State) :
  running st = [(p0, ph0)] ->
  phaseOf p st = if decide (p0 = p) then Some ph0 else None.
Proof.
  intros Hr. unfold phaseOf. rewrite Hr. simpl.
  destruct (Nat.eqb_spec p0 p); by case_decide.
Qed.

(** Under the invariant a phase names the one suspended invocation. *)
Lemma phaseOf_consistent p ph (st : State) :
  consistent st -> phaseOf p st = Some ph ->
  running st = [(p, ph)] /\ isVideoGenerating st = true
  /\ exists o, Registry.heap (reg st) !! p = Some o
       /\ Asset.status o = Some (if decide (ph = Cleaning) then ready else pending).
Proof.
  intros Hc Hph.
  destruct (c_running st Hc) as [[Hr _]|(p0 & ph0 & o & Hr & Hgen & Ho & Hst)].
  - unfold phaseOf in Hph. by rewrite Hr in Hph.
  - rewrite (phaseOf_single p0 ph0) in Hph by done.
    destruct (decide (p0 = p)); [|done]. simplify_eq. eauto 6.
Qed.

Lemma awaiting_running q p ph (st : State) :
  awaiting st q -> running st = [(p, ph)] -> q = p /\ ph <> Cleaning.
Proof. intros (ph' & Hr & Hne) Hr'. rewrite Hr in Hr'. by simplify_eq. Qed.

(** Changes that touch neither the objects nor the suspended invocation
    and only drop references from the array. *)
Lemma consistent_frame (st st' : State) :
  consistent st ->
  Registry.heap (reg st') = Registry.heap (reg st) ->
  running st' = running st ->
  isVideoGenerating st' = isVideoGenerating st ->
  NoDup (Registry.results (reg st')) ->
  (forall q, In q (Registry.results (reg st')) -> In q (Registry.results (reg st))) ->
  consistent st'.
Proof.
  intros [Hrun Hpend Hstat Hnd Hval] Hh Hr Hg Hnd' Hsub.
  split; rewrite ?Hh, ?Hr, ?Hg; try done.
  - intros q o Hq Hp. destruct (Hpend q o Hq Hp) as (ph & ? & ?).
    exists ph. by rewrite Hr.
  - intros q Hq. apply Hval, Hsub, Hq.
Qed.

Lemma consistent_emit e (st : State) : consistent st -> consistent (emit e st).
Proof. intros Hc. apply (consistent_frame st); try done. apply Hc. Qed.

Lemma consistent_init : consistent init.
Proof.
  split; simpl.
  - by left.
  - intros q o Hq. by destruct q.
  - intros q o Hq. by destruct q.
  - constructor.
  - by intros q [].
Qed.

(** The continuation of the suspended invocation writes its outcome to
    its placeholder, or ends. *)
Lemma consistent_settle (st st' : State) p ph o' :
  consistent st -> running st = [(p, ph)] ->
  (forall q, q <> p -> Registry.heap (reg st') !! q = Registry.heap (reg st) !! q) ->
  Registry.heap (reg st') !! p = Some o' ->
  length (Registry.heap (reg st')) = length (Registry.heap (reg st)) ->
  Registry.results (reg st') = Registry.results (reg st) ->
  (Asset.status o' = Some ready
   \/ (Asset.status o' = Some error /\ Asset.url o' = "")) ->
  ((running st' = [(p, Cleaning)] /\ isVideoGenerating st' = true
    /\ Asset.status o' = Some ready)
   \/ (running st' = [] /\ isVideoGenerating st' = false)) ->
  consistent st'.
Proof.
  intros [Hrun Hpend Hstat Hnd Hval] Hr Hother Hp' Hlen Hres Ho' Hr'.
  assert (Hnotpending : forall q o1,
            Registry.heap (reg st') !! q = Some o1 ->
            Asset.status o1 = Some pending -> False).
  { intros q o1 Hq Hpd. destruct (decide (q = p)) as [->|Hne].
    - rewrite Hp' in Hq. simplify_eq. destruct Ho' as [?|[? _]]; congruence.
    - rewrite Hother in Hq by done.
      destruct (awaiting_running q p ph st (Hpend q o1 Hq Hpd) Hr); done. }
  split.
  - destruct Hr' as [(Hr' & Hg' & Hrd)|[Hr' Hg']]; [right|by left].
    exists p, Cleaning, o'. by rewrite decide_True.
  - intros q o1 Hq Hpd. destruct (Hnotpending q o1 Hq Hpd).
  - intros q o1 Hq. destruct (decide (q = p)) as [->|Hne].
    + rewrite Hp' in Hq. simplify_eq.
      destruct Ho' as [Hrd|[Her Hurl]]; split; auto; congruence.
    + rewrite Hother in Hq by done. by apply (Hstat q).
  - by rewrite Hres.
  - intros q Hq. rewrite Hlen. apply Hval. by rewrite <- Hres.
Qed.

Lemma removelast_In {A} (x : A) (l : list A) :
  In x (removelast l) -> In x l.
Proof.
  rewrite removelast_firstn_len. intros Hin.
  apply list_elem_of_In.
  eapply elem_of_sublist; [by apply list_elem_of_In|apply sublist_take].
Qed.

Lemma removelast_NoDup {A} (l : list A) : NoDup l -> NoDup (removelast l).
Proof.
  rewrite removelast_firstn_len. intros Hnd.
  eapply sublist_NoDup; [done|apply sublist_take].
Qed.

Lemma consistent_generateVideo cfg newId now (st : State) :
  consistent st ->
  consistent (generateVideo maxHistory placeholderName placeholderDetail
                cfg newId now st).
Proof.
  intros Hc. unfold generateVideo.
  destruct (invalidConfig cfg); [by apply consistent_emit|].
  destruct (isVideoGenerating st) eqn:Hgen; [done|].
  destruct Hc as [Hrun Hpend Hstat Hnd Hval].
  destruct Hrun as [[Hr _]|(? & ? & ? & _ & Hg & _)]; [|congruence].
  unfold alloc. rewrite Hr. cbn [app].
  set (h := Registry.heap (reg st)) in *.
  set (pl := Asset.mk newId video "" "video/mp4" (placeholderName cfg)
                      (placeholderDetail cfg) 0 "生成中" now (Some pending)
                      (Some 0) None).
  set (r0 := Registry.mk (h ++ [pl]) (Registry.results (reg st))
                         (Registry.revoked (reg st))).
  assert (Hin : forall q, In q (Registry.results (Registry.pushResult maxHistory (length h) r0)) ->
                          q = length h \/ In q (Registry.results (reg st))).
  { intros q. rewrite pushResult_results. cbn [r0 Registry.results].
    destruct (_ >? _); [intros Hq%removelast_In|intros Hq]; destruct Hq; auto. }
  assert (Hfresh : ~ In (length h) (Registry.results (reg st))).
  { intros Hq%Hval. lia. }
  split; cbn [reg isVideoGenerating running]; rewrite ?pushResult_heap;
    cbn [r0 Registry.heap].
  - right. exists (length h), Loading, pl. split_and!; try done.
    by apply list_lookup_middle.
  - intros q o Hq Hpd. apply lookup_snoc_Some in Hq as [[_ Hq]|[-> _]].
    + destruct (Hpend q o Hq Hpd) as (ph & Hr' & _). congruence.
    + by exists Loading.
  - intros q o Hq. apply lookup_snoc_Some in Hq as [[_ Hq]|[-> <-]].
    + by apply (Hstat q).
    + split; [by left|done].
  - rewrite pushResult_results. cbn [r0 Registry.results].
    assert (NoDup (length h :: Registry.results (reg st))).
    { apply NoDup_cons. split; [|done]. by rewrite list_elem_of_In. }
    destruct (_ >? _); [by apply removelast_NoDup|done].
  - intros q Hq. rewrite length_app. cbn [length].
    destruct (Hin q Hq) as [->|Hq']; [lia|]. apply Hval in Hq'. lia.
Qed.

Lemma consistent_ffmpegLoaded p (st : State) :
  consistent st -> consistent (ffmpegLoaded p st).
Proof.
  intros Hc. unfold ffmpegLoaded.
  destruct (phaseOf p st) as [[| |]|] eqn:Hph; try done.
  destruct (phaseOf_consistent p _ st Hc Hph) as (Hr & Hg & o & Ho & Hst).
  destruct Hc as [_ Hpend Hstat Hnd Hval].
  split; cbn [reg isVideoGenerating running]; try done.
  - right. exists p, Encoding, o. rewrite Hr. simpl. by rewrite Nat.eqb_refl.
  - intros q o1 Hq Hpd.
    destruct (awaiting_running q p _ st (Hpend q o1 Hq Hpd) Hr) as [-> _].
    exists Encoding. rewrite Hr. simpl. by rewrite Nat.eqb_refl.
Qed.

Lemma consistent_handleProgress p time (st : State) :
  consistent st -> consistent (handleProgress p time st).
Proof.
  intros Hc. unfold handleProgress.
  destruct (phaseOf p st) as [[| |]|]; try done; by apply consistent_emit.
Qed.

Lemma encoded_heap p uuid blobSize md5 elapsed (st : State) q :
  phaseOf p st = Some Encoding ->
  Registry.heap (reg (encoded formatBytes p uuid blobSize md5 elapsed st)) !! q =
    if decide (q = p)
    then encodedObject formatBytes uuid blobSize md5 <$> Registry.heap (reg st) !! p
    else Registry.heap (reg st) !! q.
Proof.
  intros Hph. unfold encoded. rewrite Hph.
  cbn [reg emit writeObj Registry.heap]. unfold write.
  destruct (decide (q = p)) as [->|Hne].
  - rewrite !list_lookup_alter_eq. by destruct (_ !! p).
  - by rewrite !list_lookup_alter_ne.
Qed.

Lemma failed_heap p err (st : State) q :
  phaseOf p st = Some Loading \/ phaseOf p st = Some Encoding ->
  Registry.heap (reg (failed p err st)) !! q =
    if decide (q = p)
    then failedObject err <$> Registry.heap (reg st) !! p
    else Registry.heap (reg st) !! q.
Proof.
  intros Hph. unfold failed.
  assert (Hgoal : Registry.heap (reg (finally p
     (emit (Toast toast_error (default "视频生成失败" err))
        (writeObj p (Asset.set_detail (default "视频生成失败" err))
           (writeObj p (Asset.set_sizeLabel "生成失败")
              (writeObj p (Asset.set_status error)
                 (emit (Status (default "视频生成失败" err)) st))))))) !! q =
    if decide (q = p)
    then failedObject err <$> Registry.heap (reg st) !! p
    else Registry.heap (reg st) !! q).
  { cbn [reg emit writeObj finally Registry.heap]. unfold write.
    destruct (decide (q = p)) as [->|Hne].
    - rewrite !list_lookup_alter_eq. by destruct (_ !! p).
    - by rewrite !list_lookup_alter_ne. }
  by destruct Hph as [-> | ->].
Qed.

Lemma consistent_encoded p uuid blobSize md5 elapsed (st : State) :
  consistent st ->
  consistent (encoded formatBytes p uuid blobSize md5 elapsed st).
Proof.
  intros Hc.
  destruct (phaseOf p st) as [ph|] eqn:Hph.
  2:{ unfold encoded. by rewrite Hph. }
  destruct (decide (ph = Encoding)) as [->|Hne].
  2:{ unfold encoded. rewrite Hph. by destruct ph. }
  destruct (phaseOf_consistent p _ st Hc Hph) as (Hr & Hg & o & Ho & Hst).
  apply (consistent_settle st _ p Encoding
           (encodedObject formatBytes uuid blobSize md5 o)); try done.
  - intros q Hq. rewrite encoded_heap by done. by rewrite decide_False.
  - rewrite encoded_heap by done. by rewrite decide_True, Ho.
  - unfold encoded. rewrite Hph.
    cbn [reg emit writeObj Registry.heap]. unfold write.
    by rewrite !length_alter.
  - unfold encoded. by rewrite Hph.
  - by left.
  - left. unfold encoded. rewrite Hph.
    cbn [reg emit writeObj running isVideoGenerating]. rewrite Hr. simpl.
    by rewrite Nat.eqb_refl.
Qed.

Lemma consistent_failed p err (st : State) :
  consistent st -> consistent (failed p err st).
Proof.
  intros Hc.
  destruct (phaseOf p st) as [ph|] eqn:Hph.
  2:{ unfold failed. by rewrite Hph. }
  destruct (decide (ph = Cleaning)) as [->|Hne].
  { unfold failed. by rewrite Hph. }
  assert (Hph' : phaseOf p st = Some Loading \/ phaseOf p st = Some Encoding).
  { rewrite Hph. destruct ph; auto. done. }
  destruct (phaseOf_consistent p _ st Hc Hph) as (Hr & Hg & o & Ho & Hst).
  rewrite decide_False in Hst by done.
  assert (Hurl : Asset.url o = "").
  { apply (c_status st Hc p o Ho). congruence. }
  apply (consistent_settle st _ p ph (failedObject err o)); try done.
  - intros q Hq. rewrite failed_heap by done. by rewrite decide_False.
  - rewrite failed_heap by done. by rewrite decide_True, Ho.
  - unfold failed.
    destruct Hph' as [-> | ->];
      cbn [reg emit writeObj finally Registry.heap]; unfold write;
      by rewrite !length_alter.
  - unfold failed. by destruct Hph' as [-> | ->].
  - by right.
  - right. unfold failed.
    destruct Hph' as [-> | ->];
      cbn [reg emit writeObj finally running isVideoGenerating];
      rewrite Hr; simpl; by rewrite Nat.eqb_refl.
Qed.

Lemma consistent_deleted p (st : State) :
  consistent st -> consistent (deleted p st).
Proof.
  intros Hc. unfold deleted.
  destruct (phaseOf p st) as [[| |]|] eqn:Hph; try done.
  destruct (phaseOf_consistent p _ st Hc Hph) as (Hr & Hg & o & Ho & Hst).
  rewrite decide_True in Hst by done.
  apply (consistent_settle st _ p Cleaning o); try done.
  - by left.
  - right. cbn [finally running isVideoGenerating]. rewrite Hr. simpl.
    by rewrite Nat.eqb_refl.
Qed.

Lemma consistent_removeAsset assetId (st : State) :
  consistent st -> consistent (removeAsset assetId st).
Proof.
  intros Hc. unfold removeAsset.
  destruct (Registry.find assetId (reg st)) as [p|]; [|done].
  destruct (Registry.heap (reg st) !! p) as [o|]; [|done].
  case_bool_decide; [done|].
  apply (consistent_frame st); cbn [reg isVideoGenerating running Registry.heap
                                    Registry.results]; try done.
  - apply cleanupAsset_heap.
  - unfold Registry.filter_out. rewrite cleanupAsset_results.
    apply NoDup_ListNoDup, List.NoDup_filter, NoDup_ListNoDup, Hc.
  - intros q. unfold Registry.filter_out. rewrite cleanupAsset_results.
    intros Hq%filter_In. tauto.
Qed.

Lemma consistent_step e (st : State) : consistent st -> consistent (step st e).
Proof.
  intros Hc. destruct e; simpl.
  - by apply consistent_generateVideo.
  - by apply consistent_ffmpegLoaded.
  - by apply consistent_handleProgress.
  - by apply consistent_encoded.
  - by apply consistent_failed.
  - by apply consistent_deleted.
  - by apply consistent_removeAsset.
Qed.

Lemma consistent_run evs (st : State) : consistent st -> consistent (run evs st).
Proof.
  revert st. induction evs as [|e evs IH]; intros st Hc; [done|].
  simpl. apply IH. by apply consistent_step.
Qed.

Lemma reachable_consistent evs : consistent (run evs init).
Proof. apply consistent_run, consistent_init. Qed.

(** What one step does to an object: nothing, or the one write of its
    outcome by the continuation of the invocation that created it. *)
Lemma step_effect e (st : State) q o :
  consistent st -> Registry.heap (reg st) !! q = Some o ->
  exists o', Registry.heap (reg (step st e)) !! q = Some o'
    /\ (o' = o
        \/ (producer e = Some q /\ awaiting st q /\ ~ awaiting (step st e) q
            /\ Asset.status o = Some pending
            /\ (Asset.status o' = Some ready
                \/ (Asset.status o' = Some error /\ Asset.url o' = "")))).
Proof.
  intros Hc Hq. destruct e as [cfg newId now|p|p time|p uuid blobSize md5 elapsed
                               |p err|p|assetId]; cbn [step].
  - exists o. split; [|by left]. unfold generateVideo.
    destruct (invalidConfig cfg); [done|].
    destruct (isVideoGenerating st); [done|].
    unfold alloc. cbn [reg]. rewrite pushResult_heap. cbn [Registry.heap].
    rewrite lookup_app_l; [done|by eapply lookup_lt_Some].
  - exists o. split; [|by left]. unfold ffmpegLoaded.
    by destruct (phaseOf p st) as [[| |]|].
  - exists o. split; [|by left]. unfold handleProgress.
    by destruct (phaseOf p st) as [[| |]|].
  - destruct (phaseOf p st) as [ph|] eqn:Hph.
    2:{ exists o. unfold encoded. rewrite Hph. auto. }
    destruct (decide (ph = Encoding)) as [->|Hne].
    2:{ exists o. unfold encoded. rewrite Hph. by destruct ph; auto. }
    destruct (phaseOf_consistent p _ st Hc Hph) as (Hr & Hg & o0 & Ho & Hst).
    rewrite encoded_heap by done.
    destruct (decide (q = p)) as [->|Hqp]; [|eauto].
    rewrite Ho in Hq. simplify_eq. rewrite Ho. simpl.
    eexists. split; [done|right]. split_and!; try done.
    + by exists Encoding.
    + intros (ph & Hr' & Hne). unfold encoded in Hr'. rewrite Hph in Hr'.
      cbn [reg emit writeObj running] in Hr'. rewrite Hr in Hr'. simpl in Hr'.
      rewrite Nat.eqb_refl in Hr'. by simplify_eq.
    + by left.
  - destruct (phaseOf p st) as [ph|] eqn:Hph.
    2:{ exists o. unfold failed. rewrite Hph. auto. }
    destruct (decide (ph = Cleaning)) as [->|Hne].
    { exists o. unfold failed. rewrite Hph. auto. }
    assert (Hph' : phaseOf p st = Some Loading \/ phaseOf p st = Some Encoding).
    { rewrite Hph. destruct ph; auto. done. }
    destruct (phaseOf_consistent p _ st Hc Hph) as (Hr & Hg & o0 & Ho & Hst).
    rewrite decide_False in Hst by done.
    rewrite failed_heap by done.
    destruct (decide (q = p)) as [->|Hqp]; [|eauto].
    rewrite Ho in Hq. simplify_eq. rewrite Ho. simpl.
    eexists. split; [done|right]. split_and!; try done.
    + by exists ph.
    + intros (ph' & Hr' & _). unfold failed in Hr'.
      destruct Hph' as [Hph'|Hph']; rewrite Hph' in Hr';
        cbn [reg emit writeObj finally running] in Hr'; rewrite Hr in Hr';
        simpl in Hr'; by rewrite Nat.eqb_refl in Hr'.
    + right. split; [done|]. apply (c_status st Hc p o Ho). congruence.
  - exists o. split; [|by left]. unfold deleted.
    by destruct (phaseOf p st) as [[| |]|].
  - exists o. split; [|by left]. unfold removeAsset.
    destruct (Registry.find assetId (reg st)) as [p|]; [|done].
    destruct (Registry.heap (reg st) !! p) as [o1|]; [|done].
    case_bool_decide; [done|].
    cbn [reg Registry.heap]. by rewrite cleanupAsset_heap.
Qed.

(** Two array positions that hold pending records are the same position. *)
Lemma pending_unique (st : State) i j qi qj oi oj :
  consistent st ->
  Registry.results (reg st) !! i = Some qi ->
  Registry.results (reg st) !! j = Some qj ->
  Registry.heap (reg st) !! qi = Some oi ->
  Registry.heap (reg st) !! qj = Some oj ->
  Asset.status oi = Some pending -> Asset.status oj = Some pending ->
  i = j.
Proof.
  intros Hc Hi Hj Hqi Hqj Hpi Hpj.
  destruct (c_pending st Hc qi oi Hqi Hpi) as (ph & Hr & _).
  destruct (awaiting_running qj qi ph st (c_pending st Hc qj oj Hqj Hpj) Hr) as [-> _].
  by eapply NoDup_lookup; [apply (c_nodup st Hc)| |].
Qed.

(** The first request on a fresh component. *)
Lemma generateVideo_init newId now :
  let st1 := generateVideo maxHistory placeholderName placeholderDetail
               videoConfig newId now init in
  Registry.heap (reg st1) =
    [Asset.mk newId video "" "video/mp4" (placeholderName videoConfig)
              (placeholderDetail videoConfig) 0 "生成中" now (Some pending)
              (Some 0) None]
  /\ running st1 = [(0%nat, Loading)].
Proof.
  unfold generateVideo. change (invalidConfig videoConfig) with false.
  cbn [init isVideoGenerating reg running alloc Registry.init Registry.heap
       Registry.results Registry.revoked app length].
  by rewrite pushResult_heap.
Qed.

(** C6.  Along every run of the component, one step leaves the status of
    an object as it is or takes it from [pending] to [ready] or from
    [pending] to [error]; so [ready] and [error] are never left.  Both
    moves occur, and a record in [error] has an empty [url]. *)
Theorem status_transitions :
  (forall evs e q o,
      Registry.heap (reg (run evs init)) !! q = Some o ->
      (Asset.status o = Some error -> Asset.url o = "")
      /\ exists o', Registry.heap (reg (step (run evs init) e)) !! q = Some o'
           /\ (Asset.status o' = Asset.status o
               \/ (Asset.status o = Some pending /\ Asset.status o' = Some ready)
               \/ (Asset.status o = Some pending /\ Asset.status o' = Some error
                   /\ Asset.url o' = "")))
  /\ (exists evs e q o o',
        Registry.heap (reg (run evs init)) !! q = Some o
        /\ Registry.heap (reg (step (run evs init) e)) !! q = Some o'
        /\ Asset.status o = Some pending /\ Asset.status o' = Some ready)
  /\ (exists evs e q o o',
        Registry.heap (reg (run evs init)) !! q = Some o
        /\ Registry.heap (reg (step (run evs init) e)) !! q = Some o'
        /\ Asset.status o = Some pending /\ Asset.status o' = Some error).
Proof.
  split_and!.
  - intros evs e q o Hq.
    pose proof (reachable_consistent evs) as Hc. split.
    + intros Her. apply (c_status _ Hc q o Hq). congruence.
    + destruct (step_effect e _ q o Hc Hq)
        as (o' & Hq' & [Heq|(_ & _ & _ & Hpd & [Hrd|[Her Hurl]])]);
        exists o'; (split; [done|]); [left; by rewrite Heq|auto..].
  - destruct (generateVideo_init "id" 0) as [Hh Hr].
    exists [GenerateVideo videoConfig "id" 0; FFmpegLoaded 0],
           (Encoded 0 "uuid" 1 "md5" "0.1"), 0%nat.
    eexists. eexists. cbn [VideoGenerator.run fold_left VideoGenerator.step].
    set (st1 := generateVideo _ _ _ _ _ _ _) in *.
    assert (Hph : phaseOf 0 (ffmpegLoaded 0 st1) = Some Encoding).
    { unfold ffmpegLoaded. rewrite (phaseOf_single 0 Loading 0 st1 Hr).
      rewrite decide_True by done.
      rewrite (phaseOf_single 0 Encoding 0); [done|].
      cbn [running]. by rewrite Hr. }
    assert (Hh2 : Registry.heap (reg (ffmpegLoaded 0 st1)) = Registry.heap (reg st1)).
    { unfold ffmpegLoaded. by destruct (phaseOf 0 st1) as [[| |]|]. }
    rewrite encoded_heap by done. rewrite decide_True by done.
    rewrite Hh2, Hh. simpl. done.
  - destruct (generateVideo_init "id" 0) as [Hh Hr].
    exists [GenerateVideo videoConfig "id" 0], (Failed 0 None), 0%nat.
    eexists. eexists. cbn [VideoGenerator.run fold_left VideoGenerator.step].
    set (st1 := generateVideo _ _ _ _ _ _ _) in *.
    assert (Hph : phaseOf 0 st1 = Some Loading).
    { by rewrite (phaseOf_single 0 Loading 0 st1 Hr). }
    rewrite failed_heap by auto. rewrite decide_True by done.
    rewrite Hh. simpl. done.
Qed.

(** C7 as amended.  In every state the component can reach, two array
    positions that hold pending records are one and the same position, so
    at most one record is pending at a time; and whenever a step changes
    the status of an object, the step is the continuation of the
    invocation that created it, that invocation was the one suspended
    and is no longer awaited afterwards, and the object goes from
    [pending] to a status it keeps.  A pending object means that
    [isVideoGenerating] is set, and while it is set [generateVideo] leaves
    the array and the objects alone. *)
Theorem one_pending_written_once (evs : list Event) :
  (forall i j qi qj oi oj,
      Registry.results (reg (run evs init)) !! i = Some qi ->
      Registry.results (reg (run evs init)) !! j = Some qj ->
      Registry.heap (reg (run evs init)) !! qi = Some oi ->
      Registry.heap (reg (run evs init)) !! qj = Some oj ->
      Asset.status oi = Some pending -> Asset.status oj = Some pending ->
      i = j)
  /\ (forall e q o o',
        Registry.heap (reg (run evs init)) !! q = Some o ->
        Registry.heap (reg (step (run evs init) e)) !! q = Some o' ->
        Asset.status o' <> Asset.status o ->
        producer e = Some q
        /\ awaiting (run evs init) q /\ ~ awaiting (step (run evs init) e) q
        /\ Asset.status o = Some pending
        /\ (Asset.status o' = Some ready \/ Asset.status o' = Some error))
  /\ (forall q o,
        Registry.heap (reg (run evs init)) !! q = Some o ->
        Asset.status o = Some pending -> isVideoGenerating (run evs init) = true)
  /\ (isVideoGenerating (run evs init) = true ->
      forall cfg newId now,
        reg (generateVideo maxHistory placeholderName placeholderDetail
               cfg newId now (run evs init)) = reg (run evs init)).
Proof.
  pose proof (reachable_consistent evs) as Hc. split_and!.
  - intros i j qi qj oi oj. by apply pending_unique.
  - intros e q o o' Hq Hq' Hne.
    destruct (step_effect e _ q o Hc Hq)
      as (o1 & Hq1 & [->|(Hprod & Haw & Hnaw & Hpd & Hst)]);
      rewrite Hq' in Hq1; simplify_eq.
    split_and!; try done. destruct Hst as [?|[? _]]; auto.
  - intros q o Hq Hpd.
    destruct (c_pending _ Hc q o Hq Hpd) as (ph & Hr & _).
    destruct (c_running _ Hc) as [[Hr' _]|(? & ? & ? & _ & Hg & _)]; [congruence|done].
  - intros Hg cfg newId now. unfold generateVideo.
    destruct (invalidConfig cfg); [done|]. by rewrite Hg.
Qed.

End VideoFacts.

Lemma status_transitions_witness :
  exists o',
    Registry.heap (VideoGenerator.reg
      (Sample.videoStep 20
         (Sample.videoRun 20
            [VideoGenerator.GenerateVideo VideoGenerator.videoConfig "a" 0;
             VideoGenerator.Failed 0 (Some "load failed")] VideoGenerator.init)
         (VideoGenerator.Encoded 0 "u" 1 "h" "0.1"))) !! 0%nat = Some o'
    /\ (Asset.status o' = Some error
        \/ (Some error = Some pending /\ Asset.status o' = Some ready)
        \/ (Some error = Some pending /\ Asset.status o' = Some error
            /\ Asset.url o' = "")).
Proof.
  apply (proj1 (status_transitions 20 Sample.label Sample.videoName Sample.videoDetail)
           [VideoGenerator.GenerateVideo VideoGenerator.videoConfig "a" 0;
            VideoGenerator.Failed 0 (Some "load failed")]
           (VideoGenerator.Encoded 0 "u" 1 "h" "0.1") 0%nat
           (VideoGenerator.failedObject (Some "load failed") (Sample.placeholder "a" 0))).
  reflexivity.
Defined.

Lemma one_pending_written_once_witness :
  VideoGenerator.producer (VideoGenerator.Failed 0 None) = Some 0%nat
  /\ VideoGenerator.awaiting
       (Sample.videoRun 20
          [VideoGenerator.GenerateVideo VideoGenerator.videoConfig "a" 0]
          VideoGenerator.init) 0%nat
  /\ ~ VideoGenerator.awaiting
         (Sample.videoStep 20
            (Sample.videoRun 20
               [VideoGenerator.GenerateVideo VideoGenerator.videoConfig "a" 0]
               VideoGenerator.init)
            (VideoGenerator.Failed 0 None)) 0%nat
  /\ Some pending = Some pending
  /\ (Some error = Some ready \/ Some error = Some error).
Proof.
  apply (proj1 (proj2 (one_pending_written_once 20 Sample.label Sample.videoName
                  Sample.videoDetail
                  [VideoGenerator.GenerateVideo VideoGenerator.videoConfig "a" 0]))
           (VideoGenerator.Failed 0 None) 0%nat
           (Sample.placeholder "a" 0)
           (VideoGenerator.failedObject None (Sample.placeholder "a" 0)));
    [reflexivity | reflexivity | discriminate].
Defined.

(** C7 as stated fails: whatever the capacity and whatever the run, the
    array never holds pending records at two distinct positions, because
    [generateVideo] returns at once while [isVideoGenerating] is set. *)
Lemma two_pending_never_coexist :
  ~ exists (maxHistory : Z) (formatBytes : Z -> string)
           (placeholderName placeholderDetail : VideoGenerator.VideoConfig -> string)
           (evs : list VideoGenerator.Event) (i j : nat) (qi qj : loc)
           (oi oj : GeneratedAsset),
      let st := VideoGenerator.run maxHistory formatBytes placeholderName
                  placeholderDetail evs VideoGenerator.init in
      i <> j
      /\ Registry.results (VideoGenerator.reg st) !! i = Some qi
      /\ Registry.results (VideoGenerator.reg st) !! j = Some qj
      /\ Registry.heap (VideoGenerator.reg st) !! qi = Some oi
      /\ Registry.heap (VideoGenerator.reg st) !! qj = Some oj
      /\ Asset.status oi = Some pending /\ Asset.status oj = Some pending.
Proof.
  intros (m & fb & pn & pd & evs & i & j & qi & qj & oi & oj & Hne & Hi & Hj
          & Hqi & Hqj & Hpi & Hpj).
  apply Hne.
  eapply (pending_unique _ i j qi qj oi oj); try done.
  apply reachable_consistent.
Qed.

(** ** A producer that completes after its record left the array *)

Lemma records_ext (h h' : Heap) (l : list loc) (rv rv' : list string) :
  (forall q, In q l -> h' !! q = h !! q) ->
  Registry.records (Registry.mk h' l rv') = Registry.records (Registry.mk h l rv).
Proof.
  intros Hext. unfold Registry.records. cbn [Registry.heap Registry.results].
  apply list_omap_ext.
  induction l as [|q l IH]; constructor.
  - apply Hext. by left.
  - apply IH. intros q' Hq'. apply Hext. by right.
Qed.

Lemma records_same_results (r r' : Registry.t) :
  Registry.results r' = Registry.results r ->
  (forall q, In q (Registry.results r) -> Registry.heap r' !! q = Registry.heap r !! q) ->
  Registry.records r' = Registry.records r.
Proof.
  destruct r as [h l rv], r' as [h' l' rv']. cbn [Registry.results Registry.heap].
  intros -> Hext. by apply records_ext.
Qed.

Lemma absent_id_absent_ref (r : Registry.t) (p : loc) (o : GeneratedAsset) :
  Registry.heap r !! p = Some o ->
  ~ In (Asset.id o) (map Asset.id (Registry.records r)) ->
  ~ In p (Registry.results r).
Proof.
  intros Hp Hid Hin. apply Hid, in_map. destruct r as [h l rv].
  by apply (elem_of_records h l rv p).
Qed.

(** C8.  When the id of a placeholder is no longer among the ids of the
    array (its record was evicted), the writes of the success path, and
    those of the [catch] block, land on the detached object only: the
    function returns a state in which the array, the records behind it and
    the revoked urls are what they were. *)
Theorem completion_of_absent_record_is_noop (formatBytes : Z -> string)
    (st : VideoGenerator.State) (p : loc) (o : GeneratedAsset)
    (uuid : string) (blobSize : Z) (md5 elapsed : string) (err : option string) :
  Registry.heap (VideoGenerator.reg st) !! p = Some o ->
  ~ In (Asset.id o) (map Asset.id (Registry.records (VideoGenerator.reg st))) ->
  VideoGenerator.phaseOf p st = Some VideoGenerator.Encoding ->
  (let st' := VideoGenerator.encoded formatBytes p uuid blobSize md5 elapsed st in
   Registry.heap (VideoGenerator.reg st') !! p =
     Some (VideoGenerator.encodedObject formatBytes uuid blobSize md5 o)
   /\ Registry.results (VideoGenerator.reg st') = Registry.results (VideoGenerator.reg st)
   /\ Registry.records (VideoGenerator.reg st') = Registry.records (VideoGenerator.reg st)
   /\ Registry.revoked (VideoGenerator.reg st') = Registry.revoked (VideoGenerator.reg st))
  /\ (let st' := VideoGenerator.failed p err st in
      Registry.heap (VideoGenerator.reg st') !! p =
        Some (VideoGenerator.failedObject err o)
      /\ Registry.results (VideoGenerator.reg st') = Registry.results (VideoGenerator.reg st)
      /\ Registry.records (VideoGenerator.reg st') = Registry.records (VideoGenerator.reg st)
      /\ Registry.revoked (VideoGenerator.reg st') = Registry.revoked (VideoGenerator.reg st)).
Proof.
  intros Hp Hid Hph.
  pose proof (absent_id_absent_ref _ p o Hp Hid) as Hnotin.
  assert (Hres1 : Registry.results
            (VideoGenerator.reg (VideoGenerator.encoded formatBytes p uuid blobSize
                                   md5 elapsed st)) =
          Registry.results (VideoGenerator.reg st)).
  { unfold VideoGenerator.encoded. by rewrite Hph. }
  assert (Hrev1 : Registry.revoked
            (VideoGenerator.reg (VideoGenerator.encoded formatBytes p uuid blobSize
                                   md5 elapsed st)) =
          Registry.revoked (VideoGenerator.reg st)).
  { unfold VideoGenerator.encoded. by rewrite Hph. }
  assert (Hres2 : Registry.results (VideoGenerator.reg (VideoGenerator.failed p err st)) =
          Registry.results (VideoGenerator.reg st)).
  { unfold VideoGenerator.failed. by rewrite Hph. }
  assert (Hrev2 : Registry.revoked (VideoGenerator.reg (VideoGenerator.failed p err st)) =
          Registry.revoked (VideoGenerator.reg st)).
  { unfold VideoGenerator.failed. by rewrite Hph. }
  split; cbv zeta; split_and!; try done.
  - rewrite encoded_heap by done. by rewrite decide_True, Hp.
  - apply records_same_results; [done|]. intros q Hq.
    rewrite encoded_heap by done. rewrite decide_False; [done|]. by intros ->.
  - rewrite failed_heap by auto. by rewrite decide_True, Hp.
  - apply records_same_results; [done|]. intros q Hq.
    rewrite failed_heap by auto. rewrite decide_False; [done|]. by intros ->.
Qed.

Lemma completion_of_absent_record_is_noop_witness :
  Registry.records
    (VideoGenerator.reg
       (VideoGenerator.encoded Sample.label 0 "u" 2048 "h" "0.1"
          (Sample.videoRun 0
             [VideoGenerator.GenerateVideo VideoGenerator.videoConfig "a" 0;
              VideoGenerator.FFmpegLoaded 0] VideoGenerator.init))) =
  Registry.records
    (VideoGenerator.reg
       (Sample.videoRun 0
          [VideoGenerator.GenerateVideo VideoGenerator.videoConfig "a" 0;
           VideoGenerator.FFmpegLoaded 0] VideoGenerator.init)).
Proof.
  apply (completion_of_absent_record_is_noop Sample.label
           (Sample.videoRun 0
              [VideoGenerator.GenerateVideo VideoGenerator.videoConfig "a" 0;
               VideoGenerator.FFmpegLoaded 0] VideoGenerator.init)
           0%nat (Sample.placeholder "a" 0) "u" 2048 "h" "0.1" None).
  - reflexivity.
  - vm_compute. intros [].
  - reflexivity.
Defined.

(** ** The image and derivative generators never hold a pending record *)

Section ReadyOnly.

Import Registry.

Lemma createObjectURL_nonempty uuid : createObjectURL uuid <> "".
Proof. unfold createObjectURL. simpl. discriminate. Qed.

Lemma allReady_init : allReady init.
Proof. intros p o Hp. by destruct p. Qed.

Lemma allReady_same_heap (r r' : t) :
  heap r' = heap r -> allReady r -> allReady r'.
Proof. intros Hh Hr p o. rewrite Hh. apply Hr. Qed.

(** A fresh [ready] asset with a handle is created and pushed. *)
Lemma allReady_push m (r : t) (o : GeneratedAsset) :
  allReady r -> Asset.status o = Some ready -> Asset.url o <> "" ->
  allReady (pushResult m (length (heap r)) (mk (heap r ++ [o]) (results r) (revoked r))).
Proof.
  intros Hr Hst Hurl p o'. rewrite pushResult_heap. cbn [heap].
  intros [[_ Hp]|[_ <-]]%lookup_snoc_Some; [by apply (Hr p)|done].
Qed.

Lemma allReady_records (r : t) o :
  allReady r -> In o (records r) -> Asset.status o = Some ready /\ Asset.url o <> "".
Proof.
  intros Hr Hin. unfold records in Hin.
  apply list_elem_of_In, list_elem_of_omap in Hin as (p & _ & Hp).
  by apply (Hr p).
Qed.

Lemma image_step_allReady m fb sn (st : ImageGenerator.State) e :
  allReady (ImageGenerator.reg st) ->
  allReady (ImageGenerator.reg (ImageGenerator.step m fb sn st e)).
Proof.
  intros Hr. destruct e as [b|n| |k uuid blobSize digest newId now mime name detail
                            |k err|assetId]; cbn [ImageGenerator.step ImageGenerator.reg];
    try done.
  - unfold ImageGenerator.generateImage.
    by destruct (ImageGenerator.isImageGenerating st).
  - unfold ImageGenerator.produced.
    destruct (ImageGenerator.running st !! k) as [lp|]; [|done].
    unfold alloc.
    assert (Hpush := allReady_push m (ImageGenerator.reg st)
      (Asset.mk newId image (createObjectURL uuid) mime name detail blobSize
                (fb blobSize) now (Some ready) None (Some digest))
      Hr eq_refl (createObjectURL_nonempty uuid)).
    by destruct (_ <? _)%nat.
  - unfold ImageGenerator.failed.
    by destruct (ImageGenerator.running st !! k).
  - unfold ImageGenerator.removeAsset.
    destruct (find assetId (ImageGenerator.reg st)) as [p|]; [|done].
    cbn [ImageGenerator.reg]. eapply allReady_same_heap; [|exact Hr].
    cbn [heap]. apply cleanupAsset_heap.
Qed.

Lemma image_run_allReady m fb sn evs (st : ImageGenerator.State) :
  allReady (ImageGenerator.reg st) ->
  allReady (ImageGenerator.reg (ImageGenerator.run m fb sn evs st)).
Proof.
  revert st. induction evs as [|e evs IH]; intros st Hr; [done|].
  simpl. apply IH. by apply image_step_allReady.
Qed.

Lemma derivative_step_allReady m fb dn (st : DerivativeGenerator.State) e :
  allReady (DerivativeGenerator.reg st) ->
  allReady (DerivativeGenerator.reg (DerivativeGenerator.step m fb dn st e)).
Proof.
  intros Hr. destruct e as [file| | |k uuid blobSize md5 dims newId now|k err|assetId];
    cbn [DerivativeGenerator.step DerivativeGenerator.reg]; try done.
  - unfold DerivativeGenerator.deriveMaterial.
    destruct (DerivativeGenerator.selectedFile st) as [file|]; [|done].
    destruct (_ && _); [done|].
    by destruct (DerivativeGenerator.isProcessing st).
  - unfold DerivativeGenerator.derived.
    destruct (DerivativeGenerator.running st !! k) as [file|]; [|done].
    unfold alloc. cbn [DerivativeGenerator.finally DerivativeGenerator.emit
                       DerivativeGenerator.reg].
    by apply allReady_push; [|done|apply createObjectURL_nonempty].
  - unfold DerivativeGenerator.failed.
    by destruct (DerivativeGenerator.running st !! k).
  - unfold DerivativeGenerator.removeAsset.
    destruct (find assetId (DerivativeGenerator.reg st)) as [p|]; [|done].
    cbn [DerivativeGenerator.reg]. eapply allReady_same_heap; [|exact Hr].
    cbn [heap]. apply cleanupAsset_heap.
Qed.

Lemma derivative_run_allReady m fb dn evs (st : DerivativeGenerator.State) :
  allReady (DerivativeGenerator.reg st) ->
  allReady (DerivativeGenerator.reg (DerivativeGenerator.run m fb dn evs st)).
Proof.
  revert st. induction evs as [|e evs IH]; intros st Hr; [done|].
  simpl. apply IH. by apply derivative_step_allReady.
Qed.

End ReadyOnly.

(** C10.  Every object the image generator and the derivative generator
    create and push is [ready] and has a non-empty [url], in every state
    these components can reach; so a record that the derivative generator's
    [removeAsset] takes out of the array is never pending.  The video
    generator is the one that pushes a pending placeholder with an empty
    [url]. *)
Theorem only_video_inserts_pending :
  (forall m fb sn evs p o,
      Registry.heap (ImageGenerator.reg
        (ImageGenerator.run m fb sn evs ImageGenerator.init)) !! p = Some o ->
      Asset.status o = Some ready /\ Asset.url o <> "")
  /\ (forall m fb dn evs p o,
        Registry.heap (DerivativeGenerator.reg
          (DerivativeGenerator.run m fb dn evs DerivativeGenerator.init)) !! p = Some o ->
        Asset.status o = Some ready /\ Asset.url o <> "")
  /\ (forall m fb dn evs assetId o,
        let st := DerivativeGenerator.run m fb dn evs DerivativeGenerator.init in
        In o (Registry.records (DerivativeGenerator.reg st)) ->
        ~ In o (Registry.records
                  (DerivativeGenerator.reg (DerivativeGenerator.removeAsset assetId st))) ->
        Asset.status o <> Some pending)
  /\ (forall m pn pd newId now,
        exists o,
          Registry.heap (VideoGenerator.reg
            (VideoGenerator.generateVideo m pn pd VideoGenerator.videoConfig newId now
               VideoGenerator.init)) !! 0%nat = Some o
          /\ Asset.status o = Some pending /\ Asset.url o = "").
Proof.
  split_and!.
  - intros m fb sn evs p o.
    apply (image_run_allReady m fb sn evs ImageGenerator.init allReady_init).
  - intros m fb dn evs p o.
    apply (derivative_run_allReady m fb dn evs DerivativeGenerator.init allReady_init).
  - intros m fb dn evs assetId o st Hin _.
    destruct (allReady_records (DerivativeGenerator.reg st) o) as [Hst _]; [|done|].
    + apply (derivative_run_allReady m fb dn evs DerivativeGenerator.init allReady_init).
    + congruence.
  - intros m pn pd newId now.
    destruct (generateVideo_init m pn pd newId now) as [Hh _].
    eexists. rewrite Hh. by split_and!.
Qed.

Lemma only_video_inserts_pending_witness :
  Asset.status
    (Asset.mk "id" image (createObjectURL "u") "image/png" "n" "d" 10
              (Sample.label 10) 0 (Some ready) None (Some "md5")) = Some ready
  /\ Asset.url
       (Asset.mk "id" image (createObjectURL "u") "image/png" "n" "d" 10
                 (Sample.label 10) 0 (Some ready) None (Some "md5")) <> "".
Proof.
  apply (proj1 only_video_inserts_pending 20 Sample.label (fun _ => "1")
           [ImageGenerator.GenerateImage;
            ImageGenerator.Produced 0 "u" 10 "md5" "id" 0 "image/png" "n" "d"]
           0%nat).
  reflexivity.
Defined.

(** ** The shared encoder instance *)

Section EncoderFacts.

Import FFmpeg.

Lemma ffmpeg_consistent_init : consistent init.
Proof. split; simpl; try done; intros k Hk; by destruct k. Qed.

Lemma getFFmpeg_consistent (st : State) :
  consistent st -> consistent (snd (getFFmpeg st)).
Proof.
  intros Hc. unfold getFFmpeg.
  destruct (instance st) as [k|] eqn:Hi; [done|].
  destruct (loadingPromise st) as [p|] eqn:Hl; [done|].
  destruct Hc as [Hinst Hfl Hful Hprom].
  split; cbn [snd instance loadingPromise loads].
  - done.
  - intros k [[_ Hk]|[-> _]]%lookup_snoc_Some; [|done].
    destruct (Hfl k Hk). congruence.
  - intros k [[_ Hk]|[_ ?]]%lookup_snoc_Some; [|done].
    rewrite <- Hi. by apply Hful.
  - intros p [= <-]. left. by apply list_lookup_middle.
Qed.

Lemma settle_consistent (st : State) k (s : PromiseState) inst lp :
  consistent st -> loads st !! k = Some InFlight ->
  (s = Fulfilled /\ inst = Some k /\ lp = loadingPromise st)
  \/ (s = Rejected /\ inst = instance st /\ lp = None) ->
  consistent (mk inst lp (<[k := s]> (loads st)) (returned st)).
Proof.
  intros [Hinst Hfl Hful Hprom] Hk Hs.
  destruct (Hfl k Hk) as [Hlp Hnone].
  assert (Hlt : (k < length (loads st))%nat) by by eapply lookup_lt_Some.
  assert (Hother : forall k' s', k' <> k ->
            <[k := s]> (loads st) !! k' = Some s' -> s' = Rejected).
  { intros k' s' Hne. rewrite list_lookup_insert_ne by done. intros Hk'.
    destruct s'; [|pose proof (Hful k' Hk'); congruence|done].
    destruct (Hfl k' Hk'). congruence. }
  split; cbn [instance loadingPromise loads].
  - intros k' Hk'. destruct Hs as [(-> & -> & ->)|(-> & -> & ->)]; [|congruence].
    simplify_eq. by rewrite list_lookup_insert_eq.
  - intros k' Hk'. destruct (decide (k' = k)) as [->|Hne].
    + rewrite list_lookup_insert_eq in Hk' by done.
      destruct Hs as [(-> & _)|(-> & _)]; by simplify_eq.
    + by specialize (Hother k' _ Hne Hk').
  - intros k' Hk'. destruct (decide (k' = k)) as [->|Hne].
    + rewrite list_lookup_insert_eq in Hk' by done.
      destruct Hs as [(_ & -> & _)|(-> & _)]; by simplify_eq.
    + by specialize (Hother k' _ Hne Hk').
  - intros p ->. destruct Hs as [(-> & _ & Heq)|(_ & _ & ?)]; [|done].
    rewrite Hlp in Heq. simplify_eq. right. by rewrite list_lookup_insert_eq.
Qed.

Lemma ffmpeg_consistent_step (st : State) e : consistent st -> consistent (step st e).
Proof.
  intros Hc. destruct e as [|k|k]; cbn [step].
  - pose proof (getFFmpeg_consistent st Hc) as Hc'.
    destruct (getFFmpeg st) as [r st1]. cbn [snd] in Hc'.
    by destruct Hc'.
  - unfold loadSucceeded.
    destruct (loads st !! k) as [[| |]|] eqn:Hk; try done.
    apply settle_consistent; auto.
  - unfold loadFailed.
    destruct (loads st !! k) as [[| |]|] eqn:Hk; try done.
    apply settle_consistent; auto.
Qed.

Lemma ffmpeg_consistent_run evs (st : State) :
  consistent st -> consistent (run evs st).
Proof.
  revert st. induction evs as [|e evs IH]; intros st Hc; [done|].
  simpl. apply IH. by apply ffmpeg_consistent_step.
Qed.

(** Once the instance is set, no event changes it or starts a load. *)
Lemma instance_stable evs (st : State) k :
  consistent st -> instance st = Some k ->
  instance (run evs st) = Some k /\ loads (run evs st) = loads st.
Proof.
  revert st. induction evs as [|e evs IH]; intros st Hc Hi; [done|].
  simpl.
  assert (Hstep : instance (step st e) = Some k /\ loads (step st e) = loads st).
  { destruct e as [|k'|k']; cbn [step].
    - unfold getFFmpeg. by rewrite Hi.
    - unfold loadSucceeded.
      destruct (loads st !! k') as [[| |]|] eqn:Hk; try done.
      destruct (c_inflight st Hc k' Hk). congruence.
    - unfold loadFailed.
      destruct (loads st !! k') as [[| |]|] eqn:Hk; try done.
      destruct (c_inflight st Hc k' Hk). congruence. }
  destruct Hstep as [Hi' Hl'].
  destruct (IH (step st e) (ffmpeg_consistent_step st e Hc) Hi') as [? ?].
  split; [done|congruence].
Qed.

End EncoderFacts.

(** C9 as amended.  In every state the module can reach: once a load has
    succeeded, [getFFmpeg] returns that instance without touching the state,
    and no later event changes the instance or starts a load; while a load
    is in flight, [getFFmpeg] returns that load's promise without touching
    the state; at most one load is in flight; a call starts a load only
    when every load started before has been rejected; and when the load in
    flight fails, [loadingPromise] is cleared and the next call starts a new
    load. *)
Theorem getFFmpeg_shares_live_initialization (evs : list FFmpeg.Event) :
  let st := FFmpeg.run evs FFmpeg.init in
  (forall k, FFmpeg.instance st = Some k ->
     FFmpeg.getFFmpeg st = (FFmpeg.RetInstance k, st)
     /\ forall evs', FFmpeg.instance (FFmpeg.run evs' st) = Some k
                     /\ FFmpeg.loads (FFmpeg.run evs' st) = FFmpeg.loads st)
  /\ (forall p, FFmpeg.loads st !! p = Some FFmpeg.InFlight ->
        FFmpeg.getFFmpeg st = (FFmpeg.RetPromise p, st))
  /\ (forall p q, FFmpeg.loads st !! p = Some FFmpeg.InFlight ->
                  FFmpeg.loads st !! q = Some FFmpeg.InFlight -> p = q)
  /\ (FFmpeg.loads (snd (FFmpeg.getFFmpeg st)) <> FFmpeg.loads st ->
      forall k s, FFmpeg.loads st !! k = Some s -> s = FFmpeg.Rejected)
  /\ (forall k, FFmpeg.loads st !! k = Some FFmpeg.InFlight ->
        let st' := FFmpeg.loadFailed k st in
        FFmpeg.loadingPromise st' = None
        /\ fst (FFmpeg.getFFmpeg st') = FFmpeg.RetPromise (length (FFmpeg.loads st))
        /\ FFmpeg.loads (snd (FFmpeg.getFFmpeg st')) =
             <[k := FFmpeg.Rejected]> (FFmpeg.loads st) ++ [FFmpeg.InFlight]).
Proof.
  intros st.
  assert (Hc : FFmpeg.consistent st)
    by apply ffmpeg_consistent_run, ffmpeg_consistent_init.
  split_and!.
  - intros k Hi. split.
    + unfold FFmpeg.getFFmpeg. by rewrite Hi.
    + intros evs'. by apply instance_stable.
  - intros p Hp. destruct (FFmpeg.c_inflight st Hc p Hp) as [Hlp Hnone].
    unfold FFmpeg.getFFmpeg. by rewrite Hnone, Hlp.
  - intros p q Hp Hq.
    destruct (FFmpeg.c_inflight st Hc p Hp) as [Hlp _].
    destruct (FFmpeg.c_inflight st Hc q Hq) as [Hlq _]. congruence.
  - unfold FFmpeg.getFFmpeg.
    destruct (FFmpeg.instance st) as [i|] eqn:Hi; [done|].
    destruct (FFmpeg.loadingPromise st) as [lp|] eqn:Hlp; [done|].
    intros _ k s Hk. destruct s; [|exfalso|done].
    + destruct (FFmpeg.c_inflight st Hc k Hk). congruence.
    + pose proof (FFmpeg.c_fulfilled st Hc k Hk). congruence.
  - intros k Hk. destruct (FFmpeg.c_inflight st Hc k Hk) as [_ Hnone].
    unfold FFmpeg.loadFailed. rewrite Hk. unfold FFmpeg.getFFmpeg.
    cbn [FFmpeg.instance FFmpeg.loadingPromise FFmpeg.loads]. rewrite Hnone.
    cbn [fst snd FFmpeg.loads]. by rewrite length_insert.
Qed.

Lemma getFFmpeg_shares_live_initialization_witness :
  FFmpeg.getFFmpeg (FFmpeg.run [FFmpeg.GetFFmpeg; FFmpeg.GetFFmpeg] FFmpeg.init) =
    (FFmpeg.RetPromise 0,
     FFmpeg.run [FFmpeg.GetFFmpeg; FFmpeg.GetFFmpeg] FFmpeg.init).
Proof.
  apply (getFFmpeg_shares_live_initialization [FFmpeg.GetFFmpeg; FFmpeg.GetFFmpeg]).
  reflexivity.
Defined.

(** C9 as stated fails: the latch is not one-shot.  After the first call a
    load is in flight; it fails; the next call starts a second load and is
    handed another promise than the first caller. *)
Lemma second_load_after_failure :
  FFmpeg.loadingPromise (FFmpeg.run [FFmpeg.GetFFmpeg] FFmpeg.init) = Some 0%nat
  /\ FFmpeg.loads (FFmpeg.run [FFmpeg.GetFFmpeg] FFmpeg.init) = [FFmpeg.InFlight]
  /\ FFmpeg.loads
       (FFmpeg.run [FFmpeg.GetFFmpeg; FFmpeg.LoadFailed 0; FFmpeg.GetFFmpeg] FFmpeg.init)
     = [FFmpeg.Rejected; FFmpeg.InFlight]
  /\ FFmpeg.returned
       (FFmpeg.run [FFmpeg.GetFFmpeg; FFmpeg.LoadFailed 0; FFmpeg.GetFFmpeg] FFmpeg.init)
     = [FFmpeg.RetPromise 1; FFmpeg.RetPromise 0].
Proof. by split_and!. Qed.

(** * Further properties of the components *)

(** ** The bound on the history, with deletions and completions interleaved *)

Section BoundFacts.

Import Registry.

Lemma filter_out_length assetId (r : t) :
  (length (filter_out assetId r) <= length (results r))%nat.
Proof. unfold filter_out. apply filter_length_le. Qed.

Lemma alloc_push_bound m (r : t) (o : GeneratedAsset) :
  0 <= m -> Z.of_nat (length (results r)) <= m ->
  Z.of_nat (length (results
    (pushResult m (length (heap r)) (mk (heap r ++ [o]) (results r) (revoked r))))) <= m.
Proof. intros Hm Hr. by apply pushResult_bound. Qed.

Lemma video_step_bounded m fb pn pd (st : VideoGenerator.State) e :
  0 <= m ->
  Z.of_nat (length (results (VideoGenerator.reg st))) <= m ->
  Z.of_nat (length (results (VideoGenerator.reg (VideoGenerator.step m fb pn pd st e)))) <= m.
Proof.
  intros Hm Hr.
  destruct e as [cfg newId now|p|p time|p uuid blobSize md5 elapsed|p err|p|assetId];
    cbn [VideoGenerator.step].
  - unfold VideoGenerator.generateVideo.
    destruct (VideoGenerator.invalidConfig cfg); [done|].
    destruct (VideoGenerator.isVideoGenerating st); [done|].
    unfold alloc. cbn [VideoGenerator.reg]. by apply alloc_push_bound.
  - unfold VideoGenerator.ffmpegLoaded.
    by destruct (VideoGenerator.phaseOf p st) as [[| |]|].
  - unfold VideoGenerator.handleProgress.
    by destruct (VideoGenerator.phaseOf p st) as [[| |]|].
  - unfold VideoGenerator.encoded.
    by destruct (VideoGenerator.phaseOf p st) as [[| |]|].
  - unfold VideoGenerator.failed.
    by destruct (VideoGenerator.phaseOf p st) as [[| |]|].
  - unfold VideoGenerator.deleted.
    by destruct (VideoGenerator.phaseOf p st) as [[| |]|].
  - unfold VideoGenerator.removeAsset.
    destruct (find assetId (VideoGenerator.reg st)) as [p|]; [|done].
    destruct (heap (VideoGenerator.reg st) !! p) as [o|]; [|done].
    case_bool_decide; [done|]. cbn [VideoGenerator.reg results].
    pose proof (filter_out_length assetId
                  (cleanupAsset (Some p) (VideoGenerator.reg st))) as Hle.
    rewrite cleanupAsset_results in Hle. lia.
Qed.

Lemma image_step_bounded m fb sn (st : ImageGenerator.State) e :
  0 <= m ->
  Z.of_nat (length (results (ImageGenerator.reg st))) <= m ->
  Z.of_nat (length (results (ImageGenerator.reg (ImageGenerator.step m fb sn st e)))) <= m.
Proof.
  intros Hm Hr.
  destruct e as [b|n| |k uuid blobSize digest newId now mime name detail|k err|assetId];
    cbn [ImageGenerator.step ImageGenerator.reg]; try done.
  - unfold ImageGenerator.generateImage.
    by destruct (ImageGenerator.isImageGenerating st).
  - unfold ImageGenerator.produced.
    destruct (ImageGenerator.running st !! k) as [lp|]; [|done].
    unfold alloc.
    pose proof (alloc_push_bound m (ImageGenerator.reg st)
      (Asset.mk newId image (createObjectURL uuid) mime name detail blobSize
                (fb blobSize) now (Some ready) None (Some digest)) Hm Hr).
    by destruct (_ <? _)%nat.
  - unfold ImageGenerator.failed.
    by destruct (ImageGenerator.running st !! k).
  - unfold ImageGenerator.removeAsset.
    destruct (find assetId (ImageGenerator.reg st)) as [p|]; [|done].
    cbn [ImageGenerator.reg results].
    pose proof (filter_out_length assetId
                  (cleanupAsset (Some p) (ImageGenerator.reg st))) as Hle.
    rewrite cleanupAsset_results in Hle. lia.
Qed.

Lemma derivative_step_bounded m fb dn (st : DerivativeGenerator.State) e :
  0 <= m ->
  Z.of_nat (length (results (DerivativeGenerator.reg st))) <= m ->
  Z.of_nat (length (results
    (DerivativeGenerator.reg (DerivativeGenerator.step m fb dn st e)))) <= m.
Proof.
  intros Hm Hr.
  destruct e as [file| | |k uuid blobSize md5 dims newId now|k err|assetId];
    cbn [DerivativeGenerator.step DerivativeGenerator.reg]; try done.
  - unfold DerivativeGenerator.deriveMaterial.
    destruct (DerivativeGenerator.selectedFile st) as [file|]; [|done].
    destruct (_ && _); [done|].
    by destruct (DerivativeGenerator.isProcessing st).
  - unfold DerivativeGenerator.derived.
    destruct (DerivativeGenerator.running st !! k) as [file|]; [|done].
    unfold alloc. cbn [DerivativeGenerator.finally DerivativeGenerator.emit
                       DerivativeGenerator.reg].
    by apply alloc_push_bound.
  - unfold DerivativeGenerator.failed.
    by destruct (DerivativeGenerator.running st !! k).
  - unfold DerivativeGenerator.removeAsset.
    destruct (find assetId (DerivativeGenerator.reg st)) as [p|]; [|done].
    cbn [DerivativeGenerator.reg results].
    pose proof (filter_out_length assetId
                  (cleanupAsset (Some p) (DerivativeGenerator.reg st))) as Hle.
    rewrite cleanupAsset_results in Hle. lia.
Qed.

End BoundFacts.

(** X1.  With a capacity that is not negative, the array of each of the
    three components holds at most [maxHistory] references in every state
    the component can reach, whatever the interleaving of requests,
    completions, failures and deletions. *)
Theorem history_bounded_in_every_state (maxHistory : Z) :
  0 <= maxHistory ->
  (forall fb pn pd evs,
      Z.of_nat (length (Registry.results (VideoGenerator.reg
        (VideoGenerator.run maxHistory fb pn pd evs VideoGenerator.init)))) <= maxHistory)
  /\ (forall fb sn evs,
        Z.of_nat (length (Registry.results (ImageGenerator.reg
          (ImageGenerator.run maxHistory fb sn evs ImageGenerator.init)))) <= maxHistory)
  /\ (forall fb dn evs,
        Z.of_nat (length (Registry.results (DerivativeGenerator.reg
          (DerivativeGenerator.run maxHistory fb dn evs DerivativeGenerator.init))))
        <= maxHistory).
Proof.
  intros Hm. split_and!.
  - intros fb pn pd evs.
    assert (Hgen : forall st,
      Z.of_nat (length (Registry.results (VideoGenerator.reg st))) <= maxHistory ->
      Z.of_nat (length (Registry.results (VideoGenerator.reg
        (VideoGenerator.run maxHistory fb pn pd evs st)))) <= maxHistory).
    { induction evs as [|e evs IH]; intros st Hst; [done|].
      simpl. apply IH. by apply video_step_bounded. }
    apply Hgen. simpl. lia.
  - intros fb sn evs.
    assert (Hgen : forall st,
      Z.of_nat (length (Registry.results (ImageGenerator.reg st))) <= maxHistory ->
      Z.of_nat (length (Registry.results (ImageGenerator.reg
        (ImageGenerator.run maxHistory fb sn evs st)))) <= maxHistory).
    { induction evs as [|e evs IH]; intros st Hst; [done|].
      simpl. apply IH. by apply image_step_bounded. }
    apply Hgen. simpl. lia.
  - intros fb dn evs.
    assert (Hgen : forall st,
      Z.of_nat (length (Registry.results (DerivativeGenerator.reg st))) <= maxHistory ->
      Z.of_nat (length (Registry.results (DerivativeGenerator.reg
        (DerivativeGenerator.run maxHistory fb dn evs st)))) <= maxHistory).
    { induction evs as [|e evs IH]; intros st Hst; [done|].
      simpl. apply IH. by apply derivative_step_bounded. }
    apply Hgen. simpl. lia.
Qed.

Lemma history_bounded_in_every_state_witness :
  Z.of_nat (length (Registry.results (ImageGenerator.reg
    (ImageGenerator.run 1 Sample.label (fun _ => "2")
       [ImageGenerator.SetGenerationMode true; ImageGenerator.SetBatchCount 2;
        ImageGenerator.GenerateImage;
        ImageGenerator.Produced 0 "u1" 10 "h1" "a" 0 "image/png" "n" "d";
        ImageGenerator.Produced 0 "u2" 10 "h2" "b" 1 "image/png" "n" "d"]
       ImageGenerator.init)))) <= 1.
Proof.
  apply (proj1 (proj2 (history_bounded_in_every_state 1 ltac:(lia)))).
Defined.

(** ** Deleting by id *)

Section DeleteFacts.

Import Registry.

Lemma find_absent assetId (r : t) :
  ~ In assetId (map Asset.id (records r)) -> find assetId r = None.
Proof.
  intros Hnot. unfold find.
  destruct (List.find _ _) as [p|] eqn:Hfind; [|done].
  apply find_some in Hfind as [Hin Hid]. unfold hasId in Hid.
  destruct (heap r !! p) as [o|] eqn:Hp; [|done].
  apply String.eqb_eq in Hid. subst assetId.
  destruct Hnot. apply in_map. destruct r as [h l rv].
  by apply (elem_of_records h l rv p).
Qed.

(** With unique ids, looking up the id of a present record finds it, and
    filtering that id out drops it alone. *)
Lemma remove_present (r : t) before after p o :
  NoDup (map Asset.id (records r)) ->
  results r = before ++ p :: after ->
  heap r !! p = Some o ->
  find (Asset.id o) r = Some p
  /\ filter_out (Asset.id o) (cleanupAsset (Some p) r) = before ++ after
  /\ revoked (cleanupAsset (Some p) r) =
       (if String.eqb (Asset.url o) "" then revoked r else Asset.url o :: revoked r)
  /\ heap (cleanupAsset (Some p) r) = heap r.
Proof.
  intros Hnd Hres Hp. destruct r as [h l rv].
  cbn [results heap revoked] in *. subst l.
  destruct (unique_ids_split h before after p o rv Hnd Hp) as [Hb Ha].
  assert (Hself : hasId h (Asset.id o) p = true).
  { unfold hasId. rewrite Hp. apply String.eqb_refl. }
  split_and!.
  - unfold find. cbn [results heap]. by apply find_first.
  - unfold filter_out. rewrite cleanupAsset_heap, cleanupAsset_results.
    cbn [results heap].
    rewrite List.filter_app. simpl List.filter. rewrite Hself. simpl negb. cbv iota.
    rewrite !filter_all; [done| |].
    + intros q Hq. by rewrite (Ha q Hq).
    + intros q Hq. by rewrite (Hb q Hq).
  - by rewrite (cleanupAsset_revoked p o).
  - apply cleanupAsset_heap.
Qed.

End DeleteFacts.

(** X2.  [removeAsset] called with an id that no record of the array
    carries returns at once: in each of the three components the state is
    left exactly as it was (nothing removed, nothing revoked, no toast). *)
Theorem removeAsset_unknown_id_is_noop (assetId : string) :
  (forall st : VideoGenerator.State,
      ~ In assetId (map Asset.id (Registry.records (VideoGenerator.reg st))) ->
      VideoGenerator.removeAsset assetId st = st)
  /\ (forall st : ImageGenerator.State,
        ~ In assetId (map Asset.id (Registry.records (ImageGenerator.reg st))) ->
        ImageGenerator.removeAsset assetId st = st)
  /\ (forall st : DerivativeGenerator.State,
        ~ In assetId (map Asset.id (Registry.records (DerivativeGenerator.reg st))) ->
        DerivativeGenerator.removeAsset assetId st = st).
Proof.
  split_and!; intros st Hnot.
  - unfold VideoGenerator.removeAsset. by rewrite find_absent.
  - unfold ImageGenerator.removeAsset. by rewrite find_absent.
  - unfold DerivativeGenerator.removeAsset. by rewrite find_absent.
Qed.

Lemma removeAsset_unknown_id_is_noop_witness :
  VideoGenerator.removeAsset "zz"
    (Sample.videoRun 20
       [VideoGenerator.GenerateVideo VideoGenerator.videoConfig "a" 0]
       VideoGenerator.init) =
  Sample.videoRun 20
    [VideoGenerator.GenerateVideo VideoGenerator.videoConfig "a" 0]
    VideoGenerator.init.
Proof.
  apply (proj1 (removeAsset_unknown_id_is_noop "zz")).
  vm_compute. intros [H|[]]. discriminate H.
Defined.

(** X3.  In the image generator and in the derivative generator
    [removeAsset] makes no status check: with unique ids, calling it with
    the id of a present record, whatever its status, removes exactly that
    reference (the others keep their order), revokes its [url] unless it is
    empty, leaves the objects untouched and reports the deletion. *)
Theorem removeAsset_without_status_check (before after : list loc) (p : loc)
    (o : GeneratedAsset) :
  (forall st : ImageGenerator.State,
      NoDup (map Asset.id (Registry.records (ImageGenerator.reg st))) ->
      Registry.results (ImageGenerator.reg st) = before ++ p :: after ->
      Registry.heap (ImageGenerator.reg st) !! p = Some o ->
      ImageGenerator.removeAsset (Asset.id o) st =
        ImageGenerator.mk
          (Registry.mk (Registry.heap (ImageGenerator.reg st)) (before ++ after)
             (if String.eqb (Asset.url o) ""
              then Registry.revoked (ImageGenerator.reg st)
              else Asset.url o :: Registry.revoked (ImageGenerator.reg st)))
          (ImageGenerator.isImageGenerating st) (ImageGenerator.batchMode st)
          (ImageGenerator.batchCount st) (ImageGenerator.running st)
          (Toast toast_success "已删除图片资源" :: ImageGenerator.emitted st))
  /\ (forall st : DerivativeGenerator.State,
        NoDup (map Asset.id (Registry.records (DerivativeGenerator.reg st))) ->
        Registry.results (DerivativeGenerator.reg st) = before ++ p :: after ->
        Registry.heap (DerivativeGenerator.reg st) !! p = Some o ->
        DerivativeGenerator.removeAsset (Asset.id o) st =
          DerivativeGenerator.mk
            (Registry.mk (Registry.heap (DerivativeGenerator.reg st)) (before ++ after)
               (if String.eqb (Asset.url o) ""
                then Registry.revoked (DerivativeGenerator.reg st)
                else Asset.url o :: Registry.revoked (DerivativeGenerator.reg st)))
            (DerivativeGenerator.selectedFile st) (DerivativeGenerator.isProcessing st)
            (DerivativeGenerator.running st)
            (Toast toast_success "已删除衍生素材" :: DerivativeGenerator.emitted st)).
Proof.
  split; intros st Hnd Hres Hp.
  - destruct (remove_present _ before after p o Hnd Hres Hp)
      as (Hfind & Hfilter & Hrev & Hheap).
    unfold ImageGenerator.removeAsset. by rewrite Hfind, Hfilter, Hrev, Hheap.
  - destruct (remove_present _ before after p o Hnd Hres Hp)
      as (Hfind & Hfilter & Hrev & Hheap).
    unfold DerivativeGenerator.removeAsset. by rewrite Hfind, Hfilter, Hrev, Hheap.
Qed.

Lemma removeAsset_without_status_check_witness :
  DerivativeGenerator.removeAsset "b"
    (DerivativeGenerator.mk
       (Registry.mk [Asset.mk "a" image "blob:a" "image/png" "n" "d" 10 "10 B" 0
                              (Some ready) None (Some "h");
                     Asset.mk "b" video "" "video/mp4" "n" "d" 0 "" 1
                              (Some pending) None None]
                    [1; 0]%nat [])
       None false [] []) =
  DerivativeGenerator.mk
       (Registry.mk [Asset.mk "a" image "blob:a" "image/png" "n" "d" 10 "10 B" 0
                              (Some ready) None (Some "h");
                     Asset.mk "b" video "" "video/mp4" "n" "d" 0 "" 1
                              (Some pending) None None]
                    [0%nat] [])
       None false [] [Toast toast_success "已删除衍生素材"].
Proof.
  apply (proj2 (removeAsset_without_status_check [] [0%nat] 1%nat
           (Asset.mk "b" video "" "video/mp4" "n" "d" 0 "" 1
                     (Some pending) None None))).
  - apply (bool_decide_unpack _). reflexivity.
  - reflexivity.
  - reflexivity.
Defined.

(** ** What the video template can rely on *)

Section VideoViewFacts.

Import VideoGenerator VideoView.

Variable maxHistory : Z.
Variable formatBytes : Z -> string.
Variable placeholderName placeholderDetail : VideoConfig -> string.

Lemma readyHasUrl_step (st : State) e :
  readyHasUrl st ->
  readyHasUrl (step maxHistory formatBytes placeholderName placeholderDetail st e).
Proof.
  intros Hinv.
  destruct e as [cfg newId now|p|p time|p uuid blobSize md5 elapsed|p err|p|assetId];
    cbn [step].
  - unfold generateVideo.
    destruct (invalidConfig cfg); [done|].
    destruct (isVideoGenerating st); [done|].
    unfold alloc. intros q o. cbn [reg]. rewrite pushResult_heap. cbn [Registry.heap].
    intros [[_ Hq]|[_ <-]]%lookup_snoc_Some; [by apply (Hinv q)|done].
  - unfold ffmpegLoaded. by destruct (phaseOf p st) as [[| |]|].
  - unfold handleProgress. by destruct (phaseOf p st) as [[| |]|].
  - destruct (phaseOf p st) as [ph|] eqn:Hph.
    2:{ unfold encoded. by rewrite Hph. }
    destruct (decide (ph = Encoding)) as [->|Hne].
    2:{ unfold encoded. rewrite Hph. by destruct ph. }
    intros q o. rewrite encoded_heap by done.
    destruct (decide (q = p)) as [->|_]; [|by apply (Hinv q)].
    destruct (Registry.heap (reg st) !! p) as [o0|]; [|done].
    intros [= <-] _. apply createObjectURL_nonempty.
  - destruct (phaseOf p st) as [ph|] eqn:Hph.
    2:{ unfold failed. by rewrite Hph. }
    destruct (decide (ph = Cleaning)) as [->|Hne].
    { unfold failed. by rewrite Hph. }
    assert (Hph' : phaseOf p st = Some Loading \/ phaseOf p st = Some Encoding).
    { rewrite Hph. destruct ph; auto. done. }
    intros q o. rewrite failed_heap by done.
    destruct (decide (q = p)) as [->|_]; [|by apply (Hinv q)].
    destruct (Registry.heap (reg st) !! p) as [o0|]; [|done].
    by intros [= <-].
  - unfold deleted. by destruct (phaseOf p st) as [[| |]|].
  - unfold removeAsset.
    destruct (Registry.find assetId (reg st)) as [p|]; [|done].
    destruct (Registry.heap (reg st) !! p) as [o1|]; [|done].
    case_bool_decide; [done|].
    intros q o. cbn [reg Registry.heap]. rewrite cleanupAsset_heap. apply Hinv.
Qed.

Lemma readyHasUrl_run evs (st : State) :
  readyHasUrl st ->
  readyHasUrl (run maxHistory formatBytes placeholderName placeholderDetail evs st).
Proof.
  revert st. induction evs as [|e evs IH]; intros st Hinv; [done|].
  simpl. apply IH. by apply readyHasUrl_step.
Qed.

Lemma removelast_cons_cons {A} (x y : A) (l : list A) :
  removelast (x :: y :: l) = x :: removelast (y :: l).
Proof. done. Qed.

Lemma placeholderFirst_step (st : State) e :
  1 <= maxHistory -> consistent st -> placeholderFirst st ->
  placeholderFirst (step maxHistory formatBytes placeholderName placeholderDetail st e).
Proof.
  intros Hm Hc Hinv.
  destruct e as [cfg newId now|p|p time|p uuid blobSize md5 elapsed|p err|p|assetId];
    cbn [step].
  - unfold generateVideo.
    destruct (invalidConfig cfg); [done|].
    destruct (isVideoGenerating st) eqn:Hgen; [done|].
    destruct (c_running st Hc) as [[Hr _]|(? & ? & ? & _ & Hg & _)]; [|congruence].
    unfold alloc. intros p ph. cbn [reg running]. rewrite Hr. cbn [app].
    intros [= <- <-] _. rewrite pushResult_results. cbn [Registry.results].
    destruct (Z.gtb_spec
                (Z.of_nat (S (length (Registry.results (reg st))))) maxHistory)
      as [Hgt|_]; [|eauto].
    destruct (Registry.results (reg st)) as [|y l]; [simpl in Hgt; lia|].
    rewrite removelast_cons_cons. eauto.
  - unfold ffmpegLoaded.
    destruct (phaseOf p st) as [[| |]|] eqn:Hph; try done.
    destruct (phaseOf_consistent p _ st Hc Hph) as (Hr & _).
    intros p' ph'. cbn [reg running]. rewrite Hr. simpl. rewrite Nat.eqb_refl.
    intros [= <- <-] _. by apply (Hinv p Loading).
  - unfold handleProgress. by destruct (phaseOf p st) as [[| |]|].
  - unfold encoded.
    destruct (phaseOf p st) as [[| |]|] eqn:Hph; try done.
    destruct (phaseOf_consistent p _ st Hc Hph) as (Hr & _).
    intros p' ph'. cbn [reg emit writeObj running]. rewrite Hr. simpl.
    rewrite Nat.eqb_refl. by intros [= <- <-].
  - unfold failed.
    destruct (phaseOf p st) as [[| |]|] eqn:Hph; try done;
      destruct (phaseOf_consistent p _ st Hc Hph) as (Hr & _);
      intros p' ph'; cbn [reg emit writeObj finally running]; rewrite Hr; simpl;
      by rewrite Nat.eqb_refl.
  - unfold deleted.
    destruct (phaseOf p st) as [[| |]|] eqn:Hph; try done.
    destruct (phaseOf_consistent p _ st Hc Hph) as (Hr & _).
    intros p' ph'. cbn [finally running]. rewrite Hr. simpl.
    by rewrite Nat.eqb_refl.
  - unfold removeAsset.
    destruct (Registry.find assetId (reg st)) as [q|] eqn:Hfind; [|done].
    destruct (Registry.heap (reg st) !! q) as [o1|] eqn:Hq; [|done].
    case_bool_decide as Hpd; [done|].
    intros p ph Hr Hne. cbn [running] in Hr.
    destruct (Hinv p ph Hr Hne) as [rest Hres].
    assert (Hph : phaseOf p st = Some ph).
    { rewrite (phaseOf_single p ph p st Hr). by rewrite decide_True. }
    destruct (phaseOf_consistent p _ st Hc Hph) as (_ & _ & o & Ho & Hst).
    rewrite decide_False in Hst by done.
    cbn [reg Registry.results]. unfold Registry.filter_out.
    rewrite cleanupAsset_heap, cleanupAsset_results, Hres. simpl List.filter.
    unfold Registry.find in Hfind. rewrite Hres in Hfind. simpl in Hfind.
    destruct (Registry.hasId (Registry.heap (reg st)) assetId p) eqn:Hid.
    + simplify_eq; congruence.
    + simpl. eauto.
Qed.

Lemma placeholderFirst_run evs :
  1 <= maxHistory ->
  placeholderFirst (run maxHistory formatBytes placeholderName placeholderDetail
                      evs init).
Proof.
  intros Hm.
  assert (Hgen : forall st, consistent st -> placeholderFirst st ->
    placeholderFirst (run maxHistory formatBytes placeholderName placeholderDetail
                        evs st)).
  { induction evs as [|e evs IH]; intros st Hc Hinv; [done|].
    simpl. apply IH; [by apply consistent_step|by apply placeholderFirst_step]. }
  apply Hgen; [apply consistent_init|]. by intros p ph.
Qed.

End VideoViewFacts.

(** X4.  In every state the video component can reach, a record that is
    [ready] has a non-empty [url]: the preview and download tests of the
    template agree on every object, and [downloadAsset] on a previewable
    record builds the link with its [url] and [name]. *)
Theorem preview_and_download_agree (maxHistory : Z) (formatBytes : Z -> string)
    (placeholderName placeholderDetail : VideoGenerator.VideoConfig -> string)
    (evs : list VideoGenerator.Event) (q : loc) (o : GeneratedAsset) :
  Registry.heap (VideoGenerator.reg
    (VideoGenerator.run maxHistory formatBytes placeholderName placeholderDetail
       evs VideoGenerator.init)) !! q = Some o ->
  VideoView.canDownload o = VideoView.canPreview o
  /\ (VideoView.canPreview o = true ->
      VideoView.downloadAsset o = Some (Asset.url o, Asset.name o)).
Proof.
  intros Hq.
  assert (Hurl : Asset.status o = Some ready -> Asset.url o <> "").
  { apply (readyHasUrl_run maxHistory formatBytes placeholderName placeholderDetail
             evs VideoGenerator.init) with (q := q); [|done].
    intros q' o' Hq'. by destruct q'. }
  unfold VideoView.canDownload, VideoView.canPreview, VideoView.downloadAsset.
  case_bool_decide as Hst; [|done].
  specialize (Hurl Hst).
  destruct (String.eqb_spec (Asset.url o) ""); [done|]. by split.
Qed.

Lemma preview_and_download_agree_witness :
  VideoView.canDownload
    (VideoGenerator.encodedObject Sample.label "u" 2048 "h" (Sample.placeholder "a" 0))
  = VideoView.canPreview
      (VideoGenerator.encodedObject Sample.label "u" 2048 "h" (Sample.placeholder "a" 0)).
Proof.
  apply (preview_and_download_agree 20 Sample.label Sample.videoName Sample.videoDetail
           [VideoGenerator.GenerateVideo VideoGenerator.videoConfig "a" 0;
            VideoGenerator.FFmpegLoaded 0;
            VideoGenerator.Encoded 0 "u" 2048 "h" "0.1"] 0%nat).
  reflexivity.
Defined.

(** X5.  With a capacity of at least one, in every state the video
    component can reach a pending object is the first element of the
    array: an overflow never evicts the placeholder of a generation that is
    still running, and a deletion never moves it. *)
Theorem pending_record_is_newest (maxHistory : Z) (formatBytes : Z -> string)
    (placeholderName placeholderDetail : VideoGenerator.VideoConfig -> string)
    (evs : list VideoGenerator.Event) (q : loc) (o : GeneratedAsset) :
  1 <= maxHistory ->
  Registry.heap (VideoGenerator.reg
    (VideoGenerator.run maxHistory formatBytes placeholderName placeholderDetail
       evs VideoGenerator.init)) !! q = Some o ->
  Asset.status o = Some pending ->
  Registry.results (VideoGenerator.reg
    (VideoGenerator.run maxHistory formatBytes placeholderName placeholderDetail
       evs VideoGenerator.init)) !! 0%nat = Some q.
Proof.
  intros Hm Hq Hpd.
  pose proof (reachable_consistent maxHistory formatBytes placeholderName
                placeholderDetail evs) as Hc.
  destruct (VideoGenerator.c_pending _ Hc q o Hq Hpd) as (ph & Hr & Hne).
  destruct (placeholderFirst_run maxHistory formatBytes placeholderName
              placeholderDetail evs Hm q ph Hr Hne) as [rest ->].
  done.
Qed.

Lemma pending_record_is_newest_witness :
  Registry.results (VideoGenerator.reg
    (Sample.videoRun 1
       [VideoGenerator.GenerateVideo VideoGenerator.videoConfig "a" 0;
        VideoGenerator.Failed 0 None;
        VideoGenerator.GenerateVideo VideoGenerator.videoConfig "b" 1]
       VideoGenerator.init)) !! 0%nat = Some 1%nat.
Proof.
  apply (pending_record_is_newest 1 Sample.label Sample.videoName Sample.videoDetail
           [VideoGenerator.GenerateVideo VideoGenerator.videoConfig "a" 0;
            VideoGenerator.Failed 0 None;
            VideoGenerator.GenerateVideo VideoGenerator.videoConfig "b" 1]
           1%nat (Sample.placeholder "b" 1)); [lia | reflexivity | reflexivity].
Defined.

(** ** How many times the encoder is loaded *)

Section LoadFacts.

Import FFmpeg FFmpegView.

Lemma settledBefore_step (st : State) e :
  consistent st -> settledBefore st -> settledBefore (step st e).
Proof.
  intros Hc Hs. destruct e as [|k|k]; cbn [step].
  - unfold getFFmpeg.
    destruct (instance st) as [i|] eqn:Hi; [done|].
    destruct (loadingPromise st) as [p|] eqn:Hl; [done|].
    intros k. cbn [loads]. rewrite length_app. cbn [length]. intros Hk.
    assert (Hlt : (k < length (loads st))%nat) by lia.
    rewrite lookup_app_l by done.
    destruct (lookup_lt_is_Some_2 _ _ Hlt) as [s Hsk]. rewrite Hsk.
    destruct s; [|exfalso|done].
    + destruct (c_inflight st Hc k Hsk). congruence.
    + pose proof (c_fulfilled st Hc k Hsk). congruence.
  - unfold loadSucceeded.
    destruct (loads st !! k) as [[| |]|] eqn:Hk; try done.
    intros k'. cbn [loads]. rewrite length_insert. intros Hk'.
    destruct (decide (k = k')) as [<-|Hne].
    + rewrite (Hs k Hk') in Hk. done.
    + rewrite list_lookup_insert_ne by done. by apply Hs.
  - unfold loadFailed.
    destruct (loads st !! k) as [[| |]|] eqn:Hk; try done.
    intros k'. cbn [loads]. rewrite length_insert. intros Hk'.
    destruct (decide (k = k')) as [<-|Hne].
    + rewrite (Hs k Hk') in Hk. done.
    + rewrite list_lookup_insert_ne by done. by apply Hs.
Qed.

Lemma validRet_step (st : State) e r :
  consistent st -> validRet st r -> validRet (step st e) r.
Proof.
  intros Hc Hr.
  assert (Hsettle : forall k s, loads st !! k = Some InFlight ->
            validRet (mk (instance st) (loadingPromise st)
                         (<[k := s]> (loads st)) (returned st)) r
            /\ forall i lp, validRet (mk i lp (<[k := s]> (loads st)) (returned st)) r).
  { intros k s Hk.
    assert (forall i lp, validRet (mk i lp (<[k := s]> (loads st)) (returned st)) r);
      [|by split].
    intros i lp. destruct r as [j|p]; cbn [validRet loads] in *.
    - rewrite list_lookup_insert_ne; [done|]. intros ->. congruence.
    - by rewrite length_insert. }
  destruct e as [|k|k]; cbn [step].
  - unfold getFFmpeg.
    destruct (instance st) as [i|]; [by destruct r|].
    destruct (loadingPromise st) as [p|]; [by destruct r|].
    destruct r as [j|p]; cbn [validRet loads] in *.
    + rewrite lookup_app_l; [done|]. by eapply lookup_lt_Some.
    + rewrite length_app. cbn [length]. lia.
  - unfold loadSucceeded.
    destruct (loads st !! k) as [[| |]|] eqn:Hk; try done.
    by apply Hsettle.
  - unfold loadFailed.
    destruct (loads st !! k) as [[| |]|] eqn:Hk; try done.
    by apply Hsettle.
Qed.

Lemma returned_valid evs :
  forall r, In r (returned (run evs init)) -> validRet (run evs init) r.
Proof.
  assert (Hgen : forall st, consistent st ->
            (forall r, In r (returned st) -> validRet st r) ->
            forall r, In r (returned (run evs st)) -> validRet (run evs st) r).
  { induction evs as [|e evs IH]; intros st Hc Hst; [done|].
    simpl. apply IH; [by apply ffmpeg_consistent_step|].
    intros r Hr.
    assert (Hcases : In r (returned st) \/ (e = GetFFmpeg /\ r = fst (getFFmpeg st))).
    { destruct e as [|k|k]; cbn [step] in Hr.
      - destruct (getFFmpeg st) as [r0 st1] eqn:Hget. cbn [returned] in Hr.
        destruct Hr as [<-|Hr]; [by right|left].
        unfold getFFmpeg in Hget.
        destruct (instance st); [by simplify_eq|].
        destruct (loadingPromise st); by simplify_eq.
      - left. unfold loadSucceeded in Hr. by destruct (loads st !! k) as [[| |]|].
      - left. unfold loadFailed in Hr. by destruct (loads st !! k) as [[| |]|]. }
    destruct Hcases as [Hin|[-> ->]]; [by apply validRet_step, Hst|].
    cbn [step]. unfold getFFmpeg.
    destruct (instance st) as [i|] eqn:Hi.
    { cbn [fst validRet loads]. by apply (c_instance st Hc). }
    destruct (loadingPromise st) as [p|] eqn:Hl; cbn [fst validRet loads].
    - destruct (c_promise st Hc p Hl) as [Hp|Hp]; by eapply lookup_lt_Some.
    - rewrite length_app. cbn [length]. lia. }
  apply Hgen; [apply ffmpeg_consistent_init|]. by intros r [].
Qed.

Lemma settled_count (l : list PromiseState) :
  (forall k, (S k < length l)%nat -> l !! k = Some Rejected) ->
  (length l <= S (length (List.filter isRejected l)))%nat.
Proof.
  induction l as [|a l IH]; intros Hl; [simpl; lia|].
  destruct l as [|b l]; [simpl; lia|].
  assert (Ha : a = Rejected).
  { specialize (Hl 0%nat). cbn in Hl. by injection (Hl ltac:(lia)). }
  subst a. change (List.filter isRejected (Rejected :: b :: l))
    with (Rejected :: List.filter isRejected (b :: l)).
  cbn [length] in *. apply le_n_S, IH. intros k Hk.
  apply (Hl (S k)). lia.
Qed.

End LoadFacts.

(** X6.  Along every run of the encoder module, every load but the one
    started last has failed, so the encoder is loaded at most once more than
    loads have failed; and whatever a call of [getFFmpeg] returned remains
    meaningful: a returned instance is the encoder of a fulfilled load, a
    returned promise belongs to a load that was started. *)
Theorem loads_bounded_by_failures (evs : list FFmpeg.Event) :
  FFmpegView.settledBefore (FFmpeg.run evs FFmpeg.init)
  /\ (length (FFmpeg.loads (FFmpeg.run evs FFmpeg.init))
      <= S (length (List.filter FFmpegView.isRejected
                      (FFmpeg.loads (FFmpeg.run evs FFmpeg.init)))))%nat
  /\ (forall r, In r (FFmpeg.returned (FFmpeg.run evs FFmpeg.init)) ->
                FFmpegView.validRet (FFmpeg.run evs FFmpeg.init) r).
Proof.
  assert (Hs : FFmpegView.settledBefore (FFmpeg.run evs FFmpeg.init)).
  { assert (Hgen : forall st, FFmpeg.consistent st -> FFmpegView.settledBefore st ->
              FFmpegView.settledBefore (FFmpeg.run evs st)).
    { induction evs as [|e evs IH]; intros st Hc Hst; [done|].
      simpl. apply IH; [by apply ffmpeg_consistent_step|by apply settledBefore_step]. }
    apply Hgen; [apply ffmpeg_consistent_init|].
    intros k Hk. simpl in Hk. lia. }
  split_and!; [done|by apply settled_count|apply returned_valid].
Qed.

Lemma loads_bounded_by_failures_witness :
  FFmpegView.validRet
    (FFmpeg.run [FFmpeg.GetFFmpeg; FFmpeg.LoadFailed 0; FFmpeg.GetFFmpeg;
                 FFmpeg.LoadSucceeded 1; FFmpeg.GetFFmpeg] FFmpeg.init)
    (FFmpeg.RetInstance 1).
Proof.
  apply (proj2 (proj2 (loads_bounded_by_failures
           [FFmpeg.GetFFmpeg; FFmpeg.LoadFailed 0; FFmpeg.GetFFmpeg;
            FFmpeg.LoadSucceeded 1; FFmpeg.GetFFmpeg]))).
  left. reflexivity.
Defined.

(** ** Toasts and their timers *)

Section ToastFacts.

Import App.

Lemma kept_ids id (l : list ToastEntry) id' :
  In id' (map toastId (List.filter (fun t => negb (String.eqb (toastId t) id)) l))
  <-> In id' (map toastId l) /\ id' <> id.
Proof.
  rewrite !in_map_iff. split.
  - intros (t & <- & [Hin Hne]%filter_In). split; [eauto|].
    intros Heq. rewrite Heq, String.eqb_refl in Hne. done.
  - intros [(t & <- & Hin) Hne]. exists t. split; [done|].
    apply filter_In. split; [done|].
    by destruct (String.eqb_spec (toastId t) id).
Qed.

Lemma inSync_step (st : State) e : inSync st -> inSync (step true st e).
Proof.
  intros Hs. destruct e as [message type newId timer|id]; cbn [step]; intros id'.
  - unfold pushToast. cbn [toastTimers toasts].
    rewrite map_app, in_app_iff, <- (Hs id'). cbn [map In toastId].
    rewrite lookup_insert. case_decide as Heq.
    + subst. split; [auto|]. by eexists.
    + split; [auto|]. intros [?|[?|[]]]; [done|congruence].
  - unfold removeToast. cbn [toastTimers toasts].
    rewrite kept_ids, <- (Hs id'), lookup_delete. case_decide as Heq.
    + subst. split; [by intros [? ?]|by intros [_ ?]].
    + split; [intros ?; split; [done|congruence]|by intros [? _]].
Qed.

Lemma inSync_run evs : inSync (run true evs init).
Proof.
  assert (Hgen : forall st, inSync st -> inSync (run true evs st)).
  { induction evs as [|e evs IH]; intros st Hs; [done|].
    simpl. by apply IH, inSync_step. }
  apply Hgen. intros id. cbn. rewrite lookup_empty. split; [by intros [? ?]|done].
Qed.

Lemma filter_filter_same {A} (f : A -> bool) (l : list A) :
  List.filter f (List.filter f l) = List.filter f l.
Proof.
  induction l as [|a l IH]; [done|]. simpl.
  destruct (f a) eqn:Ha; [|done]. simpl. by rewrite Ha, IH.
Qed.

End ToastFacts.


(** X8.  [removeToast] removes every toast that carries the id and forgets
    its timer; calling it a second time changes nothing more; the timer
    that was registered for the id is the one handed to [clearTimeout]; and
    in a state reached in the browser an id that no toast carries leaves
    the state as it was. *)
Theorem removeToast_removes_and_is_idempotent (hasWindow : bool) (id : string)
    (st : App.State) :
  ~ In id (map App.toastId (App.toasts (App.removeToast hasWindow id st)))
  /\ App.toastTimers (App.removeToast hasWindow id st) !! id = None
  /\ (forall t, In t (App.toasts (App.removeToast hasWindow id st))
                <-> In t (App.toasts st) /\ App.toastId t <> id)
  /\ App.removeToast hasWindow id (App.removeToast hasWindow id st)
     = App.removeToast hasWindow id st
  /\ (forall timer, App.toastTimers st !! id = Some timer ->
        App.cleared (App.removeToast true id st) = timer :: App.cleared st)
  /\ (forall evs, ~ In id (map App.toastId (App.toasts (App.run true evs App.init))) ->
        App.removeToast true id (App.run true evs App.init)
        = App.run true evs App.init).
Proof.
  split_and!.
  - unfold App.removeToast. cbn [App.toasts]. rewrite kept_ids. by intros [_ ?].
  - unfold App.removeToast. cbn [App.toastTimers]. apply lookup_delete_eq.
  - intros t. unfold App.removeToast. cbn [App.toasts]. rewrite filter_In.
    by destruct (String.eqb_spec (App.toastId t) id); split; intros [? ?].
  - unfold App.removeToast. cbn [App.toasts App.toastTimers App.cleared].
    by rewrite filter_filter_same, lookup_delete_eq, delete_delete_eq.
  - intros timer Hk. unfold App.removeToast. cbn [App.cleared]. by rewrite Hk.
  - intros evs Hnot.
    assert (Hnone : App.toastTimers (App.run true evs App.init) !! id = None).
    { apply eq_None_not_Some. by rewrite (inSync_run evs id). }
    destruct (App.run true evs App.init) as [ts tm cl].
    unfold App.removeToast. cbn [App.toasts App.toastTimers App.cleared] in *.
    rewrite Hnone, delete_id by done. f_equal.
    apply filter_all. intros t Ht.
    destruct (String.eqb_spec (App.toastId t) id) as [Heq|]; [|done].
    destruct Hnot. rewrite <- Heq. by apply in_map.
Qed.

Lemma removeToast_removes_and_is_idempotent_witness :
  App.cleared
    (App.removeToast true "t1"
       (App.run true [App.PushToast "saved" toast_success "t1" 7;
                      App.PushToast "failed" toast_error "t2" 8] App.init))
  = [7].
Proof.
  apply (proj1 (proj2 (proj2 (proj2 (proj2
           (removeToast_removes_and_is_idempotent true "t1"
              (App.run true [App.PushToast "saved" toast_success "t1" 7;
                             App.PushToast "failed" toast_error "t2" 8] App.init)))))) 7).
  vm_compute. reflexivity.
Defined.

(** ** A batch of images from start to end *)

Section BatchFacts.

Import ImageGenerator ImageBatch.

Variable maxHistory : Z.
Variable formatBytes : Z -> string.
Variable showNat : nat -> string.

Lemma produced_iteration (st : State) i n pic :
  running st = [mkLoop i n] ->
  let st' := step maxHistory formatBytes showNat st (completes 0 pic) in
  length (Registry.heap (reg st')) = S (length (Registry.heap (reg st)))
  /\ batchMode st' = batchMode st /\ batchCount st' = batchCount st
  /\ ((S i < n)%nat ->
      running st' = [mkLoop (S i) n] /\ isImageGenerating st' = isImageGenerating st)
  /\ ((n <= S i)%nat -> running st' = [] /\ isImageGenerating st' = false).
Proof.
  intros Hr. cbn [step completes]. unfold produced. rewrite Hr. cbn [lookup list_lookup].
  unfold alloc. cbn [ImageGenerator.i ImageGenerator.tasks].
  destruct (Nat.ltb_spec (S i) n) as [Hlt|Hge];
    cbn [reg batchMode batchCount running isImageGenerating emit finally];
    rewrite pushResult_heap; cbn [Registry.heap]; rewrite length_app; cbn [length];
    rewrite ?Hr; split_and!; try done; try lia; intros; lia.
Qed.

Lemma batch_loop (pics : list Picture) :
  forall (st : State) i n,
    running st = [mkLoop i n] -> (i + length pics <= n)%nat ->
    let st' := run maxHistory formatBytes showNat (map (completes 0) pics) st in
    length (Registry.heap (reg st'))
      = (length (Registry.heap (reg st)) + length pics)%nat
    /\ ((i + length pics < n)%nat ->
        running st' = [mkLoop (i + length pics) n]
        /\ isImageGenerating st' = isImageGenerating st)
    /\ ((i + length pics = n)%nat -> (0 < length pics)%nat ->
        running st' = [] /\ isImageGenerating st' = false).
Proof.
  induction pics as [|pic pics IH]; intros st i n Hr Hle.
  - cbn. rewrite !Nat.add_0_r. split_and!; [done|done|lia].
  - cbn [map length run fold_left] in *.
    destruct (produced_iteration st i n pic Hr) as (Hh & _ & _ & Hmore & Hlast).
    destruct (decide (S i < n)%nat) as [Hlt|Hge].
    + destruct (Hmore Hlt) as [Hr1 Hg1].
      destruct (IH _ (S i) n Hr1 ltac:(lia)) as (Hh2 & Hmid & Hend).
      fold (run maxHistory formatBytes showNat (map (completes 0) pics)
              (step maxHistory formatBytes showNat st (completes 0 pic))).
      rewrite Hh2, Hh. split_and!; [lia| |].
      * intros Hlt2. destruct (Hmid ltac:(lia)) as [-> ->].
        split; [f_equal; f_equal; lia|done].
      * intros Heq _. destruct pics as [|pic2 pics]; [cbn in Heq; lia|].
        apply Hend; cbn [length] in *; lia.
    + destruct (Hlast ltac:(lia)) as [Hr1 Hg1].
      assert (pics = []) as -> by (destruct pics; [done|cbn in Hle; lia]).
      cbn [map fold_left length]. rewrite Hh. split_and!; [lia|lia|done].
Qed.

End BatchFacts.

(** X9.  [generateImage] always plans at least one iteration, also for a
    batch count of zero or below.  Called on an idle component and
    followed by as many completed iterations as planned, it creates exactly
    that many objects and then clears [isImageGenerating]; after fewer
    completed iterations the flag is still set. *)
Theorem batch_runs_to_completion (maxHistory : Z) (formatBytes : Z -> string)
    (showNat : nat -> string) (st : ImageGenerator.State)
    (pics : list ImageBatch.Picture) :
  ImageGenerator.isImageGenerating st = false ->
  ImageGenerator.running st = [] ->
  (length pics <= ImageBatch.plannedTasks st)%nat ->
  let st' := ImageGenerator.run maxHistory formatBytes showNat
               (ImageGenerator.GenerateImage :: map (ImageBatch.completes 0) pics) st in
  (1 <= ImageBatch.plannedTasks st)%nat
  /\ length (Registry.heap (ImageGenerator.reg st'))
     = (length (Registry.heap (ImageGenerator.reg st)) + length pics)%nat
  /\ ((length pics < ImageBatch.plannedTasks st)%nat ->
      ImageGenerator.isImageGenerating st' = true)
  /\ (length pics = ImageBatch.plannedTasks st ->
      ImageGenerator.isImageGenerating st' = false
      /\ ImageGenerator.running st' = []).
Proof.
  intros Hidle Hrun Hlen st'.
  assert (Hplan : (1 <= ImageBatch.plannedTasks st)%nat).
  { unfold ImageBatch.plannedTasks. destruct (ImageGenerator.batchMode st); lia. }
  subst st'. cbn [ImageGenerator.run fold_left ImageGenerator.step].
  set (st1 := ImageGenerator.generateImage st).
  assert (Hst1 : ImageGenerator.running st1
                 = [ImageGenerator.mkLoop 0 (ImageBatch.plannedTasks st)]
                 /\ ImageGenerator.isImageGenerating st1 = true
                 /\ ImageGenerator.reg st1 = ImageGenerator.reg st).
  { unfold st1, ImageGenerator.generateImage. rewrite Hidle, Hrun. by split_and!. }
  destruct Hst1 as (Hr1 & Hg1 & Hreg1).
  destruct (batch_loop maxHistory formatBytes showNat pics st1 0
              (ImageBatch.plannedTasks st) Hr1 ltac:(simpl; lia))
    as (Hh & Hmid & Hend).
  fold (ImageGenerator.run maxHistory formatBytes showNat
          (map (ImageBatch.completes 0) pics) st1).
  rewrite Hh, Hreg1. split_and!; [done|done| |].
  - intros Hlt. destruct (Hmid ltac:(simpl; lia)) as [_ ->]. done.
  - intros Heq. destruct (Hend ltac:(simpl; lia) ltac:(lia)) as [-> ->]. done.
Qed.

Lemma batch_runs_to_completion_witness :
  ImageGenerator.isImageGenerating
    (ImageGenerator.run 20 Sample.label (fun _ => "1")
       (ImageGenerator.GenerateImage
          :: map (ImageBatch.completes 0)
               [ImageBatch.mkPicture "u" 10 "h" "a" 0 "image/png" "n" "d"])
       ImageGenerator.init) = false.
Proof.
  apply (batch_runs_to_completion 20 Sample.label (fun _ => "1") ImageGenerator.init
           [ImageBatch.mkPicture "u" 10 "h" "a" 0 "image/png" "n" "d"]
           eq_refl eq_refl ltac:(vm_compute; lia)).
  reflexivity.
Defined.

(** ** Hexadecimal text *)

Section JsFacts.

Import Js.

Lemma isLowerHexDigit_spec c :
  isLowerHexDigit c = true <-> (48 <= c <= 57 \/ 97 <= c <= 102)%N.
Proof.
  unfold isLowerHexDigit.
  rewrite orb_true_iff, !andb_true_iff, !N.leb_le. tauto.
Qed.

Lemma isHexDigit_spec c :
  isHexDigit c = true <-> (48 <= c <= 57 \/ 97 <= c <= 102 \/ 65 <= c <= 70)%N.
Proof.
  unfold isHexDigit.
  rewrite !orb_true_iff, !andb_true_iff, !N.leb_le. tauto.
Qed.

Lemma isWhiteSpace_range c :
  isWhiteSpace c = true -> (c <= 32 \/ 160 <= c)%N.
Proof.
  unfold isWhiteSpace.
  rewrite !orb_true_iff, !andb_true_iff, !N.leb_le, !N.eqb_eq. lia.
Qed.

Lemma lower_not_space c : isLowerHexDigit c = true -> isWhiteSpace c = false.
Proof.
  intros Hc%isLowerHexDigit_spec. apply not_true_iff_false.
  intros Hw%isWhiteSpace_range. lia.
Qed.

Lemma lower_is_hex c : isLowerHexDigit c = true -> isHexDigit c = true.
Proof. rewrite isLowerHexDigit_spec, isHexDigit_spec. tauto. Qed.

Lemma toLowerCase_hex (s : jsstring) :
  forallb isHexDigit s = true -> forallb isLowerHexDigit (toLowerCase s) = true.
Proof.
  unfold toLowerCase. induction s as [|c s IH]; [done|]. cbn [forallb List.map].
  rewrite !andb_true_iff. intros [Hc Hs]. split; [|by apply IH].
  apply isHexDigit_spec in Hc. apply isLowerHexDigit_spec.
  destruct (N.leb_spec 65 c), (N.leb_spec c 90); simpl; lia.
Qed.

Lemma toLowerCase_lower (s : jsstring) :
  forallb isLowerHexDigit s = true -> toLowerCase s = s.
Proof.
  unfold toLowerCase. induction s as [|c s IH]; [done|]. cbn [forallb List.map].
  rewrite andb_true_iff. intros [Hc Hs]. rewrite (IH Hs). f_equal.
  apply isLowerHexDigit_spec in Hc.
  destruct (N.leb_spec 65 c), (N.leb_spec c 90); simpl; lia.
Qed.

Lemma dropWhile_keeps (f : N -> bool) (s : jsstring) :
  match s with c :: _ => f c = false | [] => True end -> dropWhile f s = s.
Proof. destruct s as [|c s]; [done|]. simpl. by intros ->. Qed.

Lemma trim_lower (s : jsstring) :
  forallb isLowerHexDigit s = true -> trim s = s.
Proof.
  intros Hs. unfold trim.
  assert (Hall : forall c, In c s -> isWhiteSpace c = false).
  { intros c Hc. apply lower_not_space. by eapply forallb_forall in Hs. }
  rewrite (dropWhile_keeps _ s).
  2:{ destruct s as [|c s']; [done|]. apply Hall. by left. }
  rewrite (dropWhile_keeps _ (rev s)); [apply rev_involutive|].
  destruct (rev s) as [|c r] eqn:Hrev; [done|].
  apply Hall, in_rev. rewrite Hrev. by left.
Qed.

Lemma hexValue_range c d : hexValue c = Some d -> 0 <= d < 16.
Proof.
  unfold hexValue.
  destruct (N.leb_spec 48 c), (N.leb_spec c 57), (N.leb_spec 97 c),
    (N.leb_spec c 102), (N.leb_spec 65 c), (N.leb_spec c 70);
    cbn [andb]; intros [= <-]; lia.
Qed.

Lemma hexValue_lower c :
  isLowerHexDigit c = true -> exists d, hexValue c = Some d /\ hexChar d = c.
Proof.
  intros Hc%isLowerHexDigit_spec. unfold hexValue, hexChar.
  destruct (N.leb_spec 48 c), (N.leb_spec c 57), (N.leb_spec 97 c),
    (N.leb_spec c 102); cbn [andb]; try (destruct Hc; lia); clear Hc;
    eexists; (split; [done|]).
  - destruct (Z.ltb_spec (Z.of_N c - 48) 10); [|lia].
    apply N2Z.inj. rewrite Z2N.id; lia.
  - destruct (Z.ltb_spec (Z.of_N c - 87) 10); [lia|].
    apply N2Z.inj. rewrite Z2N.id; lia.
Qed.

Lemma hexChar_lower d :
  0 <= d < 16 -> isLowerHexDigit (hexChar d) = true /\ hexValue (hexChar d) = Some d.
Proof.
  intros Hd. unfold hexChar.
  destruct (Z.ltb_spec d 10).
  - split; [apply isLowerHexDigit_spec; lia|]. unfold hexValue.
    destruct (N.leb_spec 48 (Z.to_N (48 + d))), (N.leb_spec (Z.to_N (48 + d)) 57);
      cbn [andb]; try lia. f_equal. lia.
  - split; [apply isLowerHexDigit_spec; lia|]. unfold hexValue.
    destruct (N.leb_spec 48 (Z.to_N (87 + d))), (N.leb_spec (Z.to_N (87 + d)) 57),
      (N.leb_spec 97 (Z.to_N (87 + d))), (N.leb_spec (Z.to_N (87 + d)) 102);
      cbn [andb]; try lia. f_equal. lia.
Qed.

End JsFacts.

Section DigitFacts.

Import Js.

Lemma length_hexFixed w n : length (hexFixed w n) = w.
Proof.
  revert n. induction w as [|w IH]; intros n; [done|].
  cbn [hexFixed]. rewrite length_app, IH. simpl. lia.
Qed.

Lemma hexFixed_zero w : hexFixed w 0 = replicate w 48%N.
Proof.
  induction w as [|w IH]; [done|].
  cbn [hexFixed]. change (0 / 16) with 0. rewrite IH.
  change (hexChar (0 mod 16)) with 48%N. by rewrite <- replicate_S_end.
Qed.

Lemma pow16_succ (k : nat) : 16 ^ Z.of_nat (S k) = 16 * 16 ^ Z.of_nat k.
Proof. rewrite Nat2Z.inj_succ, Z.pow_succ_r; lia. Qed.

Lemma hexDigitsAux_spec fuel :
  forall n acc w,
    0 <= n -> n < 16 ^ Z.of_nat fuel -> n < 16 ^ Z.of_nat w -> (1 <= w)%nat ->
    padStart (w + length acc) 48 (hexDigitsAux fuel n acc) = hexFixed w n ++ acc.
Proof.
  induction fuel as [|fuel IH]; intros n acc w Hn Hfuel Hw Hw1.
  - assert (n = 0) as -> by (simpl in Hfuel; lia).
    cbn [hexDigitsAux]. unfold padStart.
    replace (w + length acc - length acc)%nat with w by lia.
    by rewrite hexFixed_zero.
  - cbn [hexDigitsAux]. destruct w as [|w]; [lia|]. cbn [hexFixed].
    rewrite <- app_assoc. cbn [app].
    destruct (Z.eqb_spec (n / 16) 0) as [Hz|Hnz].
    + rewrite Hz, hexFixed_zero. unfold padStart. cbn [length].
      by replace (S w + length acc - S (length acc))%nat with w by lia.
    + assert (Hq : 0 < n / 16).
      { pose proof (Z.div_pos n 16 Hn ltac:(lia)). lia. }
      assert (Hn16 : 16 <= n).
      { destruct (Z.lt_ge_cases n 16) as [Hlt|]; [|done].
        rewrite (Z.div_small n 16) in Hq by lia. lia. }
      destruct w as [|w'].
      { change (16 ^ Z.of_nat 1) with 16 in Hw. lia. }
      rewrite pow16_succ in Hfuel, Hw.
      rewrite <- (IH (n / 16) (hexChar (n mod 16) :: acc) (S w')).
      * cbn [length]. f_equal. lia.
      * lia.
      * apply Z.div_lt_upper_bound; lia.
      * apply Z.div_lt_upper_bound; lia.
      * lia.
Qed.

Lemma lt_pow16_log2 n : 0 <= n -> n < 16 ^ Z.of_nat (S (Z.to_nat (Z.log2 n))).
Proof.
  intros Hn. destruct (Z.eq_dec n 0) as [->|Hne]; [done|].
  pose proof (Z.log2_spec n ltac:(lia)) as [_ Hlt].
  pose proof (Z.log2_nonneg n) as Hlog.
  rewrite Nat2Z.inj_succ, Z2Nat.id by done.
  eapply Z.lt_le_trans; [exact Hlt|].
  apply Z.pow_le_mono_l. lia.
Qed.

(** [n.toString(16).padStart(w, '0')] is [n] on [w] places. *)
Lemma toString16_padded (w : nat) n :
  0 <= n < 16 ^ Z.of_nat w -> (1 <= w)%nat ->
  padStart w 48 (toString16 n) = hexFixed w n.
Proof.
  intros [Hn Hlt] Hw. unfold toString16.
  destruct (Z.ltb_spec n 0); [lia|].
  pose proof (hexDigitsAux_spec (S (Z.to_nat (Z.log2 n))) n [] w Hn
                (lt_pow16_log2 n Hn) Hlt Hw) as Hspec.
  cbn [length] in Hspec. rewrite Nat.add_0_r, app_nil_r in Hspec. exact Hspec.
Qed.

Lemma hexFixed_map w n : hexFixed w n = List.map hexChar (fixedDigits w n).
Proof.
  revert n. induction w as [|w IH]; intros n; [done|].
  cbn [hexFixed fixedDigits]. by rewrite map_app, IH.
Qed.

Lemma fixedDigits_range w n : Forall inDigitRange (fixedDigits w n).
Proof.
  revert n. induction w as [|w IH]; intros n; [constructor|].
  cbn [fixedDigits]. apply Forall_app. split; [apply IH|].
  constructor; [|constructor]. unfold inDigitRange. apply Z.mod_pos_bound. lia.
Qed.

Lemma length_fixedDigits w n : length (fixedDigits w n) = w.
Proof.
  revert n. induction w as [|w IH]; intros n; [done|].
  cbn [fixedDigits]. rewrite length_app, IH. simpl. lia.
Qed.

Lemma valueOfDigits_snoc ds d :
  valueOfDigits (ds ++ [d]) = valueOfDigits ds * 16 + d.
Proof. unfold valueOfDigits. by rewrite fold_left_app. Qed.

Lemma value_fixedDigits w :
  forall n, 0 <= n < 16 ^ Z.of_nat w -> valueOfDigits (fixedDigits w n) = n.
Proof.
  induction w as [|w IH]; intros n Hn.
  - simpl in Hn. cbn. lia.
  - cbn [fixedDigits]. rewrite valueOfDigits_snoc, IH.
    + pose proof (Z.div_mod n 16 ltac:(lia)). lia.
    + rewrite pow16_succ in Hn. split; [apply Z.div_pos; lia|].
      apply Z.div_lt_upper_bound; lia.
Qed.

Lemma value_bound ds :
  Forall inDigitRange ds -> 0 <= valueOfDigits ds < 16 ^ Z.of_nat (length ds).
Proof.
  induction ds as [|d ds IH] using rev_ind; intros Hds.
  - cbn. lia.
  - apply Forall_app in Hds as [Hds Hd]. apply Forall_inv in Hd.
    rewrite valueOfDigits_snoc, length_app. cbn [length].
    rewrite Nat.add_1_r, pow16_succ.
    specialize (IH Hds). unfold inDigitRange in Hd. lia.
Qed.

Lemma fixedDigits_value ds :
  Forall inDigitRange ds -> fixedDigits (length ds) (valueOfDigits ds) = ds.
Proof.
  induction ds as [|d ds IH] using rev_ind; intros Hds; [done|].
  apply Forall_app in Hds as [Hds Hd]. apply Forall_inv in Hd.
  rewrite valueOfDigits_snoc, length_app. cbn [length]. rewrite Nat.add_1_r.
  cbn [fixedDigits]. unfold inDigitRange in Hd.
  replace ((valueOfDigits ds * 16 + d) / 16) with (valueOfDigits ds).
  2:{ rewrite Z.div_add_l by lia. rewrite (Z.div_small d 16) by lia. lia. }
  replace ((valueOfDigits ds * 16 + d) mod 16) with d.
  2:{ rewrite Z.add_comm, Z.mod_add by lia. by rewrite Z.mod_small. }
  by rewrite IH.
Qed.

Lemma digitsPrefix_lower (s : jsstring) :
  forallb isLowerHexDigit s = true ->
  List.map hexChar (digitsPrefix s) = s
  /\ length (digitsPrefix s) = length s
  /\ Forall inDigitRange (digitsPrefix s).
Proof.
  induction s as [|c s IH]; [intros _; split_and!; [done|done|constructor]|].
  cbn [forallb]. rewrite andb_true_iff. intros [Hc Hs].
  destruct (hexValue_lower c Hc) as (d & Hd & Hch).
  destruct (IH Hs) as (Hmap & Hlen & Hall).
  cbn [digitsPrefix]. rewrite Hd. cbn [List.map length].
  split_and!; [by rewrite Hch, Hmap|by rewrite Hlen|].
  constructor; [by eapply hexValue_range|done].
Qed.

Lemma hexChars_lower ds :
  Forall inDigitRange ds ->
  forallb isLowerHexDigit (List.map hexChar ds) = true
  /\ digitsPrefix (List.map hexChar ds) = ds.
Proof.
  induction 1 as [|d ds Hd Hds [IH1 IH2]]; [done|].
  destruct (hexChar_lower d Hd) as [Hl Hv].
  cbn [List.map forallb digitsPrefix]. rewrite Hl, Hv, IH1, IH2. done.
Qed.

Lemma parseInt16_lower (s : jsstring) :
  forallb isLowerHexDigit s = true -> s <> [] ->
  parseInt16 s = Some (valueOfDigits (digitsPrefix s)).
Proof.
  intros Hs Hne. destruct s as [|c s]; [done|].
  pose proof Hs as Hs'. cbn [forallb] in Hs'. apply andb_true_iff in Hs' as [Hc Hrest].
  unfold parseInt16. cbn [dropWhile]. rewrite (lower_not_space c Hc).
  apply isLowerHexDigit_spec in Hc as Hcr.
  destruct (N.eqb_spec c 45); [lia|]. destruct (N.eqb_spec c 43); [lia|].
  assert (Hs3 : match c :: s with
                | c1 :: c2 :: rest =>
                    if ((c1 =? 48) && ((c2 =? 120) || (c2 =? 88)))%N then rest else c :: s
                | _ => c :: s
                end = c :: s).
  { destruct s as [|c2 rest]; [done|].
    cbn [forallb] in Hrest. apply andb_true_iff in Hrest as [Hc2 _].
    apply isLowerHexDigit_spec in Hc2.
    destruct (N.eqb_spec c2 120); [lia|]. destruct (N.eqb_spec c2 88); [lia|].
    by rewrite andb_false_r. }
  rewrite Hs3.
  destruct (hexValue_lower c (proj2 (isLowerHexDigit_spec c) Hcr)) as (d & Hd & _).
  cbn [digitsPrefix]. rewrite Hd. by rewrite Z.mul_1_l.
Qed.

(** Reading back what was printed on [w] places. *)
Lemma parseInt16_hexFixed (w : nat) n :
  0 <= n < 16 ^ Z.of_nat w -> (1 <= w)%nat ->
  forallb isLowerHexDigit (hexFixed w n) = true
  /\ parseInt16 (hexFixed w n) = Some n.
Proof.
  intros Hn Hw. rewrite hexFixed_map.
  destruct (hexChars_lower _ (fixedDigits_range w n)) as [Hl Hd].
  split; [done|]. rewrite parseInt16_lower; [|done|].
  - by rewrite Hd, value_fixedDigits.
  - intros Hnil. apply (f_equal length) in Hnil.
    rewrite length_map, length_fixedDigits in Hnil. simpl in Hnil. lia.
Qed.

(** Printing back what was read from lowercase digits. *)
Lemma hexFixed_parse (s : jsstring) :
  forallb isLowerHexDigit s = true ->
  hexFixed (length s) (valueOfDigits (digitsPrefix s)) = s.
Proof.
  intros Hs. destruct (digitsPrefix_lower s Hs) as (Hmap & Hlen & Hall).
  by rewrite hexFixed_map, <- Hlen, fixedDigits_value.
Qed.

End DigitFacts.

(** ** The colour helpers *)

Section ColorFacts.

Import Js Color.

Lemma hex_not_space c : isHexDigit c = true -> isWhiteSpace c = false.
Proof.
  intros Hc%isHexDigit_spec. apply not_true_iff_false.
  intros Hw%isWhiteSpace_range. lia.
Qed.

Lemma trim_clean (s : jsstring) :
  (forall c, In c s -> isWhiteSpace c = false) -> trim s = s.
Proof.
  intros Hall. unfold trim.
  rewrite (dropWhile_keeps _ s).
  2:{ destruct s as [|c s']; [done|]. apply Hall. by left. }
  rewrite (dropWhile_keeps _ (rev s)); [apply rev_involutive|].
  destruct (rev s) as [|c r] eqn:Hrev; [done|].
  apply Hall, in_rev. rewrite Hrev. by left.
Qed.

(** What [normalizeHex] returns: the fallback, or six digits in lower case. *)
Lemma normalizeHex_shape (value : jsstring) :
  normalizeHex value = lit "222222"
  \/ exists hex, length hex = 6%nat /\ forallb isHexDigit hex = true
                 /\ normalizeHex value = toLowerCase hex.
Proof.
  unfold normalizeHex. cbv zeta.
  match goal with |- context [negb (Nat.eqb (length ?h) 6 && forallb isHexDigit ?h)] =>
    set (hex := h) end.
  destruct (Nat.eqb_spec (length hex) 6) as [Hlen|]; [|by left].
  destruct (forallb isHexDigit hex) eqn:Hall; [|by left].
  right. by exists hex.
Qed.

Lemma normalizeHex_fixed (s : jsstring) :
  length s = 6%nat -> forallb isLowerHexDigit s = true -> normalizeHex s = s.
Proof.
  intros Hlen Hs. unfold normalizeHex. cbv zeta. rewrite (trim_lower s Hs).
  destruct s as [|c s']; [done|].
  pose proof Hs as Hs'. cbn [forallb] in Hs'. apply andb_true_iff in Hs' as [Hc _].
  apply isLowerHexDigit_spec in Hc.
  destruct (N.eqb_spec c 35); [lia|].
  rewrite Hlen. cbn [Nat.eqb]. rewrite Hlen. cbn [Nat.eqb andb].
  assert (Hhex : forallb isHexDigit (c :: s') = true).
  { apply forallb_forall. intros x Hx. apply lower_is_hex.
    by eapply forallb_forall in Hs. }
  rewrite Hhex. cbn [negb]. by apply toLowerCase_lower.
Qed.

Lemma normalizeHex_lower (value : jsstring) :
  length (normalizeHex value) = 6%nat
  /\ forallb isLowerHexDigit (normalizeHex value) = true.
Proof.
  destruct (normalizeHex_shape value) as [->|(hex & Hlen & Hall & ->)]; [done|].
  split; [|by apply toLowerCase_hex].
  unfold toLowerCase. by rewrite length_map.
Qed.

End ColorFacts.

(** X10.  Whatever text it is given, [normalizeHex] returns exactly six
    lowercase hexadecimal digits, and normalising a second time changes
    nothing; so [toFFmpegColor] always yields [0x] followed by six such
    digits. *)
Theorem normalizeHex_is_six_lowercase_digits (value : Js.jsstring) :
  length (Color.normalizeHex value) = 6%nat
  /\ forallb Js.isLowerHexDigit (Color.normalizeHex value) = true
  /\ Color.normalizeHex (Color.normalizeHex value) = Color.normalizeHex value
  /\ length (Color.toFFmpegColor value) = 8%nat.
Proof.
  destruct (normalizeHex_lower value) as [Hlen Hall].
  split_and!; [done|done|by apply normalizeHex_fixed|].
  unfold Color.toFFmpegColor. rewrite length_app, Hlen. done.
Qed.

(** X11.  On a text made of hexadecimal digits only, with or without a
    leading [#]: six digits are kept and lowercased, three digits are each
    doubled and lowercased, and any other number of digits gives the
    fallback [222222]. *)
Theorem normalizeHex_of_digits (s : Js.jsstring) :
  forallb Js.isHexDigit s = true ->
  Color.normalizeHex (35%N :: s) = Color.normalizeHex s
  /\ (length s = 6%nat -> Color.normalizeHex s = Js.toLowerCase s)
  /\ (length s = 3%nat ->
      Color.normalizeHex s = Js.toLowerCase (flat_map (fun c => [c; c]) s))
  /\ (length s <> 3%nat -> length s <> 6%nat ->
      Color.normalizeHex s = Js.lit "222222").
Proof.
  intros Hs.
  assert (Hclean : forall c, In c s -> Js.isWhiteSpace c = false).
  { intros c Hc. apply hex_not_space. by eapply forallb_forall in Hs. }
  assert (Htrim : Js.trim s = s) by by apply trim_clean.
  assert (Htrim' : Js.trim (35%N :: s) = 35%N :: s).
  { apply trim_clean. intros c [<-|Hc]; [done|by apply Hclean]. }
  assert (Hhead : match s with
                  | c :: rest => if (c =? 35)%N then rest else s
                  | [] => s
                  end = s).
  { destruct s as [|c s']; [done|].
    cbn [forallb] in Hs. apply andb_true_iff in Hs as [Hc _].
    apply isHexDigit_spec in Hc. destruct (N.eqb_spec c 35); [lia|done]. }
  split_and!.
  - unfold Color.normalizeHex. cbv zeta. rewrite Htrim, Htrim', Hhead.
    by rewrite N.eqb_refl.
  - intros Hlen. unfold Color.normalizeHex. cbv zeta.
    rewrite Htrim, Hhead, Hlen. cbn [Nat.eqb]. by rewrite Hlen, Hs.
  - intros Hlen. unfold Color.normalizeHex. cbv zeta. rewrite Htrim, Hhead, Hlen.
    destruct s as [|a [|b [|c [|? ?]]]]; try done.
    cbn [forallb] in Hs. rewrite !andb_true_iff in Hs. destruct Hs as (Ha & Hb & Hc & _).
    cbn [Nat.eqb flat_map app length forallb]. rewrite Ha, Hb, Hc. done.
  - intros H3 H6. unfold Color.normalizeHex. cbv zeta. rewrite Htrim, Hhead.
    destruct (Nat.eqb_spec (length s) 3); [done|].
    by destruct (Nat.eqb_spec (length s) 6).
Qed.

Lemma normalizeHex_of_digits_witness :
  Color.normalizeHex (Js.lit "AbC")
  = Js.toLowerCase (flat_map (fun c => [c; c]) (Js.lit "AbC")).
Proof.
  apply (normalizeHex_of_digits (Js.lit "AbC")); reflexivity.
Defined.

Section BitFacts.

Import Js.

Lemma toInt32_small x : 0 <= x < 2147483648 -> toInt32 x = x.
Proof.
  intros Hx. unfold toInt32.
  change (2 ^ 31) with 2147483648. change (2 ^ 32) with 4294967296.
  rewrite Z.mod_small; lia.
Qed.

Lemma sar_small x n :
  0 <= x < 2147483648 -> 0 <= n < 32 -> sar x n = x / 2 ^ n.
Proof.
  intros Hx Hn. unfold sar.
  rewrite toInt32_small, Z.mod_small by lia. apply Z.shiftr_div_pow2. lia.
Qed.

Lemma band_255 x : 0 <= x < 2147483648 -> band x 255 = x mod 256.
Proof.
  intros Hx. unfold band. rewrite toInt32_small by lia.
  change (toInt32 255) with (Z.ones 8). rewrite Z.land_ones by lia. done.
Qed.

Lemma shl_small x n :
  0 <= x -> 0 <= n < 32 -> x * 2 ^ n < 2147483648 -> shl x n = x * 2 ^ n.
Proof.
  intros Hx Hn Hlt. unfold shl.
  assert (x < 2147483648).
  { pose proof (Z.pow_pos_nonneg 2 n ltac:(lia) ltac:(lia)). nia. }
  rewrite (toInt32_small x), Z.mod_small, Z.shiftl_mul_pow2 by lia.
  apply toInt32_small. split; [|done].
  apply Z.mul_nonneg_nonneg; [done|]. apply Z.pow_nonneg. lia.
Qed.

Lemma land_disjoint a b k :
  0 <= k -> 0 <= b < 2 ^ k -> Z.land (a * 2 ^ k) b = 0.
Proof.
  intros Hk Hb. apply Z.bits_inj'. intros m Hm.
  rewrite Z.land_spec, Z.bits_0, <- Z.shiftl_mul_pow2 by done.
  destruct (Z.lt_ge_cases m k) as [Hlt|Hge].
  - by rewrite Z.shiftl_spec_low.
  - destruct (Z.eq_dec b 0) as [->|Hne].
    + by rewrite Z.bits_0, andb_false_r.
    + rewrite (Z.bits_above_log2 b m), andb_false_r; [done|lia|].
      assert (Z.log2 b < k) by (apply Z.log2_lt_pow2; lia). lia.
Qed.

Lemma bor_disjoint a b k :
  0 <= k -> 0 <= a -> 0 <= b < 2 ^ k -> a * 2 ^ k + b < 2147483648 ->
  bor (a * 2 ^ k) b = a * 2 ^ k + b.
Proof.
  intros Hk Ha Hb Hlt. unfold bor.
  assert (0 <= a * 2 ^ k).
  { apply Z.mul_nonneg_nonneg; [done|]. apply Z.pow_nonneg. lia. }
  rewrite !toInt32_small by lia.
  pose proof (Z.add_lor_land (a * 2 ^ k) b) as Hadd.
  rewrite land_disjoint in Hadd by done. lia.
Qed.

Lemma clampChannel_range x : 0 <= Color.clampChannel x <= 255.
Proof. unfold Color.clampChannel. lia. Qed.

(** The three channels put back together. *)
Lemma pack_channels r g b :
  0 <= r <= 255 -> 0 <= g <= 255 -> 0 <= b <= 255 ->
  bor (bor (shl r 16) (shl g 8)) b = r * 65536 + g * 256 + b.
Proof.
  intros Hr Hg Hb.
  rewrite (shl_small r 16), (shl_small g 8) by (change (2 ^ 16) with 65536;
                                                change (2 ^ 8) with 256; lia).
  change (2 ^ 8) with 256.
  replace (g * 256) with (0 * 2 ^ 16 + g * 256) at 1 by lia.
  rewrite (bor_disjoint r (0 * 2 ^ 16 + g * 256) 16)
    by (change (2 ^ 16) with 65536; lia).
  change (2 ^ 16) with 65536.
  replace (r * 65536 + (0 * 65536 + g * 256)) with ((r * 256 + g) * 2 ^ 8)
    by (change (2 ^ 8) with 256; lia).
  rewrite bor_disjoint by (change (2 ^ 8) with 256; lia).
  change (2 ^ 8) with 256. lia.
Qed.

(** The three channels taken apart. *)
Lemma unpack_channels num :
  0 <= num < 16777216 ->
  band (sar num 16) 255 = num / 65536
  /\ band (sar num 8) 255 = (num / 256) mod 256
  /\ band num 255 = num mod 256.
Proof.
  intros Hn.
  rewrite (sar_small num 16), (sar_small num 8) by lia.
  change (2 ^ 16) with 65536. change (2 ^ 8) with 256.
  assert (0 <= num / 65536 < 256).
  { split; [apply Z.div_pos; lia|apply Z.div_lt_upper_bound; lia]. }
  assert (0 <= num / 256 < 65536).
  { split; [apply Z.div_pos; lia|apply Z.div_lt_upper_bound; lia]. }
  rewrite !band_255 by lia. split_and!; [|done|done].
  apply Z.mod_small. lia.
Qed.

End BitFacts.

(** X12.  [nudgedColor] returns [0x] followed by exactly six lowercase
    hexadecimal digits, whatever the text and the random draw.  Read back,
    the digits are the three channels of the normalised colour, each moved
    by [delta = rnd - 25] and clamped to [0, 255]; with [delta = 0] the
    result is [toFFmpegColor] of the same text. *)
Theorem nudgedColor_clamps_each_channel (rnd : Z) (value : Js.jsstring) :
  exists num,
    Js.parseInt16 (Color.normalizeHex value) = Some num
    /\ 0 <= num < 16777216
    /\ length (Color.nudgedColor rnd value) = 8%nat
    /\ take 2 (Color.nudgedColor rnd value) = Js.lit "0x"
    /\ forallb Js.isLowerHexDigit (drop 2 (Color.nudgedColor rnd value)) = true
    /\ Js.parseInt16 (drop 2 (Color.nudgedColor rnd value))
       = Some (Color.clampChannel (num / 65536 + (rnd - 25)) * 65536
               + Color.clampChannel ((num / 256) mod 256 + (rnd - 25)) * 256
               + Color.clampChannel (num mod 256 + (rnd - 25)))
    /\ (rnd = 25 -> Color.nudgedColor rnd value = Color.toFFmpegColor value).
Proof.
  destruct (normalizeHex_lower value) as [Hlen Hall].
  set (hex := Color.normalizeHex value) in *.
  destruct (digitsPrefix_lower hex Hall) as (_ & Hdlen & Hdall).
  pose proof (value_bound _ Hdall) as Hbound.
  rewrite Hdlen, Hlen in Hbound. change (16 ^ Z.of_nat 6) with 16777216 in Hbound.
  set (num := Js.valueOfDigits (Js.digitsPrefix hex)) in *.
  assert (Hparse : Js.parseInt16 hex = Some num).
  { apply parseInt16_lower; [done|]. intros Hnil. by rewrite Hnil in Hlen. }
  exists num. split; [done|]. split; [done|].
  destruct (unpack_channels num Hbound) as (HR & HG & HB).
  set (r := Color.clampChannel (num / 65536 + (rnd - 25))).
  set (g := Color.clampChannel ((num / 256) mod 256 + (rnd - 25))).
  set (b := Color.clampChannel (num mod 256 + (rnd - 25))).
  pose proof (clampChannel_range (num / 65536 + (rnd - 25))) as Hr.
  pose proof (clampChannel_range ((num / 256) mod 256 + (rnd - 25))) as Hg.
  pose proof (clampChannel_range (num mod 256 + (rnd - 25))) as Hb.
  fold r in Hr. fold g in Hg. fold b in Hb.
  assert (Hout : Color.nudgedColor rnd value
                 = Js.lit "0x" ++ Js.hexFixed 6 (r * 65536 + g * 256 + b)).
  { unfold Color.nudgedColor. cbv zeta. fold hex. rewrite Hparse.
    change (default 0 (Some num)) with num.
    rewrite HR, HG, HB. fold r g b.
    rewrite pack_channels by done.
    rewrite toString16_padded; [done| |lia].
    change (16 ^ Z.of_nat 6) with 16777216. lia. }
  assert (Hv : 0 <= r * 65536 + g * 256 + b < 16 ^ Z.of_nat 6).
  { change (16 ^ Z.of_nat 6) with 16777216. lia. }
  destruct (parseInt16_hexFixed 6 _ Hv ltac:(lia)) as [Hlow Hback].
  rewrite Hout. split_and!.
  - rewrite length_app, length_hexFixed. done.
  - done.
  - done.
  - done.
  - intros ->. unfold Color.toFFmpegColor. fold hex. f_equal.
    rewrite <- (hexFixed_parse hex Hall), Hlen. fold num. f_equal.
    subst r g b. unfold Color.clampChannel.
    assert (0 <= num / 65536 < 256).
    { split; [apply Z.div_pos; lia|apply Z.div_lt_upper_bound; lia]. }
    pose proof (Z.mod_pos_bound (num / 256) 256 ltac:(lia)).
    pose proof (Z.mod_pos_bound num 256 ltac:(lia)).
    pose proof (Z.div_mod num 256 ltac:(lia)).
    pose proof (Z.div_mod (num / 256) 256 ltac:(lia)).
    assert (num / 256 / 256 = num / 65536) by (rewrite Z.div_div by lia; done).
    lia.
Qed.

Lemma nudgedColor_clamps_each_channel_witness :
  Color.nudgedColor 25 (Js.lit "#0ea5e9") = Color.toFFmpegColor (Js.lit "#0ea5e9").
Proof.
  destruct (nudgedColor_clamps_each_channel 25 (Js.lit "#0ea5e9"))
    as (num & _ & _ & _ & _ & _ & _ & Hsame).
  exact (Hsame eq_refl).
Defined.

(** ** Digests as text *)

Section HashFacts.

Import Js Hash.




Lemma hexOfByte_fixed b : isByte b -> hexOfByte b = hexFixed 2 b.
Proof.
  intros Hb. unfold hexOfByte. apply toString16_padded; [|lia].
  change (16 ^ Z.of_nat 2) with 256. unfold isByte in Hb. lia.
Qed.

Lemma hexOfByte_inj b1 b2 :
  isByte b1 -> isByte b2 -> hexOfByte b1 = hexOfByte b2 -> b1 = b2.
Proof.
  intros H1 H2. rewrite !hexOfByte_fixed by done. intros Heq.
  assert (Hr : forall b, isByte b -> parseInt16 (hexFixed 2 b) = Some b).
  { intros b Hb. apply parseInt16_hexFixed; [|lia].
    change (16 ^ Z.of_nat 2) with 256. unfold isByte in Hb. lia. }
  pose proof (Hr b1 H1) as Hp1. rewrite Heq, (Hr b2 H2) in Hp1. by simplify_eq.
Qed.

End HashFacts.



(** X14.  The digest text built by [computeHash] has two lowercase
    hexadecimal digits for every byte, and two different byte sequences
    never give the same text; without [crypto.subtle], or when the digest
    was refused, the text is empty. *)
Theorem computeHash_is_two_digits_per_byte (bytes : list Z) :
  Forall Hash.isByte bytes ->
  length (Hash.computeHash true (Some bytes)) = (2 * length bytes)%nat
  /\ forallb Js.isLowerHexDigit (Hash.computeHash true (Some bytes)) = true
  /\ (forall bytes', Forall Hash.isByte bytes' ->
        Hash.computeHash true (Some bytes') = Hash.computeHash true (Some bytes) ->
        bytes' = bytes)
  /\ Hash.computeHash false (Some bytes) = []
  /\ Hash.computeHash true None = [].
Proof.
  intros Hb. cbn [Hash.computeHash negb]. split_and!; [| | |done|done].
  - unfold Hash.hexOfBytes. induction Hb as [|b bs Hb1 Hbs IH]; [done|].
    cbn [List.map concat length]. rewrite length_app, IH, hexOfByte_fixed by done.
    rewrite length_hexFixed. lia.
  - unfold Hash.hexOfBytes. induction Hb as [|b bs Hb1 Hbs IH]; [done|].
    cbn [List.map concat]. rewrite forallb_app, IH, hexOfByte_fixed by done.
    destruct (parseInt16_hexFixed 2 b) as [-> _]; [|lia|done].
    change (16 ^ Z.of_nat 2) with 256. unfold Hash.isByte in Hb1. lia.
  - unfold Hash.hexOfBytes. induction Hb as [|b bs Hb1 Hbs IH]; intros bytes' Hb' Heq.
    + destruct Hb' as [|b' bs' Hb'1 _]; [done|].
      cbn [List.map concat] in Heq. rewrite hexOfByte_fixed in Heq by done.
      apply (f_equal length) in Heq. rewrite length_app, length_hexFixed in Heq.
      simpl in Heq. lia.
    + destruct Hb' as [|b' bs' Hb'1 Hbs'].
      { cbn [List.map concat] in Heq. rewrite hexOfByte_fixed in Heq by done.
        apply (f_equal length) in Heq. rewrite length_app, length_hexFixed in Heq.
        simpl in Heq. lia. }
      cbn [List.map concat] in Heq.
      apply app_inj_1 in Heq as [Hhead Htail].
      2:{ rewrite !hexOfByte_fixed by done. by rewrite !length_hexFixed. }
      f_equal; [by apply hexOfByte_inj|by apply IH].
Qed.

Lemma computeHash_is_two_digits_per_byte_witness :
  length (Hash.computeHash true (Some [0; 171; 255])) = 6%nat.
Proof.
  apply (computeHash_is_two_digits_per_byte [0; 171; 255]).
  repeat constructor; unfold Hash.isByte; lia.
Defined.

(** ** Every object URL is released at most once, and never while shown *)

Section HandleFacts.

Import VideoGenerator Handles.

Variable maxHistory : Z.
Variable formatBytes : Z -> string.
Variable placeholderName placeholderDetail : VideoConfig -> string.

Lemma createObjectURL_inj u1 u2 :
  createObjectURL u1 = createObjectURL u2 -> u1 = u2.
Proof. unfold createObjectURL. cbn. intros [= H]. exact H. Qed.

Lemma shown_not_revoked used (st : State) q o :
  disciplined used st ->
  In q (Registry.results (reg st)) -> Registry.heap (reg st) !! q = Some o ->
  ~ In (Asset.url o) (Registry.revoked (reg st)).
Proof.
  intros Hd Hq Ho Hin.
  destruct (d_gone used st Hd _ Hin) as (Hne & q' & o' & Ho' & Hurl & Hnot).
  assert (q' = q) as ->; [|done].
  eapply (d_distinct used st Hd); [exact Ho'|exact Ho|done|congruence].
Qed.

Lemma last_not_in_removelast {A} (l : list A) (e : A) :
  NoDup l -> last l = Some e -> ~ In e (removelast l).
Proof.
  intros Hnd Hlast Hin.
  destruct l as [|x l'] using rev_ind; [done|].
  rewrite last_snoc in Hlast. simplify_eq.
  rewrite removelast_last in Hin.
  apply NoDup_app in Hnd as (_ & Hdisj & _).
  apply (Hdisj e); [by apply list_elem_of_In|by left].
Qed.

Lemma last_In {A} (l : list A) (e : A) : last l = Some e -> In e l.
Proof.
  destruct l as [|x l'] using rev_ind; [done|].
  rewrite last_snoc. intros [= ->]. apply in_app_iff. right. by left.
Qed.

(** A step that leaves the array and the revoked URLs alone and keeps the
    [url] of every object. *)
Lemma disciplined_same_urls used (st st' : State) :
  disciplined used st ->
  Registry.results (reg st') = Registry.results (reg st) ->
  Registry.revoked (reg st') = Registry.revoked (reg st) ->
  (forall q, match Registry.heap (reg st') !! q, Registry.heap (reg st) !! q with
             | Some o', Some o => Asset.url o' = Asset.url o
             | None, None => True
             | _, _ => False
             end) ->
  disciplined used st'.
Proof.
  intros [Hm Hdi Ho Hg] Hres Hrev Hheap.
  assert (Hback : forall q o', Registry.heap (reg st') !! q = Some o' ->
            exists o, Registry.heap (reg st) !! q = Some o
                      /\ Asset.url o' = Asset.url o).
  { intros q o' Hq. specialize (Hheap q). rewrite Hq in Hheap.
    destruct (Registry.heap (reg st) !! q) as [o|]; [eauto|done]. }
  assert (Hforth : forall q o, Registry.heap (reg st) !! q = Some o ->
            exists o', Registry.heap (reg st') !! q = Some o'
                       /\ Asset.url o' = Asset.url o).
  { intros q o Hq. specialize (Hheap q). rewrite Hq in Hheap.
    destruct (Registry.heap (reg st') !! q) as [o'|]; [eauto|done]. }
  split.
  - intros q o' Hq Hne. destruct (Hback q o' Hq) as (o & Ho' & Hurl).
    rewrite Hurl in *. by apply (Hm q o).
  - intros q1 q2 o1 o2 H1 H2 Heq Hne.
    destruct (Hback q1 o1 H1) as (o1' & H1' & Hu1).
    destruct (Hback q2 o2 H2) as (o2' & H2' & Hu2).
    apply (Hdi q1 q2 o1' o2' H1' H2'); congruence.
  - by rewrite Hrev.
  - intros u Hu. rewrite Hrev in Hu. destruct (Hg u Hu) as (Hne & q & o & Hq & Hurl & Hnot).
    split; [done|]. destruct (Hforth q o Hq) as (o' & Hq' & Hurl').
    exists q, o'. rewrite Hres. split_and!; [done|congruence|done].
Qed.

Lemma disciplined_weaken used u (st : State) :
  disciplined used st -> disciplined (u ++ used) st.
Proof.
  intros [Hm Hdi Ho Hg]. split; try done.
  intros q o Hq Hne. destruct (Hm q o Hq Hne) as (u0 & Hin & Hurl).
  exists u0. split; [|done]. apply in_app_iff. by right.
Qed.

Lemma same_heap_urls (h : Heap) q :
  match h !! q, h !! q with
  | Some o', Some o => Asset.url o' = Asset.url o
  | None, None => True
  | _, _ => False
  end.
Proof. by destruct (h !! q). Qed.

Lemma disciplined_generateVideo used cfg newId now (st : State) :
  consistent st -> disciplined used st ->
  disciplined used (generateVideo maxHistory placeholderName placeholderDetail
                      cfg newId now st).
Proof.
  intros Hc Hd. unfold generateVideo.
  destruct (invalidConfig cfg).
  { apply (disciplined_same_urls used st); try done. intros q. apply same_heap_urls. }
  destruct (isVideoGenerating st) eqn:Hgen; [done|].
  unfold alloc.
  set (h := Registry.heap (reg st)) in *.
  set (l := Registry.results (reg st)) in *.
  set (rv := Registry.revoked (reg st)) in *.
  set (pl := Asset.mk newId video "" "video/mp4" (placeholderName cfg)
                      (placeholderDetail cfg) 0 "生成中" now (Some pending)
                      (Some 0) None).
  set (p := length h).
  assert (Hvalid : forall q, In q l -> (q < p)%nat) by apply (c_valid st Hc).
  assert (Hnd : NoDup (p :: l)).
  { apply NoDup_cons. split; [|apply (c_nodup st Hc)].
    rewrite list_elem_of_In. intros Hin%Hvalid. lia. }
  assert (Hold : forall q o, (h ++ [pl]) !! q = Some o -> Asset.url o <> "" ->
                             h !! q = Some o).
  { intros q o [[_ Hq]|[_ <-]]%lookup_snoc_Some Hne; done. }
  destruct Hd as [Hm Hdi Ho Hg].
  assert (Hshown : forall q o, In q l -> h !! q = Some o -> ~ In (Asset.url o) rv).
  { intros q o Hq Hqo. by apply (shown_not_revoked used st q o). }
  (* what the push did to the array and to the revoked URLs *)
  set (r0 := Registry.mk (h ++ [pl]) l rv).
  assert (Hpush :
    (forall q, In q (Registry.results (Registry.pushResult maxHistory p r0)) ->
               In q (p :: l))
    /\ (Registry.revoked (Registry.pushResult maxHistory p r0) = rv
        \/ exists e o, In e l /\ h !! e = Some o /\ Asset.url o <> ""
             /\ ~ In e (Registry.results (Registry.pushResult maxHistory p r0))
             /\ Registry.revoked (Registry.pushResult maxHistory p r0)
                = Asset.url o :: rv)).
  { unfold Registry.pushResult, Registry.pop.
    cbn [r0 Registry.heap Registry.results Registry.revoked].
    destruct (Z.of_nat (length (p :: l)) >? maxHistory); [|by split; [|left]].
    rewrite cleanupAsset_results. cbn [Registry.results]. split.
    { intros q. apply removelast_In. }
    unfold Registry.cleanupAsset. cbn [Registry.heap Registry.results Registry.revoked].
    destruct (last (p :: l)) as [e|] eqn:Hlast; [|by left]. cbn [mbind option_bind].
    destruct ((h ++ [pl]) !! e) as [o|] eqn:He; [|by left].
    destruct (String.eqb_spec (Asset.url o) ""); [by left|].
    cbn [Registry.results Registry.revoked]. right.
    pose proof (Hold e o He ltac:(done)) as He'.
    assert (Hel : In e l).
    { apply last_In in Hlast as [<-|Hin]; [|done].
      apply lookup_lt_Some in He'. unfold p in He'. lia. }
    exists e, o. split_and!; try done.
    by apply last_not_in_removelast. }
  destruct Hpush as [Hsub Hrev].
  split; cbn [reg]; rewrite ?pushResult_heap; cbn [r0 Registry.heap].
  - intros q o Hq Hne. apply (Hm q o); [by apply Hold|done].
  - intros q1 q2 o1 o2 H1 H2 Heq Hne.
    apply (Hdi q1 q2 o1 o2); [by apply Hold|apply Hold; [done|congruence]|done|done].
  - destruct Hrev as [->|(e & o & Hel & He & Hne & _ & ->)]; [done|].
    apply NoDup_cons. split; [|done]. rewrite list_elem_of_In. by apply (Hshown e).
  - assert (Hkeep : forall u, In u rv ->
              u <> "" /\ exists q o, (h ++ [pl]) !! q = Some o /\ Asset.url o = u
                /\ ~ In q (Registry.results (Registry.pushResult maxHistory p r0))).
    { intros u Hu. destruct (Hg u Hu) as (Hne & q & o & Hq & Hurl & Hnot).
      split; [done|]. exists q, o. split_and!; [|done|].
      - rewrite lookup_app_l; [done|by eapply lookup_lt_Some].
      - intros [Heq|Hin]%Hsub; [|done].
        apply lookup_lt_Some in Hq. fold h in Hq. fold p in Hq. lia. }
    destruct Hrev as [->|(e & o & Hel & He & Hne & Hnot & ->)]; [done|].
    intros u [<-|Hu]; [|by apply Hkeep].
    split; [done|]. exists e, o. split_and!; [|done|done].
    rewrite lookup_app_l; [done|by eapply lookup_lt_Some].
Qed.

Lemma disciplined_encoded used p uuid blobSize md5 elapsed (st : State) :
  consistent st -> disciplined used st -> ~ In uuid used ->
  disciplined (uuid :: used) (encoded formatBytes p uuid blobSize md5 elapsed st).
Proof.
  intros Hc Hd Hfresh.
  destruct (phaseOf p st) as [ph|] eqn:Hph.
  2:{ unfold encoded. rewrite Hph. by apply (disciplined_weaken used [uuid]). }
  destruct (decide (ph = Encoding)) as [->|Hne].
  2:{ unfold encoded. rewrite Hph.
      destruct ph; try done; by apply (disciplined_weaken used [uuid]). }
  destruct (phaseOf_consistent p _ st Hc Hph) as (Hr & _ & o & Ho & Hst).
  rewrite decide_False in Hst by done.
  assert (Hempty : Asset.url o = "").
  { apply (c_status st Hc p o Ho). congruence. }
  assert (Hres : Registry.results (reg (encoded formatBytes p uuid blobSize md5 elapsed st))
                 = Registry.results (reg st)).
  { unfold encoded. by rewrite Hph. }
  assert (Hrev : Registry.revoked (reg (encoded formatBytes p uuid blobSize md5 elapsed st))
                 = Registry.revoked (reg st)).
  { unfold encoded. by rewrite Hph. }
  assert (Hlook : forall q o',
            Registry.heap (reg (encoded formatBytes p uuid blobSize md5 elapsed st)) !! q
            = Some o' ->
            (q = p /\ Asset.url o' = createObjectURL uuid)
            \/ (q <> p /\ Registry.heap (reg st) !! q = Some o')).
  { intros q o'. rewrite encoded_heap by done.
    destruct (decide (q = p)) as [->|Hqp]; [|by right].
    rewrite Ho. intros [= <-]. by left. }
  destruct Hd as [Hm Hdi Hon Hg].
  split.
  - intros q o' Hq Hne. destruct (Hlook q o' Hq) as [[-> Hurl]|[Hqp Hq']].
    + exists uuid. split; [by left|done].
    + destruct (Hm q o' Hq' Hne) as (u & Hu & Hurl). exists u. split; [by right|done].
  - intros q1 q2 o1 o2 H1 H2 Heq Hne.
    destruct (Hlook q1 o1 H1) as [[-> Hu1]|[Hq1 H1']],
             (Hlook q2 o2 H2) as [[-> Hu2]|[Hq2 H2']]; try done.
    + destruct (Hm q2 o2 H2' ltac:(congruence)) as (u & Hu & Hurl).
      assert (u = uuid) by (apply createObjectURL_inj; congruence). by subst.
    + destruct (Hm q1 o1 H1' Hne) as (u & Hu & Hurl).
      assert (u = uuid) by (apply createObjectURL_inj; congruence). by subst.
    + by apply (Hdi q1 q2 o1 o2).
  - by rewrite Hrev.
  - intros u Hu. rewrite Hrev in Hu.
    destruct (Hg u Hu) as (Hne & q & o' & Hq & Hurl & Hnot).
    split; [done|]. exists q, o'. rewrite Hres. split_and!; [|done|done].
    rewrite encoded_heap by done. rewrite decide_False; [done|].
    intros ->. rewrite Ho in Hq. simplify_eq; congruence.
Qed.

Lemma disciplined_failed used p err (st : State) :
  disciplined used st -> disciplined used (failed p err st).
Proof.
  intros Hd.
  destruct (phaseOf p st) as [ph|] eqn:Hph.
  2:{ unfold failed. by rewrite Hph. }
  destruct (decide (ph = Cleaning)) as [->|Hne].
  { unfold failed. by rewrite Hph. }
  assert (Hph' : phaseOf p st = Some Loading \/ phaseOf p st = Some Encoding).
  { rewrite Hph. destruct ph; auto. done. }
  apply (disciplined_same_urls used st); [done| | |].
  - unfold failed. by destruct Hph' as [-> | ->].
  - unfold failed. by destruct Hph' as [-> | ->].
  - intros q. rewrite failed_heap by done.
    destruct (decide (q = p)) as [->|_]; [|apply same_heap_urls].
    by destruct (Registry.heap (reg st) !! p).
Qed.

Lemma disciplined_removeAsset used assetId (st : State) :
  disciplined used st -> disciplined used (removeAsset assetId st).
Proof.
  intros Hd. unfold removeAsset.
  destruct (Registry.find assetId (reg st)) as [p|] eqn:Hfind; [|done].
  destruct (Registry.heap (reg st) !! p) as [o|] eqn:Hp; [|done].
  case_bool_decide; [done|].
  unfold Registry.find in Hfind. apply find_some in Hfind as [Hin Hid].
  pose proof (shown_not_revoked used st p o Hd Hin Hp) as Hnotrev.
  destruct Hd as [Hm Hdi Hon Hg].
  assert (Hsub : forall q, In q (Registry.filter_out assetId
                                   (Registry.cleanupAsset (Some p) (reg st))) ->
                           In q (Registry.results (reg st)) /\ q <> p).
  { intros q. unfold Registry.filter_out.
    rewrite cleanupAsset_heap, cleanupAsset_results. intros [Hq Hneg]%filter_In.
    split; [done|]. intros ->. by rewrite Hid in Hneg. }
  split; cbn [reg Registry.heap Registry.results Registry.revoked];
    rewrite ?cleanupAsset_heap, ?(cleanupAsset_revoked p o) by done.
  - done.
  - done.
  - destruct (String.eqb_spec (Asset.url o) ""); [done|].
    apply NoDup_cons. split; [|done]. by rewrite list_elem_of_In.
  - assert (Hkeep : forall u, In u (Registry.revoked (reg st)) ->
              u <> "" /\ exists q o', Registry.heap (reg st) !! q = Some o'
                /\ Asset.url o' = u
                /\ ~ In q (Registry.filter_out assetId
                             (Registry.cleanupAsset (Some p) (reg st)))).
    { intros u Hu. destruct (Hg u Hu) as (Hne & q & o' & Hq & Hurl & Hnot).
      split; [done|]. exists q, o'. split_and!; try done.
      intros [? _]%Hsub. done. }
    destruct (String.eqb_spec (Asset.url o) ""); [done|].
    intros u [<-|Hu]; [|by apply Hkeep].
    split; [done|]. exists p, o. split_and!; try done.
    intros [_ ?]%Hsub. done.
Qed.

Lemma disciplined_step used e (st : State) :
  consistent st -> disciplined used st ->
  (forall u, In u (uuidOf e) -> ~ In u used) ->
  disciplined (uuidOf e ++ used)
    (step maxHistory formatBytes placeholderName placeholderDetail st e).
Proof.
  intros Hc Hd Hfresh.
  destruct e as [cfg newId now|p|p time|p uuid blobSize md5 elapsed|p err|p|assetId];
    cbn [step uuidOf app].
  - by apply disciplined_generateVideo.
  - apply (disciplined_same_urls used st); try done;
      unfold ffmpegLoaded; destruct (phaseOf p st) as [[| |]|]; try done;
      intros q; apply same_heap_urls.
  - apply (disciplined_same_urls used st); try done;
      unfold handleProgress; destruct (phaseOf p st) as [[| |]|]; try done;
      intros q; apply same_heap_urls.
  - apply disciplined_encoded; [done|done|]. apply Hfresh. by left.
  - by apply disciplined_failed.
  - apply (disciplined_same_urls used st); try done;
      unfold deleted; destruct (phaseOf p st) as [[| |]|]; try done;
      intros q; apply same_heap_urls.
  - by apply disciplined_removeAsset.
Qed.

Lemma disciplined_run evs :
  forall used (st : State),
    consistent st -> disciplined used st ->
    NoDup (uuidsOf evs) -> (forall u, In u (uuidsOf evs) -> ~ In u used) ->
    exists used',
      disciplined used'
        (run maxHistory formatBytes placeholderName placeholderDetail evs st).
Proof.
  induction evs as [|e evs IH]; intros used st Hc Hd Hnd Hfresh; [by exists used|].
  cbn [run fold_left]. unfold uuidsOf in Hnd, Hfresh. cbn [flat_map] in Hnd, Hfresh.
  apply NoDup_app in Hnd as (_ & Hdisj & Hnd).
  apply (IH (uuidOf e ++ used)).
  - by apply consistent_step.
  - apply disciplined_step; [done|done|].
    intros u Hu. apply Hfresh, in_app_iff. by left.
  - done.
  - intros u Hu [Hin|Hin]%in_app_iff.
    + apply (Hdisj u); by apply list_elem_of_In.
    + apply (Hfresh u); [|done]. apply in_app_iff. by right.
Qed.

End HandleFacts.

(** X15.  When the browser never hands out the same object URL twice, in
    every state the video component can reach no URL has been revoked
    twice, the URL of a record still in the array has not been revoked,
    and every revoked URL is the non-empty [url] of a record that has left
    the array. *)
Theorem object_urls_released_at_most_once (maxHistory : Z) (formatBytes : Z -> string)
    (placeholderName placeholderDetail : VideoGenerator.VideoConfig -> string)
    (evs : list VideoGenerator.Event) :
  NoDup (Handles.uuidsOf evs) ->
  let st := VideoGenerator.run maxHistory formatBytes placeholderName
              placeholderDetail evs VideoGenerator.init in
  NoDup (Registry.revoked (VideoGenerator.reg st))
  /\ (forall q o, In q (Registry.results (VideoGenerator.reg st)) ->
        Registry.heap (VideoGenerator.reg st) !! q = Some o ->
        ~ In (Asset.url o) (Registry.revoked (VideoGenerator.reg st)))
  /\ (forall u, In u (Registry.revoked (VideoGenerator.reg st)) ->
        u <> ""
        /\ exists q o, Registry.heap (VideoGenerator.reg st) !! q = Some o
             /\ Asset.url o = u
             /\ ~ In q (Registry.results (VideoGenerator.reg st))).
Proof.
  intros Hnd st.
  destruct (disciplined_run maxHistory formatBytes placeholderName placeholderDetail
              evs [] VideoGenerator.init) as [used Hd].
  - apply consistent_init.
  - split; cbn;
      [intros q o Hq; by destruct q | intros q1 q2 o1 o2 Hq; by destruct q1
      | constructor | by intros u []].
  - done.
  - by intros u _ [].
  - fold st in Hd. split_and!.
    + apply (Handles.d_once used st Hd).
    + intros q o. by apply (shown_not_revoked used st q o).
    + apply (Handles.d_gone used st Hd).
Qed.

Lemma object_urls_released_at_most_once_witness :
  NoDup (Registry.revoked (VideoGenerator.reg
    (Sample.videoRun 1
       [VideoGenerator.GenerateVideo VideoGenerator.videoConfig "a" 0;
        VideoGenerator.FFmpegLoaded 0;
        VideoGenerator.Encoded 0 "u1" 2048 "h" "0.1";
        VideoGenerator.Deleted 0;
        VideoGenerator.GenerateVideo VideoGenerator.videoConfig "b" 1]
       VideoGenerator.init))).
Proof.
  apply (object_urls_released_at_most_once 1 Sample.label Sample.videoName
           Sample.videoDetail
           [VideoGenerator.GenerateVideo VideoGenerator.videoConfig "a" 0;
            VideoGenerator.FFmpegLoaded 0;
            VideoGenerator.Encoded 0 "u1" 2048 "h" "0.1";
            VideoGenerator.Deleted 0;
            VideoGenerator.GenerateVideo VideoGenerator.videoConfig "b" 1]).
  apply (bool_decide_unpack _). reflexivity.
Defined.

(** ** One generation at a time *)

Section BusyFacts.

Import Busy.

Lemma imageBusy_step m fb sn (st : ImageGenerator.State) e :
  imageBusy st -> imageBusy (ImageGenerator.step m fb sn st e).
Proof.
  intros Hb.
  destruct e as [b|n| |k uuid blobSize digest newId now mime name detail|k err|assetId];
    cbn [ImageGenerator.step]; try done.
  - unfold ImageGenerator.generateImage.
    destruct (ImageGenerator.isImageGenerating st) eqn:Hg; [done|].
    destruct Hb as [[Hr _]|(? & ? & _ & ? & _)]; [|congruence].
    right. eexists 0%nat, _. cbn [ImageGenerator.running ImageGenerator.isImageGenerating].
    rewrite Hr. split_and!; [done|done|].
    destruct (ImageGenerator.batchMode st); lia.
  - unfold ImageGenerator.produced.
    destruct (ImageGenerator.running st !! k) as [lp|] eqn:Hk; [|done].
    destruct Hb as [[Hr _]|(i & n & Hr & Hg & Hlt)]; [by rewrite Hr in Hk|].
    rewrite Hr in Hk. destruct k as [|k]; [|done]. cbn in Hk. simplify_eq.
    unfold alloc. cbn [ImageGenerator.i ImageGenerator.tasks].
    destruct (Nat.ltb_spec (S i) n).
    + right. exists (S i), n.
      cbn [ImageGenerator.running ImageGenerator.isImageGenerating]. by rewrite Hr.
    + left. cbn [ImageGenerator.finally ImageGenerator.emit ImageGenerator.running
                 ImageGenerator.isImageGenerating]. by rewrite Hr.
  - unfold ImageGenerator.failed.
    destruct (ImageGenerator.running st !! k) as [lp|] eqn:Hk; [|done].
    destruct Hb as [[Hr _]|(i & n & Hr & Hg & Hlt)]; [by rewrite Hr in Hk|].
    rewrite Hr in Hk. destruct k as [|k]; [|done].
    left. cbn [ImageGenerator.finally ImageGenerator.emit ImageGenerator.running
               ImageGenerator.isImageGenerating]. by rewrite Hr.
  - unfold ImageGenerator.removeAsset.
    by destruct (Registry.find assetId (ImageGenerator.reg st)).
Qed.

Lemma derivativeBusy_step m fb dn (st : DerivativeGenerator.State) e :
  derivativeBusy st -> derivativeBusy (DerivativeGenerator.step m fb dn st e).
Proof.
  intros Hb.
  destruct e as [file| | |k uuid blobSize md5 dims newId now|k err|assetId];
    cbn [DerivativeGenerator.step]; try done.
  - unfold DerivativeGenerator.deriveMaterial.
    destruct (DerivativeGenerator.selectedFile st) as [file|]; [|done].
    destruct (DerivativeGenerator.isImage file) eqn:Hi,
             (DerivativeGenerator.isVideo file) eqn:Hv; cbn [negb andb]; try done;
      (destruct (DerivativeGenerator.isProcessing st) eqn:Hg; [done|]);
      (destruct Hb as [[Hr _]|(? & _ & ? & _)]; [|congruence]);
      right; exists file;
      cbn [DerivativeGenerator.running DerivativeGenerator.isProcessing];
      rewrite Hr, Hi, Hv; done.
  - unfold DerivativeGenerator.derived.
    destruct (DerivativeGenerator.running st !! k) as [file|] eqn:Hk; [|done].
    destruct Hb as [[Hr _]|(f & Hr & Hg & Hty)]; [by rewrite Hr in Hk|].
    rewrite Hr in Hk. destruct k as [|k]; [|done].
    unfold alloc. left.
    cbn [DerivativeGenerator.finally DerivativeGenerator.emit
         DerivativeGenerator.running DerivativeGenerator.isProcessing].
    by rewrite Hr.
  - unfold DerivativeGenerator.failed.
    destruct (DerivativeGenerator.running st !! k) as [file|] eqn:Hk; [|done].
    destruct Hb as [[Hr _]|(f & Hr & Hg & Hty)]; [by rewrite Hr in Hk|].
    rewrite Hr in Hk. destruct k as [|k]; [|done].
    left.
    cbn [DerivativeGenerator.finally DerivativeGenerator.emit
         DerivativeGenerator.running DerivativeGenerator.isProcessing].
    by rewrite Hr.
  - unfold DerivativeGenerator.removeAsset.
    by destruct (Registry.find assetId (DerivativeGenerator.reg st)).
Qed.

Lemma kindMatchesMime_step m fb dn (st : DerivativeGenerator.State) e :
  (forall q o, Registry.heap (DerivativeGenerator.reg st) !! q = Some o ->
               kindMatchesMime o) ->
  forall q o,
    Registry.heap (DerivativeGenerator.reg (DerivativeGenerator.step m fb dn st e)) !! q
    = Some o -> kindMatchesMime o.
Proof.
  intros Hinv.
  destruct e as [file| | |k uuid blobSize md5 dims newId now|k err|assetId];
    cbn [DerivativeGenerator.step DerivativeGenerator.reg]; try done.
  - unfold DerivativeGenerator.deriveMaterial.
    destruct (DerivativeGenerator.selectedFile st) as [file|]; [|done].
    destruct (_ && _); [done|].
    by destruct (DerivativeGenerator.isProcessing st).
  - unfold DerivativeGenerator.derived.
    destruct (DerivativeGenerator.running st !! k) as [file|]; [|done].
    unfold alloc. cbn [DerivativeGenerator.finally DerivativeGenerator.emit
                       DerivativeGenerator.reg].
    intros q o. rewrite pushResult_heap. cbn [Registry.heap].
    intros [[_ Hq]|[_ <-]]%lookup_snoc_Some; [by apply (Hinv q)|].
    unfold kindMatchesMime. cbn [Asset.kind Asset.mime].
    destruct (DerivativeGenerator.isImage file); [right|by left].
    destruct (String.eqb (DerivativeGenerator.fileType file) "image/png"); auto.
  - unfold DerivativeGenerator.failed.
    by destruct (DerivativeGenerator.running st !! k).
  - unfold DerivativeGenerator.removeAsset.
    destruct (Registry.find assetId (DerivativeGenerator.reg st)) as [p|]; [|done].
    cbn [DerivativeGenerator.reg Registry.heap]. intros q o.
    rewrite cleanupAsset_heap. apply Hinv.
Qed.

End BusyFacts.

(** X16.  In the image generator and in the derivative generator at most
    one generation runs at a time, and the busy flag is set exactly while
    it runs: in every reachable state the component is idle with the flag
    cleared, or one invocation is suspended with the flag set.  A file
    being derived is always an image or a video. *)
Theorem one_generation_at_a_time :
  (forall m fb sn evs,
      Busy.imageBusy (ImageGenerator.run m fb sn evs ImageGenerator.init))
  /\ (forall m fb dn evs,
        Busy.derivativeBusy (DerivativeGenerator.run m fb dn evs DerivativeGenerator.init)).
Proof.
  split.
  - intros m fb sn evs.
    assert (Hgen : forall st, Busy.imageBusy st ->
              Busy.imageBusy (ImageGenerator.run m fb sn evs st)).
    { induction evs as [|e evs IH]; intros st Hst; [done|].
      simpl. by apply IH, imageBusy_step. }
    apply Hgen. by left.
  - intros m fb dn evs.
    assert (Hgen : forall st, Busy.derivativeBusy st ->
              Busy.derivativeBusy (DerivativeGenerator.run m fb dn evs st)).
    { induction evs as [|e evs IH]; intros st Hst; [done|].
      simpl. by apply IH, derivativeBusy_step. }
    apply Hgen. by left.
Qed.

(** X17.  Every asset the derivative generator creates is a video with
    mime [video/mp4] or an image with mime [image/png] or [image/jpeg]. *)
Theorem derived_kind_matches_mime (m : Z) (fb : Z -> string) (dn : string -> string)
    (evs : list DerivativeGenerator.Event) (q : loc) (o : GeneratedAsset) :
  Registry.heap (DerivativeGenerator.reg
    (DerivativeGenerator.run m fb dn evs DerivativeGenerator.init)) !! q = Some o ->
  Busy.kindMatchesMime o.
Proof.
  assert (Hgen : forall st,
    (forall q o, Registry.heap (DerivativeGenerator.reg st) !! q = Some o ->
                 Busy.kindMatchesMime o) ->
    forall q o, Registry.heap (DerivativeGenerator.reg
                  (DerivativeGenerator.run m fb dn evs st)) !! q = Some o ->
                Busy.kindMatchesMime o).
  { induction evs as [|e evs IH]; intros st Hst; [done|].
    simpl. apply IH. by apply kindMatchesMime_step. }
  apply Hgen. intros q' o' Hq'. by destruct q'.
Qed.

Lemma derived_kind_matches_mime_witness :
  Busy.kindMatchesMime
    (Asset.mk "id" image (createObjectURL "u") "image/jpeg" "photo-derived.webp"
              "640 × 480px" 10 (Sample.label 10) 0 (Some ready) None (Some "md5")).
Proof.
  apply (derived_kind_matches_mime 20 Sample.label (fun _ => "photo-derived.webp")
           [DerivativeGenerator.FileChange
              (Some (DerivativeGenerator.mkFile "photo.webp" "image/webp" 99));
            DerivativeGenerator.DeriveMaterial;
            DerivativeGenerator.Derived 0 "u" 10 "md5" "640 × 480px" "id" 0]
           0%nat).
  reflexivity.
Defined.
